(** * Synkora real-time layer: presence hook, canvas synchronisation, relay

  A shallow embedding of the client side of the real-time collaboration
  layer:

  - [src/hooks/use-socket.ts]  (the [useSocket] hook), module [UseSocket];
  - [src/unnamed/part_000]     (the [CollaborativeCanvas] component),
    module [Canvas];

  together with the two server-side notions that the repository keeps in
  [server.js] (room registry, relay, presence list), modules [Relay] and
  [Presence], and with what the canvas component talks to over HTTP:

  - the authorisation helpers that follow the hook in
    [src/hooks/use-socket.ts] ([requireTeamRole], [canEdit], ...), module
    [AuthUtils];
  - [src/app/api/projects/[id]/canvas/route.ts] (loading and saving a
    canvas), module [CanvasRoute].

  Time is discrete, one unit per millisecond.  The browser's timer table is
  part of the state; [setTimeout], [setInterval], [clearTimeout] and
  [clearInterval] act on it, and a [tick] lets one millisecond pass and
  runs the callbacks that become due. *)

From stdpp Require Import gmap strings list fin_maps.

Local Open Scope string_scope.
Local Open Scope list_scope.
Local Open Scope nat_scope.

(** ** Counting occurrences in a duplicate-free list *)

Section Counting.
Context {A : Type} `{EqDecision A}.

Definition occurrences (x : A) (l : list A) : nat :=
  length (filter (λ y, y = x) l).

Lemma occurrences_nil x : occurrences x [] = 0.
Proof. reflexivity. Qed.

Lemma occurrences_cons x y l :
  occurrences x (y :: l) =
  (if decide (y = x) then 1 else 0) + occurrences x l.
Proof.
  unfold occurrences. rewrite filter_cons.
  destruct (decide (y = x)); reflexivity.
Qed.

Lemma occurrences_app x l1 l2 :
  occurrences x (l1 ++ l2) = occurrences x l1 + occurrences x l2.
Proof. unfold occurrences. by rewrite filter_app, length_app. Qed.

Lemma occurrences_not_in x l : x ∉ l → occurrences x l = 0.
Proof.
  induction l as [|y l IH]; intros Hx; [done|].
  rewrite occurrences_cons. apply not_elem_of_cons in Hx as [Hne Hl].
  destruct (decide (y = x)); [congruence|]. by rewrite IH.
Qed.

Lemma occurrences_NoDup x l : NoDup l → x ∈ l → occurrences x l = 1.
Proof.
  induction 1 as [|y l Hy Hnd IH]; intros Hx; [by apply elem_of_nil in Hx|].
  rewrite occurrences_cons. destruct (decide (y = x)) as [->|Hne].
  - by rewrite occurrences_not_in.
  - apply elem_of_cons in Hx as [?|Hx]; [congruence|]. by rewrite IH.
Qed.
End Counting.

(** ** Event relay and room registry (server side) *)

Module Relay.

(** Modelled from the spec: the transient payload [{projectId, kind, body}]
    that [server.js], which is not among the sources, relays. *)
Record DomainEvent := mkEvent {
  projectId : string;
  kind : string;
  body : string
}.

#[global] Instance DomainEvent_eq_dec : EqDecision DomainEvent.
Proof. solve_decision. Defined.

(** Modelled from the spec: the room registry of [server.js], which is not
    among the sources.  A room is keyed by its project id and holds the set
    of connection ids that joined it; a room with no member has no entry. *)
Definition members (reg : gmap string (gset nat)) (r : string) : gset nat :=
  default ∅ (reg !! r).

(** Modelled from the spec: [join(connectionId, projectId)] of the registry
    in [server.js]; adds the connection, creating the room if absent. *)
Definition join (c : nat) (r : string) (reg : gmap string (gset nat))
  : gmap string (gset nat) :=
  <[r := {[c]} ∪ members reg r]> reg.

(** Modelled from the spec: [leave(connectionId, projectId)] of the registry
    in [server.js]; the room entry is deleted when it becomes empty. *)
Definition leave (c : nat) (r : string) (reg : gmap string (gset nat))
  : gmap string (gset nat) :=
  let m := members reg r ∖ {[c]} in
  if decide (m = ∅) then delete r reg else <[r := m]> reg.

(** Modelled from the spec: the event relay of [server.js].  An event from a
    connection that is not a member of the target room is dropped; otherwise
    it is forwarded verbatim to every other current member.  The result
    lists the deliveries made, as (recipient, event) pairs. *)
Definition relay (reg : gmap string (gset nat)) (c : nat) (ev : DomainEvent)
  : list (nat * DomainEvent) :=
  let m := members reg (projectId ev) in
  if decide (c ∈ m) then (λ d, (d, ev)) <$> elements (m ∖ {[c]}) else [].

(** How many times connection [d] is handed event [ev]. *)
Definition received (d : nat) (ev : DomainEvent)
    (out : list (nat * DomainEvent)) : nat :=
  occurrences (d, ev) out.

Lemma received_fmap d ev (l : list nat) :
  received d ev ((λ x, (x, ev)) <$> l) = occurrences d l.
Proof.
  unfold received. induction l as [|x l IH]; [done|].
  rewrite fmap_cons, !occurrences_cons, IH.
  destruct (decide (x = d)) as [->|Hne].
  - by rewrite decide_True.
  - rewrite decide_False; [done|]. intros [=]. done.
Qed.

Lemma members_join_same c r reg : members (join c r reg) r = {[c]} ∪ members reg r.
Proof. unfold join, members at 1. by rewrite lookup_insert_eq. Qed.

Lemma members_join_other c r r' reg :
  r ≠ r' → members (join c r reg) r' = members reg r'.
Proof. intros Hne. unfold join, members at 1. by rewrite lookup_insert_ne. Qed.

(** C1. For every domain event sent by a connection [c] that is a member of
    room [r] (the event's project id): every current member of [r] other
    than [c] receives the event exactly once, [c] itself does not receive
    it, and connections that are not members of [r] receive it zero times.
    Nothing but the event itself is delivered. *)
Theorem relay_exactly_once (reg : gmap string (gset nat)) (c : nat)
    (ev : DomainEvent) :
  c ∈ members reg (projectId ev) →
  (∀ d, d ∈ members reg (projectId ev) → d ≠ c →
        received d ev (relay reg c ev) = 1)
  ∧ received c ev (relay reg c ev) = 0
  ∧ (∀ d, d ∉ members reg (projectId ev) →
        received d ev (relay reg c ev) = 0)
  ∧ (∀ d ev', (d, ev') ∈ relay reg c ev → ev' = ev).
Proof.
  intros Hc. unfold relay. rewrite decide_True by done.
  repeat split.
  - intros d Hd Hne. rewrite received_fmap.
    apply occurrences_NoDup; [apply NoDup_elements|].
    apply elem_of_elements. set_solver.
  - rewrite received_fmap. apply occurrences_not_in.
    rewrite elem_of_elements. set_solver.
  - intros d Hd. rewrite received_fmap. apply occurrences_not_in.
    rewrite elem_of_elements. set_solver.
  - intros d ev' Hin. apply list_elem_of_fmap in Hin as (x & [=] & _). done.
Qed.

Definition room_AB : gmap string (gset nat) :=
  join 2 "proj-2" (join 1 "proj-1" (join 0 "proj-1" ∅)).

Definition task_create : DomainEvent := mkEvent "proj-1" "task:create" "X".

Lemma room_AB_member : 0 ∈ members room_AB (projectId task_create).
Proof.
  unfold room_AB. simpl.
  rewrite members_join_other, !members_join_same by done. set_solver.
Qed.

Lemma relay_exactly_once_witness :
  0 ∈ members room_AB (projectId task_create)
  ∧ received 1 task_create (relay room_AB 0 task_create) = 1
  ∧ received 0 task_create (relay room_AB 0 task_create) = 0
  ∧ received 2 task_create (relay room_AB 0 task_create) = 0.
Proof.
  split; [exact room_AB_member|].
  destruct (relay_exactly_once room_AB 0 task_create room_AB_member)
    as (H1 & H0 & Hout & _).
  split; [|split].
  - apply H1; [|done]. unfold room_AB. simpl.
    rewrite members_join_other, !members_join_same by done. set_solver.
  - exact H0.
  - apply Hout. unfold room_AB. simpl.
    rewrite members_join_other, !members_join_same by done.
    unfold members. rewrite lookup_empty. simpl. set_solver.
Defined.

End Relay.


(** ** Presence list (server side) *)

Module Presence.

(** Modelled from the spec: a live connection as the gateway of [server.js]
    records it. *)
Record Connection := mkConn {
  connId : nat;
  cUserId : string;
  cUserName : string;
  cJoinedAt : string
}.

(** Modelled from the spec: the presence entry of [server.js], a read-only
    projection of a connection shown to users. *)
Record PresenceEntry := mkEntry {
  pUserId : string;
  pUserName : string;
  pJoinedAt : string
}.

Definition entry_of (c : Connection) : PresenceEntry :=
  mkEntry (cUserId c) (cUserName c) (cJoinedAt c).

(** Modelled from the spec: the [users:active] list computed by [server.js],
    which is not among the sources.  It is the list of distinct-by-userId
    presence entries of the room's connections: a connection whose user
    already has an entry adds nothing. *)
Fixpoint usersActive (conns : list Connection) : list PresenceEntry :=
  match conns with
  | [] => []
  | c :: rest =>
      entry_of c ::
      filter (λ e, pUserId e ≠ cUserId c) (usersActive rest)
  end.

(** Number of entries of user [u] in a presence list. *)
Definition entriesOf (u : string) (l : list PresenceEntry) : nat :=
  length (filter (λ e, pUserId e = u) l).

(** Number of simultaneous connections of user [u] in a room. *)
Definition connectionsOf (u : string) (conns : list Connection) : nat :=
  length (filter (λ c, cUserId c = u) conns).

Lemma entriesOf_filter_same u l :
  entriesOf u (filter (λ e, pUserId e ≠ u) l) = 0.
Proof.
  unfold entriesOf. induction l as [|e l IH]; [done|].
  rewrite filter_cons. destruct (decide (pUserId e ≠ u)) as [Hne|Heq]; [|done].
  rewrite filter_cons. destruct (decide (pUserId e = u)); [done|]. exact IH.
Qed.

Lemma entriesOf_filter_other u v l :
  u ≠ v → entriesOf u (filter (λ e, pUserId e ≠ v) l) = entriesOf u l.
Proof.
  intros Huv. unfold entriesOf. induction l as [|e l IH]; [done|].
  rewrite (filter_cons (λ e, pUserId e ≠ v)).
  destruct (decide (pUserId e ≠ v)) as [Hne|Heq].
  - rewrite !filter_cons. destruct (decide (pUserId e = u)); simpl; by rewrite IH.
  - rewrite filter_cons. destruct (decide (pUserId e = u)) as [Hu|]; [|done].
    exfalso. apply Heq. congruence.
Qed.

Lemma entriesOf_absent u conns :
  connectionsOf u conns = 0 → entriesOf u (usersActive conns) = 0.
Proof.
  induction conns as [|c conns IH]; [done|].
  unfold connectionsOf. rewrite filter_cons.
  destruct (decide (cUserId c = u)) as [Heq|Hne]; [done|].
  intros H0. simpl. unfold entriesOf. rewrite filter_cons. simpl.
  destruct (decide (cUserId c = u)); [done|].
  fold (entriesOf u (filter (λ e, pUserId e ≠ cUserId c) (usersActive conns))).
  rewrite entriesOf_filter_other by done. by apply IH.
Qed.

Lemma entriesOf_present u conns :
  (1 ≤ connectionsOf u conns)%nat → entriesOf u (usersActive conns) = 1.
Proof.
  induction conns as [|c conns IH]; [unfold connectionsOf; simpl; lia|].
  unfold connectionsOf. rewrite filter_cons.
  destruct (decide (cUserId c = u)) as [Heq|Hne]; intros Hn; simpl.
  - unfold entriesOf. rewrite filter_cons. simpl.
    rewrite decide_True by done. simpl. f_equal.
    rewrite Heq. apply entriesOf_filter_same.
  - unfold entriesOf. rewrite filter_cons. simpl.
    rewrite decide_False by done.
    fold (entriesOf u (filter (λ e, pUserId e ≠ cUserId c) (usersActive conns))).
    rewrite entriesOf_filter_other by done. by apply IH.
Qed.

Lemma usersActive_ids_NoDup conns : NoDup (pUserId <$> usersActive conns).
Proof.
  induction conns as [|c conns IH]; simpl; [constructor|].
  constructor.
  - intros Hin. apply list_elem_of_fmap in Hin as (e & He & Hin).
    apply list_elem_of_filter in Hin as [Hne _]. simpl in He. congruence.
  - clear -IH. induction (usersActive conns) as [|e l IHl]; [constructor|].
    rewrite fmap_cons in IH. apply NoDup_cons in IH as [Hnot Hnd].
    rewrite filter_cons. destruct (decide (pUserId e ≠ cUserId c)).
    + rewrite fmap_cons. constructor; [|by apply IHl].
      intros Hin. apply Hnot. apply list_elem_of_fmap in Hin as (e' & -> & Hin).
      apply list_elem_of_filter in Hin as [_ Hin].
      apply list_elem_of_fmap. eauto.
    + by apply IHl.
Qed.

End Presence.


(** ** The [useSocket] hook ([src/hooks/use-socket.ts]) *)

Module UseSocket.

(** [interface ActiveUser]. *)
Record ActiveUser := mkUser {
  userId : string;
  userName : string;
  userImage : option string;
  joinedAt : string
}.

#[global] Instance ActiveUser_eq_dec : EqDecision ActiveUser.
Proof. solve_decision. Defined.

(** Calls the hook makes on its collaborators: the helpers of [lib/socket]
    and the socket instance. *)
Inductive Effect :=
| ConnectSocket                (* connectSocket(token) *)
| DisconnectSocket             (* disconnectSocket() *)
| JoinProject (p : string)     (* joinProject(projectId) *)
| LeaveProject (p : string)    (* leaveProject(projectId) *)
| EmitPing                     (* socketInstance.emit("ping") *)
| SocketConnect.               (* socket.connect() *)

#[global] Instance Effect_eq_dec : EqDecision Effect.
Proof. solve_decision. Defined.

(** A live [setInterval] timer of the browser: its id, the milliseconds left
    until its callback runs next, and its period.  The only interval callback
    of the hook is the ping callback. *)
Record Interval := mkInterval {
  iid : nat;
  remaining : nat;
  period : nat
}.

(** The hook instance: its React state, its refs, and the part of the
    environment its handlers read and write. *)
Record Hook := mkHook {
  (* useState *)
  socket : bool;                     (* true: holds the socket, false: null *)
  isConnected : bool;
  isReconnecting : bool;
  activeUsers : list ActiveUser;
  userCount : Z;
  lastPing : option string;
  (* useRef *)
  reconnectTimeoutRef : option nat;
  pingIntervalRef : option nat;
  (* environment *)
  connected : bool;                  (* socketInstance.connected *)
  listening : bool;                  (* the handlers are registered *)
  reconnectPending : bool;           (* the client library has a
                                        reconnection attempt scheduled *)
  intervals : list Interval;         (* live setInterval timers *)
  nextTimer : nat;                   (* next timer id the browser hands out *)
  effects : list Effect              (* calls made so far, oldest first *)
}.

Definition set_socket (v : bool) (h : Hook) : Hook :=
  mkHook v (isConnected h) (isReconnecting h) (activeUsers h) (userCount h)
    (lastPing h) (reconnectTimeoutRef h) (pingIntervalRef h) (connected h)
    (listening h) (reconnectPending h) (intervals h) (nextTimer h) (effects h).

Definition setIsConnected (v : bool) (h : Hook) : Hook :=
  mkHook (socket h) v (isReconnecting h) (activeUsers h) (userCount h)
    (lastPing h) (reconnectTimeoutRef h) (pingIntervalRef h) (connected h)
    (listening h) (reconnectPending h) (intervals h) (nextTimer h) (effects h).

Definition setIsReconnecting (v : bool) (h : Hook) : Hook :=
  mkHook (socket h) (isConnected h) v (activeUsers h) (userCount h)
    (lastPing h) (reconnectTimeoutRef h) (pingIntervalRef h) (connected h)
    (listening h) (reconnectPending h) (intervals h) (nextTimer h) (effects h).

Definition setActiveUsers (v : list ActiveUser) (h : Hook) : Hook :=
  mkHook (socket h) (isConnected h) (isReconnecting h) v (userCount h)
    (lastPing h) (reconnectTimeoutRef h) (pingIntervalRef h) (connected h)
    (listening h) (reconnectPending h) (intervals h) (nextTimer h) (effects h).

Definition setUserCount (v : Z) (h : Hook) : Hook :=
  mkHook (socket h) (isConnected h) (isReconnecting h) (activeUsers h) v
    (lastPing h) (reconnectTimeoutRef h) (pingIntervalRef h) (connected h)
    (listening h) (reconnectPending h) (intervals h) (nextTimer h) (effects h).

Definition setLastPing (v : option string) (h : Hook) : Hook :=
  mkHook (socket h) (isConnected h) (isReconnecting h) (activeUsers h)
    (userCount h) v (reconnectTimeoutRef h) (pingIntervalRef h) (connected h)
    (listening h) (reconnectPending h) (intervals h) (nextTimer h) (effects h).

Definition set_pingIntervalRef (v : option nat) (h : Hook) : Hook :=
  mkHook (socket h) (isConnected h) (isReconnecting h) (activeUsers h)
    (userCount h) (lastPing h) (reconnectTimeoutRef h) v (connected h)
    (listening h) (reconnectPending h) (intervals h) (nextTimer h) (effects h).

Definition set_connected (v : bool) (h : Hook) : Hook :=
  mkHook (socket h) (isConnected h) (isReconnecting h) (activeUsers h)
    (userCount h) (lastPing h) (reconnectTimeoutRef h) (pingIntervalRef h) v
    (listening h) (reconnectPending h) (intervals h) (nextTimer h) (effects h).

Definition set_listening (v : bool) (h : Hook) : Hook :=
  mkHook (socket h) (isConnected h) (isReconnecting h) (activeUsers h)
    (userCount h) (lastPing h) (reconnectTimeoutRef h) (pingIntervalRef h)
    (connected h) v (reconnectPending h) (intervals h) (nextTimer h) (effects h).

Definition set_reconnectPending (v : bool) (h : Hook) : Hook :=
  mkHook (socket h) (isConnected h) (isReconnecting h) (activeUsers h)
    (userCount h) (lastPing h) (reconnectTimeoutRef h) (pingIntervalRef h)
    (connected h) (listening h) v (intervals h) (nextTimer h) (effects h).

Definition set_intervals (v : list Interval) (h : Hook) : Hook :=
  mkHook (socket h) (isConnected h) (isReconnecting h) (activeUsers h)
    (userCount h) (lastPing h) (reconnectTimeoutRef h) (pingIntervalRef h)
    (connected h) (listening h) (reconnectPending h) v (nextTimer h) (effects h).

Definition set_nextTimer (v : nat) (h : Hook) : Hook :=
  mkHook (socket h) (isConnected h) (isReconnecting h) (activeUsers h)
    (userCount h) (lastPing h) (reconnectTimeoutRef h) (pingIntervalRef h)
    (connected h) (listening h) (reconnectPending h) (intervals h) v (effects h).

(** Record one more call on a collaborator. *)
Definition perform (e : Effect) (h : Hook) : Hook :=
  mkHook (socket h) (isConnected h) (isReconnecting h) (activeUsers h)
    (userCount h) (lastPing h) (reconnectTimeoutRef h) (pingIntervalRef h)
    (connected h) (listening h) (reconnectPending h) (intervals h)
    (nextTimer h) (effects h ++ [e]).

(** *** The browser's timers *)

(** [clearInterval(id)] and [clearTimeout(id)]: the timer with that id, if it
    is still live, is removed; an id that is not live is ignored. *)
Definition clearInterval (id : nat) (h : Hook) : Hook :=
  set_intervals (filter (λ t, iid t ≠ id) (intervals h)) h.

Definition clearTimeout (id : nat) (h : Hook) : Hook := clearInterval id h.

(** [setInterval(cb, ms)]: a fresh id is handed out and returned. *)
Definition setInterval (ms : nat) (h : Hook) : nat * Hook :=
  let id := nextTimer h in
  (id, set_nextTimer (S id)
         (set_intervals (intervals h ++ [mkInterval id ms ms]) h)).

(** The heartbeat period, [30000] ms. *)
Definition pingIntervalMs : nat := 30 * 1000.
Arguments pingIntervalMs : simpl never.

(** The interval callback of [onConnect]:
    [if (socketInstance.connected) socketInstance.emit("ping")]. *)
Definition pingCallback (h : Hook) : Hook :=
  if connected h then perform EmitPing h else h.

(** One millisecond passes for one interval. *)
Definition elapse (t : Interval) : Interval :=
  if decide (remaining t ≤ 1)%nat
  then mkInterval (iid t) (period t) (period t)
  else mkInterval (iid t) (remaining t - 1) (period t).

Definition due (t : Interval) : bool := bool_decide (remaining t ≤ 1)%nat.

(** One millisecond passes: every live interval advances, and the callback
    runs once for each interval that has become due. *)
Definition tick (h : Hook) : Hook :=
  let fired := length (filter (λ t, due t = true) (intervals h)) in
  Nat.iter fired pingCallback (set_intervals (elapse <$> intervals h) h).

Section Handlers.

(** [options.projectId], fixed for the lifetime of the connection effect. *)
Variable projectId : option string.

(** The test [if (projectId)]: [undefined] and the empty string are falsy. *)
Definition room : option string :=
  match projectId with
  | Some p => if decide (p = "") then None else Some p
  | None => None
  end.

Definition joinRoom (h : Hook) : Hook :=
  match room with Some p => perform (JoinProject p) h | None => h end.

Definition clearPing (h : Hook) : Hook :=
  match pingIntervalRef h with Some id => clearInterval id h | None => h end.

(** [onConnect], lines 43-62. *)
Definition onConnect (h : Hook) : Hook :=
  let h := setIsConnected true h in
  let h := setIsReconnecting false h in
  let h := joinRoom h in
  let h := clearPing h in
  let '(id, h) := setInterval pingIntervalMs h in
  set_pingIntervalRef (Some id) h.

(** [onDisconnect], lines 64-73; the reason is only logged. *)
Definition onDisconnect (reason : string) (h : Hook) : Hook :=
  let h := setIsConnected false h in
  let h := setIsReconnecting true h in
  clearPing h.

(** [onReconnect], lines 75-83. *)
Definition onReconnect (h : Hook) : Hook :=
  joinRoom (setIsReconnecting false h).

(** [onReconnectAttempt], lines 85-87. *)
Definition onReconnectAttempt (h : Hook) : Hook := setIsReconnecting true h.

(** [onPong], lines 89-91. *)
Definition onPong (timestamp : string) (h : Hook) : Hook :=
  setLastPing (Some timestamp) h.

(** [onUsersActive], lines 93-96. *)
Definition onUsersActive (users : list ActiveUser) (count : Z) (h : Hook)
  : Hook :=
  setUserCount count (setActiveUsers users h).

(** [onUsersCount], lines 98-100. *)
Definition onUsersCount (count : Z) (h : Hook) : Hook := setUserCount count h.

(** [prev.some((u) => u.userId === data.userId)]. *)
Definition hasUser (uid : string) (prev : list ActiveUser) : bool :=
  existsb (λ u, bool_decide (userId u = uid)) prev.

(** [onUserJoined], lines 102-110. *)
Definition onUserJoined (data : ActiveUser) (h : Hook) : Hook :=
  setActiveUsers
    (if hasUser (userId data) (activeUsers h)
     then activeUsers h
     else activeUsers h ++ [data]) h.

(** [onUserLeft], lines 112-114. *)
Definition onUserLeft (uid : string) (h : Hook) : Hook :=
  setActiveUsers (filter (λ u, userId u ≠ uid) (activeUsers h)) h.

(** The body of the connection effect, lines 33-128, for a signed-in user with
    [autoConnect]: the shared socket is obtained, the handlers are registered
    and [isConnected] takes the socket's current status. *)
Definition connectEffect (h : Hook) : Hook :=
  let h := perform ConnectSocket h in
  let h := set_socket true h in
  let h := set_listening true h in
  setIsConnected (connected h) h.

(** The cleanup of the connection effect, lines 130-154. *)
Definition connectCleanup (h : Hook) : Hook :=
  let h := match room with
           | Some p => if connected h then perform (LeaveProject p) h else h
           | None => h
           end in
  let h := clearPing h in
  let h := match reconnectTimeoutRef h with
           | Some id => clearTimeout id h
           | None => h
           end in
  set_listening false h.

(** Modelled from the spec: [disconnectSocket] of [lib/socket.ts], which is
    not among the sources.  An explicit close shuts the single connection and
    cancels any reconnection attempt the client library has scheduled. *)
Definition disconnectSocket (h : Hook) : Hook :=
  set_reconnectPending false (set_connected false (perform DisconnectSocket h)).

(** [disconnect], lines 178-184. *)
Definition disconnect (h : Hook) : Hook :=
  let h := disconnectSocket h in
  let h := set_socket false h in
  let h := setIsConnected false h in
  let h := setActiveUsers [] h in
  setUserCount 0 h.

(** [reconnect], lines 172-176.  The callback is made by [useCallback] with
    the dependency [socket], so it tests the [socket] state of the render
    that created it: [held] tells whether that render held the socket.
    [setSocket] only schedules a render, so a callback obtained before a
    [disconnect()] still holds the socket afterwards.  [socket.connected] is
    read from the socket itself when the callback runs. *)
Definition reconnect (held : bool) (h : Hook) : Hook :=
  if held && negb (connected h) then perform SocketConnect h else h.

End Handlers.

(** *** The hook as a machine *)

(** What can happen to a hook instance: React runs or cleans up the connection
    effect, the socket delivers an event, a millisecond passes, or the
    component calls one of the two returned callbacks; for [reconnect] the
    event tells whether the callback that is called holds the socket. *)
Inductive Event :=
| EvMount
| EvUnmount
| EvConnect
| EvDisconnect (reason : string)
| EvReconnect
| EvReconnectAttempt
| EvPong (timestamp : string)
| EvUsersActive (users : list ActiveUser) (count : Z)
| EvUsersCount (count : Z)
| EvUserJoined (data : ActiveUser)
| EvUserLeft (uid : string)
| EvTick
| EvCallDisconnect
| EvCallReconnect (held : bool).

(** A socket event reaches a handler only while the handler is registered. *)
Definition deliver (f : Hook → Hook) (h : Hook) : Hook :=
  if listening h then f h else h.

(** Modelled from the spec: the socket of [lib/socket.ts], which is not among
    the sources, once a connection is established: it is connected and no
    reconnection attempt is scheduled any more. *)
Definition transportUp (h : Hook) : Hook :=
  set_reconnectPending false (set_connected true h).

(** Modelled from the spec: the socket of [lib/socket.ts] after a transport
    drop: it is not connected and reconnection attempts are scheduled. *)
Definition transportDown (h : Hook) : Hook :=
  set_reconnectPending true (set_connected false h).

(** One event.  The socket updates its own state before it emits [connect]
    or [disconnect]. *)
Definition step (projectId : option string) (e : Event) (h : Hook) : Hook :=
  match e with
  | EvMount => if listening h then h else connectEffect h
  | EvUnmount => if listening h then connectCleanup projectId h else h
  | EvConnect => deliver (onConnect projectId) (transportUp h)
  | EvDisconnect reason => deliver (onDisconnect reason) (transportDown h)
  | EvReconnect => deliver (onReconnect projectId) h
  | EvReconnectAttempt => deliver onReconnectAttempt h
  | EvPong ts => deliver (onPong ts) h
  | EvUsersActive users count => deliver (onUsersActive users count) h
  | EvUsersCount count => deliver (onUsersCount count) h
  | EvUserJoined data => deliver (onUserJoined data) h
  | EvUserLeft uid => deliver (onUserLeft uid) h
  | EvTick => tick h
  | EvCallDisconnect => disconnect h
  | EvCallReconnect held => reconnect held h
  end.

Definition run (projectId : option string) (tr : list Event) (h : Hook)
  : Hook :=
  fold_left (λ h e, step projectId e h) tr h.

(** [n] milliseconds pass with no other event. *)
Definition advance (n : nat) (h : Hook) : Hook := Nat.iter n tick h.

(** The hook before its first render: the [useState] and [useRef] initial
    values, no live timer, a socket that is not connected. *)
Definition init : Hook :=
  mkHook false false false [] 0 None None None false false false [] 1 [].

(** Number of pings emitted so far. *)
Definition pings (h : Hook) : nat := occurrences EmitPing (effects h).

Definition isJoin (e : Effect) : bool :=
  match e with JoinProject _ => true | _ => false end.

(** The joins issued so far, oldest first. *)
Definition joins (h : Hook) : list Effect :=
  filter (λ e, isJoin e = true) (effects h).

(** The user ids of the presence list. *)
Definition userIds (h : Hook) : list string := userId <$> activeUsers h.

(** *** Invariant of the timer bookkeeping *)

(** No reconnection timer is ever stored in [reconnectTimeoutRef], and the
    only timer that can be live is the heartbeat interval held in
    [pingIntervalRef], which exists only while the handlers are registered. *)
Definition timersOwned (h : Hook) : Prop :=
  reconnectTimeoutRef h = None
  ∧ (intervals h = []
     ∨ ∃ i r, intervals h = [mkInterval i r pingIntervalMs]
              ∧ pingIntervalRef h = Some i
              ∧ (1 ≤ r ≤ pingIntervalMs)%nat
              ∧ listening h = true).

Lemma run_app p tr1 tr2 h : run p (tr1 ++ tr2) h = run p tr2 (run p tr1 h).
Proof. unfold run. by rewrite fold_left_app. Qed.

Lemma run_snoc p tr e h : run p (tr ++ [e]) h = step p e (run p tr h).
Proof. by rewrite run_app. Qed.

Lemma advance_S n h : advance (S n) h = advance n (tick h).
Proof. unfold advance. by rewrite Nat.iter_succ_r. Qed.

Lemma pingCallback_intervals h : intervals (pingCallback h) = intervals h.
Proof. unfold pingCallback. by destruct (connected h). Qed.

Lemma pingCallback_fields h :
  reconnectTimeoutRef (pingCallback h) = reconnectTimeoutRef h
  ∧ pingIntervalRef (pingCallback h) = pingIntervalRef h
  ∧ listening (pingCallback h) = listening h
  ∧ connected (pingCallback h) = connected h
  ∧ activeUsers (pingCallback h) = activeUsers h.
Proof. unfold pingCallback. by destruct (connected h) eqn:E. Qed.

Lemma clearPing_owned h :
  timersOwned h →
  intervals (clearPing h) = []
  ∧ reconnectTimeoutRef (clearPing h) = None.
Proof.
  intros [Hr [Hnil | (i & r & Hi & Href & _ & _)]]; unfold clearPing.
  - destruct (pingIntervalRef h); simpl; [|done]. by rewrite Hnil.
  - rewrite Href. simpl. rewrite Hi. split; [|done].
    rewrite filter_cons. simpl. by rewrite decide_False by (intros Hne; done).
Qed.

Lemma timersOwned_init : timersOwned init.
Proof. split; [done|by left]. Qed.

Lemma timersOwned_tick h : timersOwned h → timersOwned (tick h).
Proof.
  intros [Hr Hi]. unfold tick.
  set (h' := set_intervals (elapse <$> intervals h) h).
  assert (Hiter : ∀ n, intervals (Nat.iter n pingCallback h') = intervals h'
            ∧ reconnectTimeoutRef (Nat.iter n pingCallback h') = reconnectTimeoutRef h'
            ∧ pingIntervalRef (Nat.iter n pingCallback h') = pingIntervalRef h'
            ∧ listening (Nat.iter n pingCallback h') = listening h').
  { induction n as [|n IH]; [done|]. simpl.
    rewrite pingCallback_intervals.
    destruct (pingCallback_fields (Nat.iter n pingCallback h')) as (-> & -> & -> & _).
    exact IH. }
  destruct (Hiter (length (filter (λ t, due t = true) (intervals h))))
    as (Ei & Er & Ep & El).
  split; [by rewrite Er|]. rewrite Ei, Ep, El. subst h'. simpl.
  destruct Hi as [-> | (i & r & -> & Href & Hrange & Hl)]; [by left|].
  right. exists i. simpl. unfold elapse. simpl.
  destruct (decide (r ≤ 1)%nat).
  - exists pingIntervalMs. repeat split; try done. unfold pingIntervalMs. lia.
  - exists (r - 1)%nat. repeat split; try done; lia.
Qed.

Lemma timersOwned_step p e h : timersOwned h → timersOwned (step p e h).
Proof.
  intros Hinv. pose proof Hinv as [Hr Hi].
  destruct e; unfold step, deliver, transportUp, transportDown; simpl;
    try (destruct (listening h) eqn:Hl; [|exact Hinv]).
  - (* mount *)
    destruct (listening h) eqn:Hl; [exact Hinv|].
    split; [done|]. left. simpl.
    destruct Hi as [?|(i & r & _ & _ & _ & Hl')]; [done|congruence].
  - (* unmount *)
    unfold connectCleanup.
    set (h1 := match room p with
               | Some q => if connected h then perform (LeaveProject q) h else h
               | None => h end).
    assert (H1 : timersOwned h1).
    { subst h1. destruct (room p); [|done]. by destruct (connected h). }
    destruct (clearPing_owned h1 H1) as [Hc1 Hc2].
    rewrite Hc2. split; [done|]. by left.
  - (* connect *)
    unfold onConnect.
    set (h1 := joinRoom p _).
    assert (H1 : timersOwned h1).
    { subst h1. unfold joinRoom. destruct (room p); exact Hinv. }
    destruct (clearPing_owned h1 H1) as [Hc1 Hc2].
    unfold setInterval. simpl. rewrite Hc1. split; [done|].
    right. eexists _, pingIntervalMs. simpl. repeat split; try done.
    + unfold pingIntervalMs. lia.
    + assert (listening (clearPing h1) = listening h1) as ->.
      { unfold clearPing. by destruct (pingIntervalRef h1). }
      subst h1. unfold joinRoom. by destruct (room p).
  - (* disconnect *)
    unfold onDisconnect.
    set (h1 := setIsReconnecting true _).
    assert (H1 : timersOwned h1) by exact Hinv.
    destruct (clearPing_owned h1 H1) as [Hc1 Hc2].
    split; [done|]. by left.
  - unfold onReconnect, joinRoom. destruct (room p); exact Hinv.
  - exact Hinv.
  - exact Hinv.
  - exact Hinv.
  - exact Hinv.
  - exact Hinv.
  - exact Hinv.
  - by apply timersOwned_tick.
  - (* disconnect() *)
    split; [done|]. simpl.
    destruct Hi as [?|(i & r & ? & ? & ? & ?)]; [by left|right; eauto 10].
  - unfold reconnect. destruct (held && negb (connected h)); exact Hinv.
Qed.

Lemma timersOwned_run p tr h : timersOwned h → timersOwned (run p tr h).
Proof.
  revert h. induction tr as [|e tr IH]; intros h Hinv; [done|].
  simpl. apply IH. by apply timersOwned_step.
Qed.

Lemma timersOwned_reachable p tr : timersOwned (run p tr init).
Proof. apply timersOwned_run, timersOwned_init. Qed.

(** *** Explicit disconnect *)

(** C8. After an explicit user-initiated disconnect the hook's state is
    cleared: the socket handle is null, [isConnected] is false, the presence
    state is emptied ([activeUsers] is the empty list and [userCount] is 0),
    and no scheduled reconnection attempt remains pending: the hook holds no
    reconnection timer and the client library has none scheduled.  This holds
    in every state the hook can reach. *)
Theorem disconnect_clears (p : option string) (tr : list Event) :
  let h := disconnect (run p tr init) in
  socket h = false
  ∧ isConnected h = false
  ∧ activeUsers h = []
  ∧ userCount h = 0%Z
  ∧ reconnectTimeoutRef h = None
  ∧ reconnectPending h = false.
Proof.
  destruct (timersOwned_reachable p tr) as [Hr _].
  simpl. repeat split; try reflexivity. exact Hr.
Qed.

(** *** Presence list of the hook *)

(** A [users:active] payload that lists no user id twice; every other event
    is unconstrained. *)
Definition distinctPayload (e : Event) : Prop :=
  match e with
  | EvUsersActive users _ => NoDup (userId <$> users)
  | _ => True
  end.

Lemma hasUser_spec uid prev :
  hasUser uid prev = true ↔ uid ∈ userId <$> prev.
Proof.
  unfold hasUser. induction prev as [|u prev IH]; simpl.
  - split; [done|]. intros H. by apply elem_of_nil in H.
  - rewrite orb_true_iff, IH, bool_decide_eq_true, elem_of_cons. naive_solver.
Qed.

Lemma onUserJoined_distinct data h :
  NoDup (userIds h) → NoDup (userIds (onUserJoined data h)).
Proof.
  unfold userIds, onUserJoined. simpl. intros Hnd.
  destruct (hasUser (userId data) (activeUsers h)) eqn:Hhas; [done|].
  rewrite fmap_app. simpl. apply NoDup_app. split; [done|].
  split; [|apply NoDup_singleton].
  intros x Hx Hx'. apply list_elem_of_singleton in Hx' as ->.
  apply hasUser_spec in Hx. congruence.
Qed.

Lemma onUserLeft_distinct uid h :
  NoDup (userIds h) → NoDup (userIds (onUserLeft uid h)).
Proof.
  unfold userIds, onUserLeft. simpl.
  induction (activeUsers h) as [|u l IH]; [done|].
  rewrite fmap_cons. intros [Hnot Hnd]%NoDup_cons.
  rewrite filter_cons. destruct (decide (userId u ≠ uid)); [|by apply IH].
  rewrite fmap_cons. constructor; [|by apply IH].
  intros Hin. apply Hnot. apply list_elem_of_fmap in Hin as (u' & -> & Hin).
  apply list_elem_of_filter in Hin as [_ Hin]. apply list_elem_of_fmap. eauto.
Qed.

Lemma tick_activeUsers h : activeUsers (tick h) = activeUsers h.
Proof.
  unfold tick. generalize (length (filter (λ t, due t = true) (intervals h))).
  induction n as [|n IH]; [done|]. simpl.
  destruct (pingCallback_fields (Nat.iter n pingCallback
    (set_intervals (elapse <$> intervals h) h))) as (_ & _ & _ & _ & ->).
  exact IH.
Qed.

Lemma step_distinct p e h :
  distinctPayload e → NoDup (userIds h) → NoDup (userIds (step p e h)).
Proof.
  intros He Hnd. destruct e; unfold step, deliver, transportUp, transportDown; simpl;
    try (destruct (listening h); exact Hnd).
  - unfold connectCleanup. destruct (listening h); [|exact Hnd].
    unfold userIds. simpl.
    assert (∀ h', activeUsers (clearPing h') = activeUsers h') as Hc.
    { intros h'. unfold clearPing. by destruct (pingIntervalRef h'). }
    destruct (reconnectTimeoutRef _); simpl; rewrite Hc;
      destruct (room p); try done; by destruct (connected h).
  - destruct (listening h); [|exact Hnd]. unfold onConnect, userIds.
    simpl. unfold clearPing, joinRoom.
    destruct (room p); simpl; by destruct (pingIntervalRef h).
  - destruct (listening h); [|exact Hnd]. unfold onDisconnect, userIds.
    unfold clearPing. simpl. by destruct (pingIntervalRef h).
  - destruct (listening h); [|exact Hnd]. unfold onReconnect, joinRoom.
    by destruct (room p).
  - destruct (listening h); [|exact Hnd]. exact He.
  - destruct (listening h); [|exact Hnd]. by apply onUserJoined_distinct.
  - destruct (listening h); [|exact Hnd]. by apply onUserLeft_distinct.
  - unfold userIds. by rewrite tick_activeUsers.
  - constructor.
  - unfold reconnect. by destruct (held && negb (connected h)).
Qed.

Lemma run_distinct p tr h :
  Forall distinctPayload tr → NoDup (userIds h) → NoDup (userIds (run p tr h)).
Proof.
  revert h. induction tr as [|e tr IH]; intros h Hall Hnd; [done|].
  apply Forall_cons in Hall as [He Hall]. simpl.
  apply IH; [done|]. by apply step_distinct.
Qed.

(** The server's presence entry as the hook receives it. *)
Definition ofPresence (e : Presence.PresenceEntry) : ActiveUser :=
  mkUser (Presence.pUserId e) (Presence.pUserName e) None (Presence.pJoinedAt e).

Lemma usersActive_distinctPayload conns count :
  distinctPayload (EvUsersActive (ofPresence <$> Presence.usersActive conns) count).
Proof.
  simpl. rewrite <- list_fmap_compose.
  assert (userId ∘ ofPresence = Presence.pUserId) as -> by done.
  apply Presence.usersActive_ids_NoDup.
Qed.

(** A [users:active] event as the server sends it: its payload carries, in
    order, the entries of the server's presence list of some set of
    connections.  Every other event is unconstrained. *)
Definition fromServer (e : Event) : Prop :=
  match e with
  | EvUsersActive users _ =>
      ∃ conns, userId <$> users
               = Presence.pUserId <$> Presence.usersActive conns
  | _ => True
  end.

Lemma fromServer_distinct e : fromServer e → distinctPayload e.
Proof.
  destruct e; try done. intros [conns Hc]. simpl. rewrite Hc.
  apply Presence.usersActive_ids_NoDup.
Qed.

(** C3. A user with N >= 1 simultaneous connections to a room has exactly
    one entry in the [users:active] list, and after any sequence of
    [user:joined], [user:left] and [users:active] events processed by the
    hook (with whatever else happens to it in between), the [users:active]
    payloads being lists the server sends, no two entries of [activeUsers]
    share a user id. *)
Theorem presence_one_entry_per_user
    (conns : list Presence.Connection) (u : string)
    (p : option string) (tr : list Event) :
  (1 ≤ Presence.connectionsOf u conns)%nat →
  Forall fromServer tr →
  Presence.entriesOf u (Presence.usersActive conns) = 1%nat
  ∧ NoDup (userIds (run p tr init)).
Proof.
  intros Hn Htr. split.
  - by apply Presence.entriesOf_present.
  - apply run_distinct; [|constructor].
    eapply Forall_impl; [exact Htr|]. apply fromServer_distinct.
Qed.

Definition alice_tab1 : Presence.Connection := Presence.mkConn 1 "alice" "Alice" "09:00".
Definition alice_tab2 : Presence.Connection := Presence.mkConn 2 "alice" "Alice" "09:05".
Definition bob_tab : Presence.Connection := Presence.mkConn 3 "bob" "Bob" "09:07".

Definition alice : ActiveUser := mkUser "alice" "Alice" None "09:00".
Definition alice_again : ActiveUser := mkUser "alice" "Alice" None "09:05".
Definition bob : ActiveUser := mkUser "bob" "Bob" None "09:07".

(** Alice has two tabs open and Bob one; the hook receives the server's
    list, then deltas. *)
Definition presence_trace : list Event :=
  [EvMount; EvConnect;
   EvUsersActive
     (ofPresence <$> Presence.usersActive [alice_tab1; bob_tab; alice_tab2]) 2;
   EvUserJoined alice_again; EvUserLeft "bob"; EvUserJoined bob].

Lemma presence_one_entry_per_user_witness :
  (1 ≤ Presence.connectionsOf "alice" [alice_tab1; bob_tab; alice_tab2])%nat
  ∧ Forall fromServer presence_trace
  ∧ Presence.entriesOf "alice"
      (Presence.usersActive [alice_tab1; bob_tab; alice_tab2]) = 1%nat
  ∧ NoDup (userIds (run (Some "proj-1") presence_trace init)).
Proof.
  assert (H1 : (1 ≤ Presence.connectionsOf "alice"
                      [alice_tab1; bob_tab; alice_tab2])%nat)
    by (vm_compute; lia).
  assert (H2 : Forall fromServer presence_trace).
  { repeat constructor. exists [alice_tab1; bob_tab; alice_tab2].
    by rewrite <- list_fmap_compose. }
  split; [exact H1|]. split; [exact H2|].
  exact (presence_one_entry_per_user [alice_tab1; bob_tab; alice_tab2] "alice"
           (Some "proj-1") presence_trace H1 H2).
Defined.

(** *** Joins issued on connection and reconnection *)

(** The events on which the hook issues a join: [connect] and [reconnect]. *)
Definition isRejoinSignal (e : Event) : bool :=
  match e with EvConnect | EvReconnect => true | _ => false end.

Definition rejoinSignals (tr : list Event) : nat :=
  length (filter (λ e, isRejoinSignal e = true) tr).

(** The joins the hook issues for [n] such events: [n] joins of the remembered
    project id, none when no project id is remembered. *)
Definition rejoins (p : option string) (n : nat) : list Effect :=
  match room p with
  | Some q => replicate n (JoinProject q)
  | None => []
  end.

Lemma joins_perform e h :
  joins (perform e h) = joins h ++ (if isJoin e then [e] else []).
Proof.
  unfold joins. simpl. rewrite filter_app. f_equal.
  rewrite filter_cons, filter_nil. by destruct (isJoin e).
Qed.

Lemma rejoins_S p n : rejoins p (S n) = rejoins p 1 ++ rejoins p n.
Proof. unfold rejoins. by destruct (room p). Qed.

Lemma joins_joinRoom p h : joins (joinRoom p h) = joins h ++ rejoins p 1.
Proof.
  unfold joinRoom, rejoins. destruct (room p); simpl.
  - by rewrite joins_perform.
  - by rewrite app_nil_r.
Qed.

Lemma tick_effects_joins h : joins (tick h) = joins h ∧ listening (tick h) = listening h.
Proof.
  unfold tick. generalize (length (filter (λ t, due t = true) (intervals h))).
  induction n as [|n [IH1 IH2]]; [done|]. simpl.
  destruct (pingCallback_fields (Nat.iter n pingCallback
    (set_intervals (elapse <$> intervals h) h))) as (_ & _ & -> & _ & _).
  split; [|done]. unfold pingCallback at 1.
  destruct (connected _); [|done]. by rewrite joins_perform, app_nil_r.
Qed.

Lemma step_joins p e h :
  listening h = true → e ≠ EvUnmount →
  joins (step p e h) = joins h ++ rejoins p (if isRejoinSignal e then 1 else 0)
  ∧ listening (step p e h) = true.
Proof.
  intros Hl Hne.
  assert (Hz : rejoins p 0 = []) by (unfold rejoins; by destruct (room p)).
  destruct e; unfold step, deliver, transportUp, transportDown; simpl; rewrite ?Hl, ?Hz, ?app_nil_r;
    try done.
  - unfold onConnect. simpl. split.
    + unfold joins. simpl.
      assert (∀ h', effects (clearPing h') = effects h') as ->.
      { intros h'. unfold clearPing. by destruct (pingIntervalRef h'). }
      pose proof (joins_joinRoom p
        (setIsReconnecting false (setIsConnected true
          (set_reconnectPending false (set_connected true h))))) as Hj.
      unfold joins in Hj. simpl in Hj. exact Hj.
    + assert (∀ h', listening (clearPing h') = listening h') as ->.
      { intros h'. unfold clearPing. by destruct (pingIntervalRef h'). }
      unfold joinRoom. by destruct (room p).
  - unfold onDisconnect, clearPing. simpl. by destruct (pingIntervalRef h).
  - unfold onReconnect. rewrite joins_joinRoom. split; [done|].
    unfold joinRoom. by destruct (room p).
  - destruct (tick_effects_joins h) as [-> ->]. done.
  - split; [|done]. unfold joins. simpl. rewrite filter_app.
    by rewrite filter_cons, filter_nil, app_nil_r.
  - unfold reconnect. destruct (held && negb (connected h)); [|done].
    by rewrite joins_perform, app_nil_r.
Qed.

Lemma rejoins_add p n m : rejoins p (n + m) = rejoins p n ++ rejoins p m.
Proof. unfold rejoins. destruct (room p); [|done]. by rewrite replicate_add. Qed.

Lemma run_joins p tr h :
  listening h = true → Forall (λ e, e ≠ EvUnmount) tr →
  joins (run p tr h) = joins h ++ rejoins p (rejoinSignals tr).
Proof.
  revert h. induction tr as [|e tr IH]; intros h Hl Hall.
  - unfold rejoins. simpl. destruct (room p); by rewrite app_nil_r.
  - apply Forall_cons in Hall as [He Hall]. simpl.
    destruct (step_joins p e h Hl He) as [Hj Hl'].
    rewrite IH, Hj by done. rewrite <- app_assoc. f_equal.
    unfold rejoinSignals. rewrite filter_cons.
    destruct (isRejoinSignal e); simpl.
    + by rewrite (rejoins_S p (length _)).
    + unfold rejoins at 1. by destruct (room p).
Qed.

(** The events a [Socket] delivers.  The sources use the client library in
    its interface from version 3 on (the named import of [Socket] at line 4,
    the token handed to [connectSocket], [ping] emitted as an ordinary
    event); there [reconnect] and [reconnect_attempt] are events of the
    socket's manager and are not emitted on the socket, so the two handlers
    registered at lines 119-120 are never called, and a reconnection is
    signalled to the hook by [connect] alone. *)
Definition socketDelivers (e : Event) : bool :=
  match e with
  | EvReconnect | EvReconnectAttempt => false
  | _ => true
  end.

(** What may happen between a transport drop and the reconnection: anything
    the socket delivers but [connect], and anything the hook or its
    component does but cleaning up the connection effect. *)
Definition whileDown (e : Event) : Prop :=
  socketDelivers e = true ∧ e ≠ EvConnect ∧ e ≠ EvUnmount.

Lemma rejoinSignals_whileDown tr : Forall whileDown tr → rejoinSignals tr = 0.
Proof.
  induction 1 as [|e tr (Hd & Hc & _) _ IH]; [done|].
  unfold rejoinSignals in *. rewrite filter_cons.
  destruct e; try done.
Qed.

(** C4. In any state the mounted hook can reach, after a transport drop
    followed by a successful reconnect the hook has re-issued the join of
    the remembered project id exactly once, and no other join: none is
    issued while the connection is down, and the [connect] event of the
    reconnection issues one join, for the room of [projectId] (none when no
    project id is remembered). *)
Theorem rejoin_after_drop (p : option string) (tr between : list Event)
    (reason : string) :
  listening (run p tr init) = true →
  Forall whileDown between →
  joins (run p (EvDisconnect reason :: between) (run p tr init))
    = joins (run p tr init)
  ∧ joins (run p (EvDisconnect reason :: between ++ [EvConnect])
             (run p tr init))
    = joins (run p tr init)
      ++ match room p with Some q => [JoinProject q] | None => [] end.
Proof.
  intros Hl Hall.
  assert (Hkeep : ∀ t, Forall (λ e, e ≠ EvUnmount) t →
            Forall (λ e, e ≠ EvUnmount) (EvDisconnect reason :: between ++ t)).
  { intros t Ht. constructor; [done|]. apply Forall_app. split; [|done].
    eapply Forall_impl; [exact Hall|]. by intros e (_ & _ & ?). }
  assert (Hcnt : ∀ t, rejoinSignals (EvDisconnect reason :: between ++ t)
                      = rejoinSignals t).
  { intros t. unfold rejoinSignals. rewrite filter_cons.
    cbn [isRejoinSignal]. rewrite decide_False by done.
    rewrite filter_app, length_app.
    fold (rejoinSignals between). fold (rejoinSignals t).
    by rewrite rejoinSignals_whileDown. }
  split.
  - rewrite <- (app_nil_r between).
    rewrite (run_joins p (EvDisconnect reason :: between ++ [])); [|done|].
    + rewrite Hcnt. unfold rejoins, rejoinSignals. cbn.
      destruct (room p); by rewrite app_nil_r.
    + apply Hkeep. constructor.
  - rewrite (run_joins p (EvDisconnect reason :: between ++ [EvConnect]));
      [|done|].
    + rewrite Hcnt. unfold rejoins, rejoinSignals. cbn.
      by destruct (room p).
    + apply Hkeep. by repeat constructor.
Qed.

Definition proj1 : option string := Some "proj-1".

(** The hook mounts and the socket connects; later the transport drops and,
    after some time during which the component asks for a reconnection, the
    socket connects again. *)
Definition firstConnection : list Event := [EvMount; EvConnect].

Definition whileReconnecting : list Event :=
  [EvTick; EvCallReconnect true; EvTick].

Lemma rejoin_after_drop_witness :
  listening (run proj1 firstConnection init) = true
  ∧ Forall whileDown whileReconnecting
  ∧ joins (run proj1 firstConnection init) = [JoinProject "proj-1"]
  ∧ joins (run proj1 (EvDisconnect "transport close"
                        :: whileReconnecting ++ [EvConnect])
             (run proj1 firstConnection init))
    = [JoinProject "proj-1"; JoinProject "proj-1"].
Proof.
  assert (H1 : listening (run proj1 firstConnection init) = true)
    by reflexivity.
  assert (H2 : Forall whileDown whileReconnecting)
    by (repeat constructor; discriminate).
  split; [exact H1|]. split; [exact H2|]. split; [reflexivity|].
  exact (proj2 (rejoin_after_drop proj1 firstConnection whileReconnecting
                  "transport close" H1 H2)).
Defined.

(** *** Heartbeat *)

Lemma pings_perform e h :
  pings (perform e h) = pings h + (if decide (e = EmitPing) then 1 else 0).
Proof.
  unfold pings. simpl. rewrite occurrences_app, occurrences_cons, occurrences_nil.
  destruct (decide (e = EmitPing)); lia.
Qed.

Lemma tick_idle h :
  intervals h = [] → tick h = h.
Proof.
  intros Hi. unfold tick. rewrite Hi. simpl. destruct h. simpl in *. by subst.
Qed.

Lemma tick_single h i r :
  intervals h = [mkInterval i r pingIntervalMs] → connected h = true →
  intervals (tick h) = [elapse (mkInterval i r pingIntervalMs)]
  ∧ connected (tick h) = true
  ∧ pings (tick h) = pings h + (if decide (r ≤ 1) then 1 else 0).
Proof.
  intros Hi Hc. unfold tick. rewrite Hi. simpl.
  rewrite filter_cons, filter_nil. unfold due. simpl.
  destruct (decide (r ≤ 1)) as [Hle|Hgt].
  - rewrite ?bool_decide_eq_true_2 by done. simpl.
    unfold pingCallback. simpl. rewrite Hc. simpl.
    split; [done|]. split; [done|].
    pose proof (pings_perform EmitPing (set_intervals
      [elapse (mkInterval i r pingIntervalMs)] h)) as Hp.
    rewrite decide_True in Hp by done. exact Hp.
  - rewrite ?bool_decide_eq_false_2 by done. simpl.
    split; [done|]. split; [done|]. unfold pings. simpl. lia.
Qed.

Lemma pings_advance n : ∀ h i r,
  intervals h = [mkInterval i r pingIntervalMs] →
  1 ≤ r ≤ pingIntervalMs → connected h = true →
  pings (advance n h) = pings h + (n + (pingIntervalMs - r)) / pingIntervalMs.
Proof.
  assert (HP : pingIntervalMs ≠ 0) by (unfold pingIntervalMs; lia).
  induction n as [|n IH]; intros h i r Hi Hr Hc.
  - change (advance 0 h) with h.
    rewrite Nat.add_0_l, Nat.div_small by lia. lia.
  - rewrite advance_S.
    destruct (tick_single h i r Hi Hc) as (Hi' & Hc' & Hp').
    unfold elapse in Hi'. simpl in Hi'.
    destruct (decide (r ≤ 1)) as [Hle|Hgt].
    + rewrite (IH (tick h) i pingIntervalMs Hi') by (done || lia).
      rewrite Hp'. assert (r = 1) as -> by lia.
      replace (S n + (pingIntervalMs - 1)) with (n + 1 * pingIntervalMs) by lia.
      rewrite Nat.div_add by done. rewrite Nat.sub_diag, Nat.add_0_r. lia.
    + rewrite (IH (tick h) i (r - 1) Hi') by (done || lia).
      rewrite Hp'.
      replace (n + (pingIntervalMs - (r - 1))) with (S n + (pingIntervalMs - r))
        by lia.
      lia.
Qed.

Lemma step_quiet p e h :
  intervals h = [] → e ≠ EvConnect →
  intervals (step p e h) = [] ∧ pings (step p e h) = pings h.
Proof.
  intros Hi Hne.
  assert (Hclear : ∀ h', intervals h' = [] →
            intervals (clearPing h') = [] ∧ pings (clearPing h') = pings h').
  { intros h' Hi'. unfold clearPing. destruct (pingIntervalRef h'); [|done].
    simpl. by rewrite Hi'. }
  destruct e; unfold step, deliver, transportUp, transportDown; simpl; try done;
    try (destruct (listening h); done).
  - destruct (listening h); [done|]. split; [done|].
    unfold connectEffect. simpl.
    pose proof (pings_perform ConnectSocket h) as Hp.
    rewrite decide_False in Hp by done. rewrite Nat.add_0_r in Hp. exact Hp.
  - destruct (listening h); [|done]. unfold connectCleanup.
    set (h1 := match room p with
               | Some q => if connected h then perform (LeaveProject q) h else h
               | None => h end).
    assert (H1 : intervals h1 = [] ∧ pings h1 = pings h).
    { subst h1. destruct (room p); [|done]. destruct (connected h); [|done].
      split; [done|]. rewrite pings_perform, decide_False by done. lia. }
    destruct H1 as [H1 H2]. destruct (Hclear h1 H1) as [H3 H4].
    destruct (reconnectTimeoutRef (clearPing h1)); simpl; rewrite ?H3;
      split; try done; unfold pings in *; simpl; congruence.
  - destruct (listening h); [|done]. unfold onDisconnect.
    apply (Hclear (setIsReconnecting true (setIsConnected false
             (set_reconnectPending true (set_connected false h))))). done.
  - destruct (listening h); [|done]. unfold onReconnect, joinRoom.
    destruct (room p); [|done]. split; [done|].
    rewrite pings_perform, decide_False by done. unfold pings. simpl. lia.
  - by rewrite tick_idle.
  - split; [done|]. unfold disconnect, disconnectSocket.
    pose proof (pings_perform DisconnectSocket h) as Hp.
    rewrite decide_False in Hp by done. rewrite Nat.add_0_r in Hp. exact Hp.
  - unfold reconnect. destruct (held && negb (connected h)); [|done].
    split; [done|]. rewrite pings_perform, decide_False by done. lia.
Qed.

Lemma run_quiet p tr h :
  intervals h = [] → Forall (λ e, e ≠ EvConnect) tr →
  intervals (run p tr h) = [] ∧ pings (run p tr h) = pings h.
Proof.
  revert h. induction tr as [|e tr IH]; intros h Hi Hall; [done|].
  apply Forall_cons in Hall as [He Hall]. simpl.
  destruct (step_quiet p e h Hi He) as [Hi' Hp'].
  destruct (IH (step p e h) Hi' Hall) as [Hi'' Hp'']. split; congruence.
Qed.

Lemma onConnect_arms p h :
  timersOwned h →
  ∃ i, intervals (onConnect p h) = [mkInterval i pingIntervalMs pingIntervalMs].
Proof.
  intros Hinv. unfold onConnect.
  set (h1 := joinRoom p _).
  assert (H1 : timersOwned h1).
  { subst h1. unfold joinRoom. destruct (room p); exact Hinv. }
  destruct (clearPing_owned h1 H1) as [Hc1 _].
  unfold setInterval. simpl. rewrite Hc1. eauto.
Qed.

Lemma step_connect_listening p h :
  listening h = true →
  step p EvConnect h
  = onConnect p (set_reconnectPending false (set_connected true h)).
Proof.
  intros Hl. unfold step, deliver, transportUp, transportDown.
  cbn [listening set_reconnectPending set_connected]. by rewrite Hl.
Qed.

Lemma step_disconnect_listening p reason h :
  listening h = true →
  step p (EvDisconnect reason) h
  = onDisconnect reason (set_reconnectPending true (set_connected false h)).
Proof.
  intros Hl. unfold step, deliver, transportUp, transportDown.
  cbn [listening set_reconnectPending set_connected]. by rewrite Hl.
Qed.

Lemma onConnect_connected p h : connected (onConnect p h) = connected h.
Proof.
  unfold onConnect, setInterval, clearPing, joinRoom. simpl.
  destruct (room p); simpl; by destruct (pingIntervalRef h).
Qed.

(** The heartbeat from a [connect] event on.  In any state the mounted hook
    can reach: once a [connect] event reaches the handlers, a ping is emitted
    every 30 seconds ([n] milliseconds after the event, [n / 30000] pings
    have been emitted); on a transport disconnect the heartbeat interval is
    cancelled, so whatever happens next, no ping is emitted before the next
    [connect] event; and on unmount no timer of the hook is left pending. *)
Theorem heartbeat (p : option string) (tr tr' : list Event) (n : nat)
    (reason : string) :
  listening (run p tr init) = true →
  Forall (λ e, e ≠ EvConnect) tr' →
  pings (advance n (step p EvConnect (run p tr init)))
    = pings (step p EvConnect (run p tr init)) + n / pingIntervalMs
  ∧ intervals (step p (EvDisconnect reason) (run p tr init)) = []
  ∧ pings (run p tr' (step p (EvDisconnect reason) (run p tr init)))
    = pings (run p tr init)
  ∧ intervals (step p EvUnmount (run p tr init)) = [].
Proof.
  intros Hl Hquiet.
  pose proof (timersOwned_reachable p tr) as Hinv.
  set (h := run p tr init) in *. clearbody h.
  split; [|split; [|split]].
  - rewrite step_connect_listening by done.
    set (h0 := set_reconnectPending false (set_connected true h)).
    destruct (onConnect_arms p h0 Hinv) as [i Hi].
    rewrite (pings_advance n _ i pingIntervalMs Hi).
    + by rewrite Nat.sub_diag, Nat.add_0_r.
    + unfold pingIntervalMs. lia.
    + by rewrite onConnect_connected.
  - rewrite step_disconnect_listening by done. unfold onDisconnect.
    apply (clearPing_owned (setIsReconnecting true (setIsConnected false
             (set_reconnectPending true (set_connected false h)))) Hinv).
  - assert (Hd : intervals (step p (EvDisconnect reason) h) = []
                 ∧ pings (step p (EvDisconnect reason) h) = pings h).
    { rewrite step_disconnect_listening by done. unfold onDisconnect.
      split.
      - apply (clearPing_owned (setIsReconnecting true (setIsConnected false
             (set_reconnectPending true (set_connected false h)))) Hinv).
      - unfold clearPing. simpl. by destruct (pingIntervalRef h). }
    destruct Hd as [Hd1 Hd2].
    destruct (run_quiet p tr' _ Hd1 Hquiet) as [_ ->]. exact Hd2.
  - unfold step. rewrite Hl. unfold connectCleanup.
    set (h1 := match room p with
               | Some q => if connected h then perform (LeaveProject q) h else h
               | None => h end).
    assert (H1 : timersOwned h1).
    { subst h1. destruct (room p); [|done]. by destruct (connected h). }
    destruct (clearPing_owned h1 H1) as [Hc1 Hc2].
    rewrite Hc2. simpl. exact Hc1.
Qed.

Lemma advance_idle n h : intervals h = [] → advance n h = h.
Proof.
  intros Hi. induction n as [|n IH]; [done|].
  rewrite advance_S, tick_idle by done. exact IH.
Qed.

(** The connection effect runs on a connected socket: the hook was mounted
    and the socket connected, then React cleaned the effect up and ran it
    again (its dependencies [session] or [projectId] changed) while the
    socket stayed connected. *)
Definition remounted : list Event := [EvMount; EvConnect; EvUnmount; EvMount].

(** C7. The heartbeat is started by [onConnect] only and stopped by the
    cleanup of the effect.  After the effect has run again on the socket
    that is still connected, the hook is set up and reports the connection
    ([isConnected] is taken from the socket, line 128), but no interval is
    live, and however much time passes no ping is emitted. *)
Theorem heartbeat_lost_on_remount (n : nat) :
  connected (run proj1 remounted init) = true
  ∧ listening (run proj1 remounted init) = true
  ∧ isConnected (run proj1 remounted init) = true
  ∧ intervals (run proj1 remounted init) = []
  ∧ pings (advance n (run proj1 remounted init)) = 0.
Proof.
  assert (Hi : intervals (run proj1 remounted init) = []) by reflexivity.
  split; [reflexivity|]. split; [reflexivity|]. split; [reflexivity|].
  split; [exact Hi|]. by rewrite advance_idle.
Qed.

Lemma heartbeat_witness :
  listening (run proj1 [EvMount] init) = true
  ∧ Forall (λ e, e ≠ EvConnect) [EvTick; EvReconnectAttempt; EvTick]
  ∧ pings (advance (2 * pingIntervalMs + 5)
             (step proj1 EvConnect (run proj1 [EvMount] init)))
    = pings (step proj1 EvConnect (run proj1 [EvMount] init))
      + (2 * pingIntervalMs + 5) / pingIntervalMs
  ∧ intervals (step proj1 (EvDisconnect "transport close") (run proj1 [EvMount] init)) = []
  ∧ pings (run proj1 [EvTick; EvReconnectAttempt; EvTick]
             (step proj1 (EvDisconnect "transport close") (run proj1 [EvMount] init)))
    = pings (run proj1 [EvMount] init)
  ∧ intervals (step proj1 EvUnmount (run proj1 [EvMount] init)) = [].
Proof.
  split; [reflexivity|].
  split; [repeat constructor; discriminate|].
  apply (heartbeat proj1 [EvMount] [EvTick; EvReconnectAttempt; EvTick]).
  - reflexivity.
  - repeat constructor; discriminate.
Defined.

(** *** Further properties of the hook *)

(** **** Presence deltas *)

Lemma setActiveUsers_same h : setActiveUsers (activeUsers h) h = h.
Proof. by destruct h. Qed.

Lemma filter_userId_absent uid (l : list ActiveUser) :
  uid ∉ userId <$> l → filter (λ u, userId u ≠ uid) l = l.
Proof.
  induction l as [|u l IH]; intros Hnot; [done|].
  rewrite fmap_cons in Hnot. apply not_elem_of_cons in Hnot as [Hne Hnot].
  rewrite filter_cons, decide_True by done. by rewrite IH.
Qed.

Lemma userIds_filter uid (l : list ActiveUser) :
  userId <$> filter (λ u, userId u ≠ uid) l
  = filter (λ x, x ≠ uid) (userId <$> l).
Proof.
  induction l as [|u l IH]; [done|].
  rewrite fmap_cons, !filter_cons.
  destruct (decide (userId u ≠ uid)); [rewrite fmap_cons|]; by rewrite IH.
Qed.

Lemma occurrences_filter_ne (v uid : string) (l : list string) :
  v ≠ uid → occurrences v (filter (λ x, x ≠ uid) l) = occurrences v l.
Proof.
  intros Hne. induction l as [|x l IH]; [done|].
  rewrite filter_cons, (occurrences_cons v x l).
  destruct (decide (x ≠ uid)) as [Hx|Hx].
  - by rewrite occurrences_cons, IH.
  - rewrite IH. destruct (decide (x = v)) as [->|]; [|done].
    exfalso. by apply Hx.
Qed.

(** X7. A [user:joined] for a user that is not in the presence list,
    followed by the [user:left] of that user, leaves the hook exactly as it
    was: the entry is appended and then removed, and nothing else moves,
    [userCount] included. *)
Theorem user_left_undoes_joined (data : ActiveUser) (h : Hook) :
  userId data ∉ userIds h →
  onUserLeft (userId data) (onUserJoined data h) = h.
Proof.
  intros Hnot. unfold onUserLeft, onUserJoined.
  destruct (hasUser (userId data) (activeUsers h)) eqn:E.
  { apply hasUser_spec in E. done. }
  cbn [activeUsers setActiveUsers].
  rewrite filter_app, filter_userId_absent by done.
  rewrite filter_cons, decide_False by (intros H; by apply H).
  rewrite filter_nil, app_nil_r. by destruct h.
Qed.

(** X8. While the handlers are registered, a [user:left] removes every
    entry of that user from the presence list, also when a [users:active]
    payload had listed the user more than once, and it removes nothing else:
    every other user id occurs as often as before. *)
Theorem user_left_removes_every_entry (p : option string) (uid : string)
    (h : Hook) :
  listening h = true →
  uid ∉ userIds (step p (EvUserLeft uid) h)
  ∧ ∀ v, v ≠ uid →
      occurrences v (userIds (step p (EvUserLeft uid) h))
      = occurrences v (userIds h).
Proof.
  intros Hl. unfold step, deliver. rewrite Hl.
  unfold userIds, onUserLeft. cbn [activeUsers setActiveUsers].
  rewrite userIds_filter. split.
  - intros Hin. apply list_elem_of_filter in Hin as [Hne _]. by apply Hne.
  - intros v Hv. by apply occurrences_filter_ne.
Qed.

(** X9. A second [user:joined] for a user id is ignored altogether, even
    when its name, image or join time differ from the first: the entry that
    arrived first stays. *)
Theorem user_joined_first_wins (d d' : ActiveUser) (h : Hook) :
  userId d' = userId d →
  onUserJoined d' (onUserJoined d h) = onUserJoined d h.
Proof.
  intros Hid.
  assert (Hin : hasUser (userId d') (activeUsers (onUserJoined d h)) = true).
  { apply hasUser_spec. rewrite Hid. unfold onUserJoined.
    cbn [activeUsers setActiveUsers].
    destruct (hasUser (userId d) (activeUsers h)) eqn:E.
    - by apply hasUser_spec.
    - rewrite fmap_app. apply elem_of_app. right. by left. }
  unfold onUserJoined at 1. rewrite Hin. apply setActiveUsers_same.
Qed.

(** **** The heartbeat guard *)

Lemma pingCallback_down h : connected h = false → pingCallback h = h.
Proof. intros Hc. unfold pingCallback. by rewrite Hc. Qed.

Lemma tick_down h :
  connected h = false →
  effects (tick h) = effects h ∧ connected (tick h) = false.
Proof.
  intros Hc. unfold tick.
  set (h' := set_intervals (elapse <$> intervals h) h).
  assert (Hit : ∀ n, Nat.iter n pingCallback h' = h').
  { induction n as [|n IH]; [done|]. cbn [Nat.iter nat_rect].
    change (nat_rect _ h' (λ _, pingCallback) n)
      with (Nat.iter n pingCallback h').
    rewrite IH. by apply pingCallback_down. }
  rewrite Hit. done.
Qed.

(** X10. While the socket reports that it is not connected, the heartbeat
    callback emits nothing: however many intervals are live and however much
    time passes, the hook makes no call at all. *)
Theorem no_ping_while_down (n : nat) (h : Hook) :
  connected h = false →
  effects (advance n h) = effects h ∧ connected (advance n h) = false.
Proof.
  revert h. induction n as [|n IH]; intros h Hc; [done|].
  rewrite advance_S. destruct (tick_down h Hc) as [He Hc'].
  destruct (IH (tick h) Hc') as [-> ->]. done.
Qed.

(** X11. In every state the hook can reach, at most one heartbeat interval
    is live, and it is the one [pingIntervalRef] holds: repeated [connect]
    events never stack intervals, and none outlives the registration of the
    handlers. *)
Theorem one_heartbeat_interval (p : option string) (tr : list Event) :
  length (intervals (run p tr init)) ≤ 1
  ∧ ∀ t, t ∈ intervals (run p tr init) →
      pingIntervalRef (run p tr init) = Some (iid t)
      ∧ period t = pingIntervalMs
      ∧ 1 ≤ remaining t ≤ pingIntervalMs
      ∧ listening (run p tr init) = true.
Proof.
  destruct (timersOwned_reachable p tr)
    as [_ [Hnil | (i & r & Hi & Href & Hr & Hl)]].
  - rewrite Hnil. split; [simpl; lia|]. intros t Ht. by apply elem_of_nil in Ht.
  - rewrite Hi. split; [simpl; lia|]. intros t Ht.
    apply list_elem_of_singleton in Ht as ->. done.
Qed.

(** **** Rooms *)

Definition isRoomCall (e : Effect) : bool :=
  match e with JoinProject _ | LeaveProject _ => true | _ => false end.

(** The [joinProject] and [leaveProject] calls made so far, oldest first. *)
Definition roomCalls (h : Hook) : list Effect :=
  filter (λ e, isRoomCall e = true) (effects h).

(** A call on the room of the hook's own project. *)
Definition ownRoom (p : option string) (e : Effect) : Prop :=
  ∃ q, room p = Some q ∧ (e = JoinProject q ∨ e = LeaveProject q).

Lemma roomCalls_perform e h :
  roomCalls (perform e h)
  = roomCalls h ++ (if isRoomCall e then [e] else []).
Proof.
  unfold roomCalls. cbn [effects perform]. rewrite filter_app, filter_cons.
  destruct (isRoomCall e); [rewrite decide_True by done|rewrite decide_False by done];
    by rewrite filter_nil.
Qed.

Lemma roomCalls_clearPing h : roomCalls (clearPing h) = roomCalls h.
Proof. unfold clearPing. by destruct (pingIntervalRef h). Qed.

Lemma roomCalls_tick h : roomCalls (tick h) = roomCalls h.
Proof.
  unfold tick. generalize (length (filter (λ t, due t = true) (intervals h))).
  induction n as [|n IH]; [done|]. cbn [Nat.iter nat_rect].
  change (nat_rect _ _ (λ _, pingCallback) n)
    with (Nat.iter n pingCallback (set_intervals (elapse <$> intervals h) h)).
  unfold pingCallback at 1. destruct (connected _); [|exact IH].
  rewrite roomCalls_perform. cbn [isRoomCall]. by rewrite app_nil_r.
Qed.

Lemma ownRoom_joinRoom p h :
  Forall (ownRoom p) (roomCalls h) → Forall (ownRoom p) (roomCalls (joinRoom p h)).
Proof.
  intros H. unfold joinRoom. destruct (room p) as [q|] eqn:E; [|done].
  rewrite roomCalls_perform. cbn [isRoomCall]. apply Forall_app. split; [done|].
  constructor; [|constructor]. exists q. split; [done|by left].
Qed.

Lemma ownRoom_step p e h :
  Forall (ownRoom p) (roomCalls h) → Forall (ownRoom p) (roomCalls (step p e h)).
Proof.
  intros H.
  destruct e; unfold step, deliver, transportUp, transportDown;
    cbn [listening set_reconnectPending set_connected];
    try (destruct (listening h); exact H).
  - destruct (listening h); [done|]. unfold connectEffect.
    change (Forall (ownRoom p) (roomCalls (perform ConnectSocket h))).
    rewrite roomCalls_perform.
    cbn [isRoomCall]. by rewrite app_nil_r.
  - destruct (listening h); [|done]. unfold connectCleanup.
    set (h1 := match room p with
               | Some q => if connected h then perform (LeaveProject q) h else h
               | None => h end).
    assert (H1 : Forall (ownRoom p) (roomCalls h1)).
    { subst h1. destruct (room p) as [q|] eqn:E; [|done].
      destruct (connected h); [|done].
      rewrite roomCalls_perform. cbn [isRoomCall]. apply Forall_app.
      split; [done|]. constructor; [|constructor].
      exists q. split; [done|by right]. }
    assert (H2 : roomCalls (clearPing h1) = roomCalls h1)
      by apply roomCalls_clearPing.
    destruct (reconnectTimeoutRef (clearPing h1));
      change (Forall (ownRoom p) (roomCalls (clearPing h1))); by rewrite H2.
  - destruct (listening h); [|done]. unfold onConnect, setInterval.
    set (h1 := joinRoom p _).
    change (Forall (ownRoom p) (roomCalls (clearPing h1))).
    rewrite roomCalls_clearPing. subst h1. by apply ownRoom_joinRoom.
  - destruct (listening h); [|done]. unfold onDisconnect.
    by rewrite roomCalls_clearPing.
  - destruct (listening h); [|done]. unfold onReconnect.
    by apply ownRoom_joinRoom.
  - by rewrite roomCalls_tick.
  - unfold disconnect, disconnectSocket.
    change (Forall (ownRoom p) (roomCalls (perform DisconnectSocket h))).
    rewrite roomCalls_perform. cbn [isRoomCall]. by rewrite app_nil_r.
  - unfold reconnect. destruct (held && negb (connected h)); [|done].
    rewrite roomCalls_perform. cbn [isRoomCall]. by rewrite app_nil_r.
Qed.

(** X12. Whatever happens, every [joinProject] and [leaveProject] call the
    connection effect makes is for the room of its own [projectId]; with no
    project id, or with the empty string, it never joins or leaves any
    room. *)
Theorem only_own_room (p : option string) (tr : list Event) :
  Forall (ownRoom p) (roomCalls (run p tr init))
  ∧ (room p = None → roomCalls (run p tr init) = []).
Proof.
  assert (H : Forall (ownRoom p) (roomCalls (run p tr init))).
  { induction tr as [|e tr IH] using rev_ind; [constructor|].
    rewrite run_snoc. by apply ownRoom_step. }
  split; [exact H|]. intros Hnone.
  destruct (roomCalls (run p tr init)) as [|e l]; [done|].
  apply Forall_cons in H as [(q & Hq & _) _]. congruence.
Qed.

(** **** After the cleanup *)

(** What the hook hands to its component, lines 186-195, without the two
    callbacks. *)
Definition returned (h : Hook)
  : bool * bool * bool * list ActiveUser * Z * option string :=
  (socket h, isConnected h, isReconnecting h, activeUsers h, userCount h,
   lastPing h).

(** Socket events and the passing of time: everything but the effect's own
    set-up and cleanup and the two callbacks. *)
Definition passive (e : Event) : bool :=
  match e with
  | EvMount | EvUnmount | EvCallDisconnect | EvCallReconnect _ => false
  | _ => true
  end.

Definition detached (h : Hook) : Prop :=
  listening h = false ∧ intervals h = [].

Lemma detached_step p e h :
  passive e = true → detached h →
  detached (step p e h)
  ∧ returned (step p e h) = returned h
  ∧ effects (step p e h) = effects h.
Proof.
  intros He [Hl Hi].
  destruct e; try discriminate He; unfold step, deliver, transportUp,
    transportDown; cbn [listening set_reconnectPending set_connected];
    rewrite ?Hl; try done.
  rewrite (tick_idle h Hi). done.
Qed.

Lemma detached_run p tr : ∀ h,
  Forall (λ e, passive e = true) tr → detached h →
  returned (run p tr h) = returned h ∧ effects (run p tr h) = effects h.
Proof.
  induction tr as [|e tr IH]; intros h Hall Hd; [done|].
  apply Forall_cons in Hall as [He Hall].
  destruct (detached_step p e h He Hd) as (Hd' & Hr & Hf).
  change (run p (e :: tr) h) with (run p tr (step p e h)).
  destruct (IH (step p e h) Hall Hd') as [-> ->]. done.
Qed.

Lemma detached_unmount p h : timersOwned h → detached (step p EvUnmount h).
Proof.
  intros Hinv. unfold step. destruct (listening h) eqn:Hl.
  - unfold connectCleanup.
    set (h1 := match room p with
               | Some q => if connected h then perform (LeaveProject q) h else h
               | None => h end).
    assert (H1 : timersOwned h1).
    { subst h1. destruct (room p); [|done]. by destruct (connected h). }
    destruct (clearPing_owned h1 H1) as [Hc1 Hc2].
    rewrite Hc2. split; [done|]. exact Hc1.
  - split; [done|].
    destruct Hinv as [_ [?|(i & r & _ & _ & _ & Hl')]]; [done|congruence].
Qed.

(** X13. Once the connection effect has been cleaned up, the hook is deaf:
    whatever socket events arrive afterwards and however much time passes,
    the values it returns stay as the cleanup left them, and it makes no
    further call (no join, no ping, no reconnect). *)
Theorem cleanup_detaches (p : option string) (tr tr' : list Event) :
  Forall (λ e, passive e = true) tr' →
  returned (run p tr' (step p EvUnmount (run p tr init)))
    = returned (step p EvUnmount (run p tr init))
  ∧ effects (run p tr' (step p EvUnmount (run p tr init)))
    = effects (step p EvUnmount (run p tr init)).
Proof.
  intros Hall. apply detached_run; [done|].
  apply detached_unmount, timersOwned_reachable.
Qed.

(** Concrete runs for the properties above. *)

Definition carol : ActiveUser := mkUser "carol" "Carol" None "09:10".
Definition carol_renamed : ActiveUser := mkUser "carol" "C." None "09:30".

(** A mounted, connected hook whose server sent a presence list that names
    alice twice. *)
Definition doubledPresence : list Event :=
  [EvMount; EvConnect; EvUsersActive [alice; alice_again; bob] 2].

Lemma user_left_undoes_joined_witness :
  "carol" ∉ userIds (run proj1 doubledPresence init)
  ∧ onUserLeft "carol" (onUserJoined carol (run proj1 doubledPresence init))
    = run proj1 doubledPresence init.
Proof.
  assert (H : "carol" ∉ userIds (run proj1 doubledPresence init)).
  { vm_compute. set_solver. }
  split; [exact H|].
  exact (user_left_undoes_joined carol (run proj1 doubledPresence init) H).
Defined.

Lemma user_left_removes_every_entry_witness :
  listening (run proj1 doubledPresence init) = true
  ∧ "alice" ∉ userIds (step proj1 (EvUserLeft "alice")
                         (run proj1 doubledPresence init))
  ∧ occurrences "bob" (userIds (step proj1 (EvUserLeft "alice")
                                  (run proj1 doubledPresence init)))
    = occurrences "bob" (userIds (run proj1 doubledPresence init)).
Proof.
  assert (H : listening (run proj1 doubledPresence init) = true)
    by reflexivity.
  split; [exact H|].
  destruct (user_left_removes_every_entry proj1 "alice"
              (run proj1 doubledPresence init) H) as [H1 H2].
  split; [exact H1|]. apply H2. discriminate.
Defined.

Lemma user_joined_first_wins_witness :
  onUserJoined carol_renamed
    (onUserJoined carol (run proj1 doubledPresence init))
  = onUserJoined carol (run proj1 doubledPresence init).
Proof.
  apply (user_joined_first_wins carol carol_renamed). reflexivity.
Defined.

Lemma no_ping_while_down_witness :
  connected (step proj1 (EvDisconnect "transport close")
               (run proj1 doubledPresence init)) = false
  ∧ effects (advance 100 (step proj1 (EvDisconnect "transport close")
                            (run proj1 doubledPresence init)))
    = effects (step proj1 (EvDisconnect "transport close")
                 (run proj1 doubledPresence init)).
Proof.
  split; [reflexivity|].
  apply (no_ping_while_down 100). reflexivity.
Defined.

Lemma cleanup_detaches_witness :
  Forall (λ e, passive e = true) [EvConnect; EvUserJoined carol; EvTick]
  ∧ returned (run proj1 [EvConnect; EvUserJoined carol; EvTick]
                (step proj1 EvUnmount (run proj1 doubledPresence init)))
    = returned (step proj1 EvUnmount (run proj1 doubledPresence init))
  ∧ effects (run proj1 [EvConnect; EvUserJoined carol; EvTick]
               (step proj1 EvUnmount (run proj1 doubledPresence init)))
    = effects (step proj1 EvUnmount (run proj1 doubledPresence init)).
Proof.
  assert (H : Forall (λ e, passive e = true)
                [EvConnect; EvUserJoined carol; EvTick])
    by (repeat constructor).
  split; [exact H|].
  exact (cleanup_detaches proj1 doubledPresence
           [EvConnect; EvUserJoined carol; EvTick] H).
Defined.

End UseSocket.


(** ** The collaborative canvas ([src/unnamed/part_000]) *)

Module Canvas.

(** A record of the canvas document: its id and its content. *)
Record TLRecord := mkRecord {
  rid : string;
  rbody : string
}.

#[global] Instance TLRecord_eq_dec : EqDecision TLRecord.
Proof. solve_decision. Defined.

(** A JavaScript object whose values are records, as its entries in
    enumeration order; [Object.keys(o).length] is the length of the list. *)
Definition RecordMap : Type := list (string * TLRecord).

(** The [updated] part of a diff: each id with its [from, to] pair. *)
Definition UpdateMap : Type := list (string * (TLRecord * TLRecord)).

(** [entry.changes] of a store listener call. *)
Record Changes := mkChanges {
  added : RecordMap;
  updated : UpdateMap;
  removed : RecordMap
}.

#[global] Instance Changes_eq_dec : EqDecision Changes.
Proof. solve_decision. Defined.

(** The payload [data] of an incoming [canvas:update]; each part may be
    missing. *)
Record UpdateData := mkData {
  dAdded : option RecordMap;
  dUpdated : option UpdateMap;
  dRemoved : option RecordMap
}.

Record Point := mkPoint { px : Z; py : Z }.

#[global] Instance Point_eq_dec : EqDecision Point.
Proof. solve_decision. Defined.

(** What the component sends on the socket. *)
Inductive Emit :=
| CanvasUpdate (projectId : string) (changes : Changes)
| CanvasCursor (projectId : string) (position : Point)
| JoinProject (projectId : string)
| LeaveProject (projectId : string).

#[global] Instance Emit_eq_dec : EqDecision Emit.
Proof. solve_decision. Defined.

(** The callbacks the component hands to [setTimeout]. *)
Inductive TimerAction :=
| RunSave             (* () => { saveCanvasState(); }, line 105 *)
| ClearRemoteFlag     (* () => { isRemoteUpdateRef.current = false; }, line 161 *)
| BroadcastCursor.    (* broadcastCursor, line 198 *)

#[global] Instance TimerAction_eq_dec : EqDecision TimerAction.
Proof. solve_decision. Defined.

(** A live [setTimeout] timer of the browser: its id, the milliseconds left
    until its callback runs, and the callback. *)
Record Timer := mkTimer {
  tid : nat;
  remaining : nat;
  action : TimerAction
}.

#[global] Instance Timer_eq_dec : EqDecision Timer.
Proof. solve_decision. Defined.

(** The component instance: the editor and its store, the refs, the effect
    local [cursorTimeout], and the part of the environment the handlers act
    on. *)
Record State := mkState {
  editor : option (gmap string TLRecord); (* null until onMount; else the
                                             records of editor.store *)
  currentPagePoint : option Point;        (* editor.inputs.currentPagePoint *)
  active : bool;                          (* the effects are set up *)
  isSavingRef : bool;
  isRemoteUpdateRef : bool;
  saveTimeoutRef : option nat;
  cursorTimeout : option nat;
  (* environment *)
  timers : list Timer;                    (* live setTimeout timers *)
  nextTimer : nat;                        (* next timer id handed out *)
  emitted : list Emit;                    (* socket.emit calls, oldest first *)
  requests : list (gmap string TLRecord); (* stores POSTed, oldest first *)
  inFlight : nat                          (* POSTs not yet settled *)
}.

Definition set_editor (v : option (gmap string TLRecord)) (s : State) : State :=
  mkState v (currentPagePoint s) (active s) (isSavingRef s)
    (isRemoteUpdateRef s) (saveTimeoutRef s) (cursorTimeout s) (timers s)
    (nextTimer s) (emitted s) (requests s) (inFlight s).

Definition set_currentPagePoint (v : option Point) (s : State) : State :=
  mkState (editor s) v (active s) (isSavingRef s)
    (isRemoteUpdateRef s) (saveTimeoutRef s) (cursorTimeout s) (timers s)
    (nextTimer s) (emitted s) (requests s) (inFlight s).

Definition set_active (v : bool) (s : State) : State :=
  mkState (editor s) (currentPagePoint s) v (isSavingRef s)
    (isRemoteUpdateRef s) (saveTimeoutRef s) (cursorTimeout s) (timers s)
    (nextTimer s) (emitted s) (requests s) (inFlight s).

Definition set_isSavingRef (v : bool) (s : State) : State :=
  mkState (editor s) (currentPagePoint s) (active s) v
    (isRemoteUpdateRef s) (saveTimeoutRef s) (cursorTimeout s) (timers s)
    (nextTimer s) (emitted s) (requests s) (inFlight s).

Definition set_isRemoteUpdateRef (v : bool) (s : State) : State :=
  mkState (editor s) (currentPagePoint s) (active s) (isSavingRef s)
    v (saveTimeoutRef s) (cursorTimeout s) (timers s)
    (nextTimer s) (emitted s) (requests s) (inFlight s).

Definition set_saveTimeoutRef (v : option nat) (s : State) : State :=
  mkState (editor s) (currentPagePoint s) (active s) (isSavingRef s)
    (isRemoteUpdateRef s) v (cursorTimeout s) (timers s)
    (nextTimer s) (emitted s) (requests s) (inFlight s).

Definition set_cursorTimeout (v : option nat) (s : State) : State :=
  mkState (editor s) (currentPagePoint s) (active s) (isSavingRef s)
    (isRemoteUpdateRef s) (saveTimeoutRef s) v (timers s)
    (nextTimer s) (emitted s) (requests s) (inFlight s).

Definition set_timers (v : list Timer) (s : State) : State :=
  mkState (editor s) (currentPagePoint s) (active s) (isSavingRef s)
    (isRemoteUpdateRef s) (saveTimeoutRef s) (cursorTimeout s) v
    (nextTimer s) (emitted s) (requests s) (inFlight s).

Definition set_nextTimer (v : nat) (s : State) : State :=
  mkState (editor s) (currentPagePoint s) (active s) (isSavingRef s)
    (isRemoteUpdateRef s) (saveTimeoutRef s) (cursorTimeout s) (timers s)
    v (emitted s) (requests s) (inFlight s).

Definition set_requests (v : list (gmap string TLRecord)) (s : State) : State :=
  mkState (editor s) (currentPagePoint s) (active s) (isSavingRef s)
    (isRemoteUpdateRef s) (saveTimeoutRef s) (cursorTimeout s) (timers s)
    (nextTimer s) (emitted s) v (inFlight s).

Definition set_inFlight (v : nat) (s : State) : State :=
  mkState (editor s) (currentPagePoint s) (active s) (isSavingRef s)
    (isRemoteUpdateRef s) (saveTimeoutRef s) (cursorTimeout s) (timers s)
    (nextTimer s) (emitted s) (requests s) v.

(** [socket.emit(...)]. *)
Definition emit (e : Emit) (s : State) : State :=
  mkState (editor s) (currentPagePoint s) (active s) (isSavingRef s)
    (isRemoteUpdateRef s) (saveTimeoutRef s) (cursorTimeout s) (timers s)
    (nextTimer s) (emitted s ++ [e]) (requests s) (inFlight s).

(** *** The browser's timers *)

(** [setTimeout(cb, ms)]: a fresh id is handed out and returned. *)
Definition setTimeout (a : TimerAction) (ms : nat) (s : State) : nat * State :=
  let id := nextTimer s in
  (id, set_nextTimer (S id) (set_timers (timers s ++ [mkTimer id ms a]) s)).

(** [clearTimeout(id)]: the timer with that id, if it is still live, is
    removed; an id that is not live is ignored. *)
Definition clearTimeout (id : nat) (s : State) : State :=
  set_timers (filter (λ t, tid t ≠ id) (timers s)) s.

(** The debounce windows and the echo delay of the component, in ms. *)
Definition saveDelayMs : nat := 3 * 1000.
Definition cursorDelayMs : nat := 100.
Definition remoteFlagDelayMs : nat := 100.
Arguments saveDelayMs : simpl never.
Arguments cursorDelayMs : simpl never.
Arguments remoteFlagDelayMs : simpl never.

(** *** The store *)

(** [editor.store.put([record])]. *)
Definition put (r : TLRecord) (st : gmap string TLRecord) : gmap string TLRecord :=
  <[rid r := r]> st.

(** [editor.store.remove([id])]. *)
Definition remove (id : string) (st : gmap string TLRecord) : gmap string TLRecord :=
  delete id st.

(** The body of the [mergeRemoteChanges] callback, lines 136-155. *)
Definition applyRemote (data : UpdateData) (st : gmap string TLRecord)
  : gmap string TLRecord :=
  let st := match dAdded data with
            | Some a => fold_left (λ st kv, put kv.2 st) a st
            | None => st
            end in
  let st := match dUpdated data with
            | Some u => fold_left (λ st kv, put kv.2.2 st) u st
            | None => st
            end in
  match dRemoved data with
  | Some r => fold_left (λ st kv, remove kv.1 st) r st
  | None => st
  end.

(** The store after a user edit described by the diff [c]. *)
Definition applyLocal (c : Changes) (st : gmap string TLRecord)
  : gmap string TLRecord :=
  applyRemote (mkData (Some (added c)) (Some (updated c)) (Some (removed c))) st.

(** [editor.store.allRecords()]. *)
Definition allRecords (st : gmap string TLRecord) : list TLRecord :=
  (map_to_list st).*2.

(** [Object.fromEntries(allRecords.map(r => [r.id, r]))], lines 57-59. *)
Definition snapshot (st : gmap string TLRecord) : gmap string TLRecord :=
  fold_left (λ o r, <[rid r := r]> o) (allRecords st) ∅.

(** The test of lines 88-90 on the three parts of a diff. *)
Definition hasChanges (c : Changes) : bool :=
  (0 <? length (added c)) || (0 <? length (updated c))
  || (0 <? length (removed c)).

Section Handlers.

(** The [projectId] prop. *)
Variable projectId : string.

(** [saveCanvasState], lines 51-73.  The request is issued and
    [isSavingRef] stays set until the request settles. *)
Definition saveCanvasState (s : State) : State :=
  match editor s with
  | None => s
  | Some st =>
      if isSavingRef s then s
      else
        let s := set_isSavingRef true s in
        let s := set_requests (requests s ++ [snapshot st]) s in
        set_inFlight (S (inFlight s)) s
  end.

(** The request of [saveCanvasState] settles and its [finally] block runs,
    lines 70-72. *)
Definition saveSettled (s : State) : State :=
  match inFlight s with
  | O => s
  | S n => set_isSavingRef false (set_inFlight n s)
  end.

(** [handleChange], lines 79-109. *)
Definition handleChange (changes : Changes) (s : State) : State :=
  if isRemoteUpdateRef s then s
  else if hasChanges changes then
    let s := emit (CanvasUpdate projectId changes) s in
    let s := match saveTimeoutRef s with
             | Some id => clearTimeout id s
             | None => s
             end in
    let '(id, s) := setTimeout RunSave saveDelayMs s in
    set_saveTimeoutRef (Some id) s
  else s.

(** [handleCanvasUpdate], lines 129-165.  [notified] lists the change
    notifications the store hands to its listener while the remote changes
    are being applied. *)
Definition handleCanvasUpdate (data : UpdateData) (notified : list Changes)
    (s : State) : State :=
  let s := set_isRemoteUpdateRef true s in
  let s := set_editor (applyRemote data <$> editor s) s in
  let s := fold_left (λ s c, handleChange c s) notified s in
  (setTimeout ClearRemoteFlag remoteFlagDelayMs s).2.

(** [broadcastCursor], lines 180-191. *)
Definition broadcastCursor (s : State) : State :=
  match currentPagePoint s with
  | Some pt => emit (CanvasCursor projectId pt) s
  | None => s
  end.

(** [handlePointerMove], lines 194-199. *)
Definition handlePointerMove (s : State) : State :=
  let s := match cursorTimeout s with
           | Some id => clearTimeout id s
           | None => s
           end in
  let '(id, s) := setTimeout BroadcastCursor cursorDelayMs s in
  set_cursorTimeout (Some id) s.

(** A timer callback runs. *)
Definition fire (a : TimerAction) (s : State) : State :=
  match a with
  | RunSave => saveCanvasState s
  | ClearRemoteFlag => set_isRemoteUpdateRef false s
  | BroadcastCursor => broadcastCursor s
  end.

(** One millisecond passes for one timer. *)
Definition elapse (t : Timer) : Timer :=
  mkTimer (tid t) (remaining t - 1) (action t).

(** One millisecond passes: every live timer advances; those that reach zero
    leave the table and their callbacks run, oldest timer first. *)
Definition tick (s : State) : State :=
  let ts := elapse <$> timers s in
  fold_left (λ s t, fire (action t) s)
    (filter (λ t, remaining t = 0) ts)
    (set_timers (filter (λ t, remaining t ≠ 0) ts) s).

(** [onMount] and the effects that follow it, lines 76-223, with the socket
    connected: the listeners are set up and the room is joined. *)
Definition editorMounted (st : gmap string TLRecord) (s : State) : State :=
  let s := set_editor (Some st) s in
  let s := set_cursorTimeout None s in
  let s := set_active true s in
  emit (JoinProject projectId) s.

(** The cleanups of the effects, lines 117-122, 169-171, 204-209, 218-222. *)
Definition cleanup (s : State) : State :=
  let s := match saveTimeoutRef s with
           | Some id => clearTimeout id s
           | None => s
           end in
  let s := match cursorTimeout s with
           | Some id => clearTimeout id s
           | None => s
           end in
  let s := set_active false s in
  let s := emit (LeaveProject projectId) s in
  saveCanvasState s.

(** *** The component as a machine *)

Inductive Event :=
| EvEditorMount (st : gmap string TLRecord)
| EvUnmount
| EvLocalChange (changes : Changes)      (* a user edit of the document *)
| EvStoreNotify (changes : Changes)      (* the store calls its listener *)
| EvCanvasUpdate (data : UpdateData) (notified : list Changes)
| EvPointerMove (pt : Point)
| EvSaveSettled
| EvTick.

(** One event.  The handlers run only while the effects are set up.  A user
    edit changes the store and the store then calls its listener; a pointer
    move is recorded by the editor before the component's listener runs. *)
Definition step (e : Event) (s : State) : State :=
  match e with
  | EvEditorMount st =>
      if active s then s else editorMounted st s
  | EvUnmount => if active s then cleanup s else s
  | EvLocalChange c =>
      if active s
      then handleChange c (set_editor (applyLocal c <$> editor s) s)
      else s
  | EvStoreNotify c => if active s then handleChange c s else s
  | EvCanvasUpdate data notified =>
      if active s then handleCanvasUpdate data notified s else s
  | EvPointerMove pt =>
      if active s
      then handlePointerMove (set_currentPagePoint (Some pt) s)
      else s
  | EvSaveSettled => saveSettled s
  | EvTick => tick s
  end.

Definition run (tr : list Event) (s : State) : State :=
  fold_left (λ s e, step e s) tr s.

(** [n] milliseconds pass with no other event. *)
Definition advance (n : nat) (s : State) : State := Nat.iter n tick s.

End Handlers.

(** The component before the editor is mounted. *)
Definition init : State :=
  mkState None None false false false None None [] 1 [] [] 0.

(** *** Timer callbacks touch disjoint parts of the state *)

Section Properties.

Variable projectId : string.

Local Abbreviation fire := (Canvas.fire projectId).
Local Abbreviation tick := (Canvas.tick projectId).
Local Abbreviation advance := (Canvas.advance projectId).
Local Abbreviation step := (Canvas.step projectId).
Local Abbreviation run := (Canvas.run projectId).
Local Abbreviation handleChange := (Canvas.handleChange projectId).
Local Abbreviation handleCanvasUpdate := (Canvas.handleCanvasUpdate projectId).
Local Abbreviation broadcastCursor := (Canvas.broadcastCursor projectId).

(** The callbacks of a list of timers run, oldest first. *)
Definition fireAll (ts : list Timer) (s : State) : State :=
  fold_left (λ s t, fire (action t) s) ts s.

(** The timers of one kind. *)
Definition ofKind (k : TimerAction) (l : list Timer) : list Timer :=
  filter (λ t, action t = k) l.

(** The timers whose callbacks run during the next millisecond, and those
    that stay. *)
Definition dueNow (s : State) : list Timer :=
  filter (λ t, remaining t = 0) (elapse <$> timers s).

Definition stillLive (s : State) : list Timer :=
  filter (λ t, remaining t ≠ 0) (elapse <$> timers s).

Lemma tick_unfold s : tick s = fireAll (dueNow s) (set_timers (stillLive s) s).
Proof. reflexivity. Qed.

Lemma advance_succ n s : advance (S n) s = advance n (tick s).
Proof. unfold Canvas.advance. by rewrite Nat.iter_succ_r. Qed.

Lemma advance_add n m s : advance (n + m) s = advance m (advance n s).
Proof.
  revert s. induction n as [|n IH]; intros s; [done|].
  change (S n + m) with (S (n + m)). by rewrite !advance_succ, IH.
Qed.

Lemma run_concat tr1 tr2 s : run (tr1 ++ tr2) s = run tr2 (run tr1 s).
Proof. unfold Canvas.run. by rewrite fold_left_app. Qed.

Lemma run_ticks n s : run (replicate n EvTick) s = advance n s.
Proof.
  revert s. induction n as [|n IH]; intros s; [done|].
  rewrite advance_succ. simpl. by rewrite IH.
Qed.

(** What a timer callback leaves alone. *)
Definition sameFrame (s s' : State) : Prop :=
  timers s' = timers s
  ∧ nextTimer s' = nextTimer s
  ∧ saveTimeoutRef s' = saveTimeoutRef s
  ∧ cursorTimeout s' = cursorTimeout s
  ∧ active s' = active s
  ∧ editor s' = editor s
  ∧ currentPagePoint s' = currentPagePoint s.

Lemma sameFrame_refl s : sameFrame s s.
Proof. by repeat split. Qed.

Lemma sameFrame_trans s1 s2 s3 :
  sameFrame s1 s2 → sameFrame s2 s3 → sameFrame s1 s3.
Proof.
  intros (?&?&?&?&?&?&?) (?&?&?&?&?&?&?). repeat split; congruence.
Qed.

Lemma saveCanvasState_frame s : sameFrame s (saveCanvasState s).
Proof.
  unfold Canvas.saveCanvasState. destruct (editor s) eqn:He;
    [destruct (isSavingRef s)|]; repeat split; simpl; done.
Qed.

Lemma fire_frame a s : sameFrame s (fire a s).
Proof.
  destruct a; simpl.
  - apply saveCanvasState_frame.
  - by repeat split.
  - unfold Canvas.broadcastCursor. destruct (currentPagePoint s) eqn:E;
      by repeat split.
Qed.

Lemma fireAll_frame ts s : sameFrame s (fireAll ts s).
Proof.
  revert s. induction ts as [|t ts IH]; intros s; [apply sameFrame_refl|].
  simpl. eapply sameFrame_trans; [apply fire_frame|apply IH].
Qed.

Lemma tick_timers s : timers (tick s) = stillLive s.
Proof.
  rewrite tick_unfold.
  destruct (fireAll_frame (dueNow s) (set_timers (stillLive s) s)) as (-> & _).
  done.
Qed.

Lemma tick_frame s :
  nextTimer (tick s) = nextTimer s
  ∧ saveTimeoutRef (tick s) = saveTimeoutRef s
  ∧ cursorTimeout (tick s) = cursorTimeout s
  ∧ active (tick s) = active s
  ∧ editor (tick s) = editor s
  ∧ currentPagePoint (tick s) = currentPagePoint s.
Proof.
  rewrite tick_unfold.
  destruct (fireAll_frame (dueNow s) (set_timers (stillLive s) s))
    as (_ & -> & -> & -> & -> & -> & ->).
  done.
Qed.

(** **** The save callback *)

(** The part of the state [saveCanvasState] reads and writes. *)
Definition saveView (s : State)
  : option (gmap string TLRecord) * bool * list (gmap string TLRecord) * nat :=
  (editor s, isSavingRef s, requests s, inFlight s).

Definition saveStep
    (v : option (gmap string TLRecord) * bool * list (gmap string TLRecord) * nat)
  : option (gmap string TLRecord) * bool * list (gmap string TLRecord) * nat :=
  match v with
  | (Some st, false, reqs, n) => (Some st, true, reqs ++ [snapshot st], S n)
  | _ => v
  end.

Lemma saveView_saveCanvasState s :
  saveView (saveCanvasState s) = saveStep (saveView s).
Proof.
  unfold Canvas.saveCanvasState, saveView, saveStep.
  destruct (editor s) eqn:He; [|by rewrite He].
  destruct (isSavingRef s) eqn:Hs; simpl; by rewrite ?He, ?Hs.
Qed.

Lemma saveView_fire a s :
  saveView (fire a s) = if decide (a = RunSave) then saveStep (saveView s)
                        else saveView s.
Proof.
  destruct a; simpl.
  - apply saveView_saveCanvasState.
  - done.
  - unfold Canvas.broadcastCursor. by destruct (currentPagePoint s).
Qed.

Lemma saveView_fireAll ts s :
  saveView (fireAll ts s)
  = Nat.iter (length (ofKind RunSave ts)) saveStep (saveView s).
Proof.
  revert s. induction ts as [|t ts IH]; intros s; [done|].
  simpl. rewrite IH, saveView_fire. unfold ofKind. rewrite filter_cons.
  destruct (decide (action t = RunSave)); [|done].
  rewrite length_cons. by rewrite Nat.iter_succ_r.
Qed.

(** **** The cursor callback, and what is sent *)

Definition cursorEmit (s : State) : list Emit :=
  match currentPagePoint s with
  | Some pt => [CanvasCursor projectId pt]
  | None => []
  end.

Lemma emitted_fire a s :
  emitted (fire a s)
  = emitted s ++ (if decide (a = BroadcastCursor) then cursorEmit s else []).
Proof.
  destruct a; simpl; rewrite ?app_nil_r.
  - unfold Canvas.saveCanvasState. destruct (editor s); [|done].
    by destruct (isSavingRef s).
  - done.
  - unfold Canvas.broadcastCursor, cursorEmit.
    destruct (currentPagePoint s); simpl; by rewrite ?app_nil_r.
Qed.

Lemma emitted_fireAll ts s :
  emitted (fireAll ts s)
  = emitted s
    ++ concat (replicate (length (ofKind BroadcastCursor ts)) (cursorEmit s)).
Proof.
  revert s. induction ts as [|t ts IH]; intros s; [by rewrite app_nil_r|].
  simpl. rewrite IH, emitted_fire. unfold ofKind. rewrite filter_cons.
  assert (cursorEmit (fire (action t) s) = cursorEmit s) as ->.
  { unfold cursorEmit. by destruct (fire_frame (action t) s) as (_&_&_&_&_&_&->). }
  destruct (decide (action t = BroadcastCursor)); simpl.
  - by rewrite <- app_assoc.
  - by rewrite app_nil_r.
Qed.

(** **** The echo flag *)

Lemma flag_fire a s :
  isRemoteUpdateRef (fire a s)
  = if decide (a = ClearRemoteFlag) then false else isRemoteUpdateRef s.
Proof.
  destruct a; simpl; [|done|].
  - unfold Canvas.saveCanvasState. destruct (editor s); [|done].
    by destruct (isSavingRef s).
  - unfold Canvas.broadcastCursor. by destruct (currentPagePoint s).
Qed.

Lemma flag_fireAll ts s :
  isRemoteUpdateRef (fireAll ts s)
  = if decide (ofKind ClearRemoteFlag ts = []) then isRemoteUpdateRef s
    else false.
Proof.
  revert s. induction ts as [|t ts IH]; intros s; [done|].
  simpl. rewrite IH, flag_fire. unfold ofKind. rewrite filter_cons.
  destruct (decide (action t = ClearRemoteFlag)); simpl.
  - by destruct (decide _).
  - done.
Qed.

(** **** One millisecond, kind by kind *)

Lemma ofKind_due k l :
  ofKind k (filter (λ t, remaining t = 0) (elapse <$> l))
  = filter (λ t, remaining t = 0) (elapse <$> ofKind k l).
Proof.
  unfold ofKind. induction l as [|t l IH]; [done|].
  rewrite fmap_cons, !filter_cons. simpl.
  destruct (decide (remaining t - 1 = 0)), (decide (action t = k));
    rewrite ?fmap_cons, ?filter_cons; simpl;
    rewrite ?decide_True, ?decide_False by done; by rewrite IH.
Qed.

Lemma ofKind_live k l :
  ofKind k (filter (λ t, remaining t ≠ 0) (elapse <$> l))
  = filter (λ t, remaining t ≠ 0) (elapse <$> ofKind k l).
Proof.
  unfold ofKind. induction l as [|t l IH]; [done|].
  rewrite fmap_cons, !filter_cons. simpl.
  destruct (decide (remaining t - 1 ≠ 0)), (decide (action t = k));
    rewrite ?fmap_cons, ?filter_cons; simpl;
    rewrite ?decide_True, ?decide_False by done; by rewrite IH.
Qed.

Lemma tick_saveView s :
  saveView (tick s)
  = Nat.iter (length (filter (λ t, remaining t = 0)
                        (elapse <$> ofKind RunSave (timers s))))
      saveStep (saveView s).
Proof.
  rewrite tick_unfold, saveView_fireAll. unfold dueNow. by rewrite ofKind_due.
Qed.

Lemma tick_emitted s :
  emitted (tick s)
  = emitted s
    ++ concat (replicate
         (length (filter (λ t, remaining t = 0)
                    (elapse <$> ofKind BroadcastCursor (timers s))))
         (cursorEmit s)).
Proof.
  rewrite tick_unfold, emitted_fireAll. unfold dueNow. by rewrite ofKind_due.
Qed.

Lemma tick_flag s :
  isRemoteUpdateRef (tick s)
  = if decide (filter (λ t, remaining t = 0)
                 (elapse <$> ofKind ClearRemoteFlag (timers s)) = [])
    then isRemoteUpdateRef s else false.
Proof.
  rewrite tick_unfold, flag_fireAll. unfold dueNow. by rewrite ofKind_due.
Qed.

Lemma tick_ofKind k s :
  ofKind k (timers (tick s))
  = filter (λ t, remaining t ≠ 0) (elapse <$> ofKind k (timers s)).
Proof. rewrite tick_timers. unfold stillLive. by rewrite ofKind_live. Qed.

(** *** Invariant of the bookkeeping *)

(** Every live save timer is the one held in [saveTimeoutRef]; every live
    cursor timer is the one held in [cursorTimeout], and exists only while
    the effects are set up; [isSavingRef] is set exactly while one request is
    in flight; the effects are set up only once the editor exists. *)
Definition wf (s : State) : Prop :=
  (∀ t, t ∈ timers s → action t = RunSave → saveTimeoutRef s = Some (tid t))
  ∧ (∀ t, t ∈ timers s → action t = BroadcastCursor →
          cursorTimeout s = Some (tid t))
  ∧ (∀ t, t ∈ timers s → action t = BroadcastCursor → active s = true)
  ∧ inFlight s = (if isSavingRef s then 1 else 0)
  ∧ (active s = true → is_Some (editor s)).

Lemma wf_init : wf init.
Proof.
  repeat split; simpl; try done; intros t Ht; by apply elem_of_nil in Ht.
Qed.

(** A state that differs from a well-formed one by having fewer timers and
    by fields the invariant does not mention. *)
Lemma wf_shrink s s' :
  wf s →
  (∀ t, t ∈ timers s' → t ∈ timers s) →
  saveTimeoutRef s' = saveTimeoutRef s →
  cursorTimeout s' = cursorTimeout s →
  active s' = active s →
  inFlight s' = inFlight s →
  isSavingRef s' = isSavingRef s →
  (is_Some (editor s) → is_Some (editor s')) →
  wf s'.
Proof.
  intros (W3 & W4 & W4' & W5 & W6) Hsub Hs Hc Ha Hn Hb He.
  split; [|split; [|split; [|split]]].
  - intros t Ht Hact. rewrite Hs. apply W3; [by apply Hsub|done].
  - intros t Ht Hact. rewrite Hc. apply W4; [by apply Hsub|done].
  - intros t Ht Hact. rewrite Ha. apply (W4' t); [by apply Hsub|done].
  - by rewrite Hn, Hb.
  - rewrite Ha. intros ?. by apply He, W6.
Qed.

Lemma handleChange_suppressed c s :
  isRemoteUpdateRef s = true → handleChange c s = s.
Proof. intros Hf. unfold Canvas.handleChange. by rewrite Hf. Qed.

Lemma handleChange_all_suppressed cs s :
  isRemoteUpdateRef s = true → fold_left (λ s c, handleChange c s) cs s = s.
Proof.
  intros Hf. induction cs as [|c cs IH]; [done|].
  simpl. by rewrite handleChange_suppressed.
Qed.

Lemma handleChange_empty c s : hasChanges c = false → handleChange c s = s.
Proof.
  intros Hc. unfold Canvas.handleChange. rewrite Hc.
  by destruct (isRemoteUpdateRef s).
Qed.

(** [clearTimeout] of the timer a ref holds, if it holds one. *)
Definition clearRef (ref : option nat) (s : State) : State :=
  match ref with Some id => clearTimeout id s | None => s end.

Lemma clearRef_timers ref s t : t ∈ timers (clearRef ref s) → t ∈ timers s.
Proof.
  destruct ref; simpl; [|done]. by intros [_ ?]%list_elem_of_filter.
Qed.

Lemma clearRef_gone ref s t :
  t ∈ timers (clearRef ref s) → ref ≠ Some (tid t).
Proof.
  destruct ref as [id|]; simpl; [|done].
  intros [Hne _]%list_elem_of_filter. congruence.
Qed.

Lemma clearRef_fields ref s :
  saveTimeoutRef (clearRef ref s) = saveTimeoutRef s
  ∧ cursorTimeout (clearRef ref s) = cursorTimeout s
  ∧ inFlight (clearRef ref s) = inFlight s
  ∧ isSavingRef (clearRef ref s) = isSavingRef s
  ∧ active (clearRef ref s) = active s
  ∧ editor (clearRef ref s) = editor s
  ∧ emitted (clearRef ref s) = emitted s
  ∧ requests (clearRef ref s) = requests s
  ∧ isRemoteUpdateRef (clearRef ref s) = isRemoteUpdateRef s
  ∧ currentPagePoint (clearRef ref s) = currentPagePoint s
  ∧ nextTimer (clearRef ref s) = nextTimer s.
Proof. by destruct ref. Qed.

(** The state after [handleChange] has passed both tests. *)
Definition broadcastAndArm (c : Changes) (s : State) : State :=
  let s1 := emit (CanvasUpdate projectId c) s in
  let s2 := clearRef (saveTimeoutRef s1) s1 in
  set_saveTimeoutRef (Some (nextTimer s2)) (setTimeout RunSave saveDelayMs s2).2.

Lemma handleChange_fresh c s :
  isRemoteUpdateRef s = false → hasChanges c = true →
  handleChange c s = broadcastAndArm c s.
Proof.
  intros Hf Hc. unfold Canvas.handleChange, broadcastAndArm. rewrite Hf, Hc.
  reflexivity.
Qed.

Lemma broadcastAndArm_timers c s :
  timers (broadcastAndArm c s)
  = timers (clearRef (saveTimeoutRef s) s)
    ++ [mkTimer (nextTimer s) saveDelayMs RunSave].
Proof. unfold broadcastAndArm. simpl. by destruct (saveTimeoutRef s). Qed.

Lemma broadcastAndArm_fields c s :
  saveTimeoutRef (broadcastAndArm c s) = Some (nextTimer s)
  ∧ emitted (broadcastAndArm c s) = emitted s ++ [CanvasUpdate projectId c]
  ∧ saveView (broadcastAndArm c s) = saveView s
  ∧ cursorTimeout (broadcastAndArm c s) = cursorTimeout s
  ∧ active (broadcastAndArm c s) = active s
  ∧ isRemoteUpdateRef (broadcastAndArm c s) = isRemoteUpdateRef s
  ∧ currentPagePoint (broadcastAndArm c s) = currentPagePoint s.
Proof.
  unfold broadcastAndArm, saveView. simpl. by destruct (saveTimeoutRef s).
Qed.

Lemma broadcastAndArm_save c s :
  editor (broadcastAndArm c s) = editor s
  ∧ isSavingRef (broadcastAndArm c s) = isSavingRef s
  ∧ requests (broadcastAndArm c s) = requests s
  ∧ inFlight (broadcastAndArm c s) = inFlight s.
Proof. unfold broadcastAndArm. simpl. by destruct (saveTimeoutRef s). Qed.

Lemma wf_broadcastAndArm c s : wf s → wf (broadcastAndArm c s).
Proof.
  intros (W3 & W4 & W4' & W5 & W6).
  destruct (broadcastAndArm_fields c s) as (Hr & _ & _ & Hc & Ha & _ & _).
  destruct (broadcastAndArm_save c s) as (He & Hs & Hq & Hn).
  split; [|split; [|split; [|split]]].
  - intros t Ht Hact. rewrite Hr. rewrite broadcastAndArm_timers in Ht.
    apply elem_of_app in Ht as [Ht|Ht].
    + exfalso. apply (clearRef_gone _ _ _ Ht).
      apply W3; [|done]. by apply clearRef_timers in Ht.
    + by apply list_elem_of_singleton in Ht as ->.
  - intros t Ht Hact. rewrite broadcastAndArm_timers in Ht.
    apply elem_of_app in Ht as [Ht|Ht].
    + rewrite Hc. apply W4; [|done]. by apply clearRef_timers in Ht.
    + by apply list_elem_of_singleton in Ht as ->.
  - intros t Ht Hact. rewrite broadcastAndArm_timers in Ht. rewrite Ha.
    apply elem_of_app in Ht as [Ht|Ht].
    + apply (W4' t); [|done]. by apply clearRef_timers in Ht.
    + by apply list_elem_of_singleton in Ht as ->.
  - by rewrite Hn, Hs.
  - rewrite Ha, He. exact W6.
Qed.

Lemma wf_handleChange c s : wf s → wf (handleChange c s).
Proof.
  intros Hwf. destruct (isRemoteUpdateRef s) eqn:Hf.
  - by rewrite handleChange_suppressed.
  - destruct (hasChanges c) eqn:Hc.
    + rewrite handleChange_fresh by done. by apply wf_broadcastAndArm.
    + by rewrite handleChange_empty.
Qed.

Lemma wf_set_editor f s :
  wf s → wf (set_editor (f <$> editor s) s).
Proof.
  intros Hwf. apply (wf_shrink s); try done.
  simpl. intros ?. by apply fmap_is_Some.
Qed.

Lemma wf_saveCanvasState s : wf s → wf (saveCanvasState s).
Proof.
  intros Hwf. pose proof Hwf as (W3 & W4 & W4' & W5 & W6).
  unfold Canvas.saveCanvasState.
  destruct (editor s) eqn:He; [|done].
  destruct (isSavingRef s) eqn:Hs; [done|].
  split; [|split; [|split; [|split]]]; simpl; try done.
  by rewrite W5.
Qed.

Lemma wf_fire a s : wf s → wf (fire a s).
Proof.
  intros Hwf. destruct a; simpl.
  - by apply wf_saveCanvasState.
  - by apply (wf_shrink s).
  - unfold Canvas.broadcastCursor. destruct (currentPagePoint s); [|done].
    by apply (wf_shrink s).
Qed.

Lemma wf_fireAll ts s : wf s → wf (fireAll ts s).
Proof.
  revert s. induction ts as [|t ts IH]; intros s Hwf; [done|].
  simpl. by apply IH, wf_fire.
Qed.

Lemma stillLive_origin s t' :
  t' ∈ stillLive s →
  ∃ t, t ∈ timers s ∧ tid t' = tid t ∧ action t' = action t.
Proof.
  unfold stillLive. intros [_ Hin]%list_elem_of_filter.
  apply list_elem_of_fmap in Hin as (t & -> & Hin). eauto.
Qed.

Lemma wf_tick s : wf s → wf (tick s).
Proof.
  intros (W3 & W4 & W4' & W5 & W6). rewrite tick_unfold. apply wf_fireAll.
  split; [|split; [|split; [|split]]]; simpl; try done.
  - intros t' (t & Ht & -> & Ha)%stillLive_origin Hact. apply W3; congruence.
  - intros t' (t & Ht & -> & Ha)%stillLive_origin Hact. apply W4; congruence.
  - intros t' (t & Ht & _ & Ha)%stillLive_origin Hact. apply (W4' t); congruence.
Qed.

Lemma wf_cleanup s : wf s → wf (cleanup projectId s).
Proof.
  intros Hwf. pose proof Hwf as (W3 & W4 & W4' & W5 & W6).
  unfold cleanup. apply wf_saveCanvasState.
  fold (clearRef (saveTimeoutRef s) s).
  set (s1 := clearRef (saveTimeoutRef s) s).
  fold (clearRef (cursorTimeout s1) s1).
  set (s2 := clearRef (cursorTimeout s1) s1).
  destruct (clearRef_fields (saveTimeoutRef s) s)
    as (H1a & H1b & H1c & H1d & _).
  destruct (clearRef_fields (cursorTimeout s1) s1)
    as (H2a & H2b & H2c & H2d & _).
  fold s1 in H1a, H1b, H1c, H1d. fold s2 in H2a, H2b, H2c, H2d.
  split; [|split; [|split; [|split]]]; simpl; try done.
  - intros t Ht Hact. rewrite H2a, H1a. apply W3; [|done].
    by apply clearRef_timers, clearRef_timers in Ht.
  - intros t Ht Hact. exfalso. apply (clearRef_gone _ _ _ Ht).
    rewrite H1b. apply W4; [|done].
    by apply clearRef_timers, clearRef_timers in Ht.
  - intros t Ht Hact. exfalso. apply (clearRef_gone _ _ _ Ht).
    rewrite H1b. apply W4; [|done].
    by apply clearRef_timers, clearRef_timers in Ht.
  - by rewrite H2c, H2d, H1c, H1d.
Qed.

Lemma wf_handlePointerMove s : wf s → active s = true → wf (handlePointerMove s).
Proof.
  intros (W3 & W4 & W4' & W5 & W6) Hact. unfold Canvas.handlePointerMove.
  fold (clearRef (cursorTimeout s) s).
  set (s1 := clearRef (cursorTimeout s) s).
  destruct (clearRef_fields (cursorTimeout s) s)
    as (H1a & _ & H1b & H1c & H1d & H1e & _).
  fold s1 in H1a, H1b, H1c, H1d, H1e.
  split; [|split; [|split; [|split]]]; simpl.
  - intros t [Ht| ->%list_elem_of_singleton]%elem_of_app Ha; [|done].
    rewrite H1a. apply W3; [|done]. by apply clearRef_timers in Ht.
  - intros t [Ht| ->%list_elem_of_singleton]%elem_of_app Ha; [|done].
    exfalso. apply (clearRef_gone _ _ _ Ht). apply W4; [|done].
    by apply clearRef_timers in Ht.
  - intros _ _ _. by rewrite H1d.
  - by rewrite H1b, H1c.
  - rewrite H1d, H1e. exact W6.
Qed.

Lemma wf_step e s : wf s → wf (step e s).
Proof.
  intros Hwf. pose proof Hwf as (W3 & W4 & W4' & W5 & W6).
  destruct e; simpl.
  - (* the editor is mounted *)
    destruct (active s) eqn:Ha; [done|].
    split; [|split; [|split; [|split]]]; simpl; try done.
    intros t Ht Hact. specialize (W4' t Ht Hact). congruence.
  - destruct (active s) eqn:Ha; [|done]. by apply wf_cleanup.
  - destruct (active s); [|done]. by apply wf_handleChange, wf_set_editor.
  - destruct (active s); [|done]. by apply wf_handleChange.
  - (* an incoming canvas:update *)
    destruct (active s) eqn:Ha; [|done]. unfold Canvas.handleCanvasUpdate.
    rewrite handleChange_all_suppressed by done.
    split; [|split; [|split; [|split]]]; simpl; try done.
    + intros t [Ht| ->%list_elem_of_singleton]%elem_of_app Hact; [|done].
      by apply W3.
    + intros t [Ht| ->%list_elem_of_singleton]%elem_of_app Hact; [|done].
      by apply W4.
    + intros _. by apply fmap_is_Some, W6.
  - (* a pointer move *)
    destruct (active s) eqn:Ha; [|done].
    apply wf_handlePointerMove; [|done]. by apply (wf_shrink s).
  - (* the save request settles *)
    unfold saveSettled. destruct (inFlight s) as [|n] eqn:Hn; [done|].
    split; [|split; [|split; [|split]]]; simpl; try done.
    destruct (isSavingRef s); congruence.
  - by apply wf_tick.
Qed.

Lemma wf_run tr s : wf s → wf (run tr s).
Proof.
  revert s. induction tr as [|e tr IH]; intros s Hwf; [done|].
  simpl. by apply IH, wf_step.
Qed.

Lemma wf_reachable tr : wf (run tr init).
Proof. apply wf_run, wf_init. Qed.

(** *** Saving *)

Lemma saveCanvasState_skips s :
  inFlight s = 1 ∨ editor s = None → wf s → saveCanvasState s = s.
Proof.
  intros Hcase (_ & _ & _ & W5 & _). unfold Canvas.saveCanvasState.
  destruct (editor s) eqn:He; [|done].
  destruct (isSavingRef s) eqn:Hs; [done|].
  destruct Hcase as [Hn|]; congruence.
Qed.

(** C10. At most one save request is in flight in any state the component
    can reach; and when [saveCanvasState] is invoked in a reachable state in
    which an earlier save has not yet settled, or the editor is absent, it
    returns at once and leaves the state as it was: no request is issued and
    nothing is scheduled for later. *)
Theorem one_save_in_flight (tr tr' : list Event) :
  inFlight (run tr' init) = 1 ∨ editor (run tr' init) = None →
  inFlight (run tr init) ≤ 1
  ∧ (isSavingRef (run tr init) = true ↔ inFlight (run tr init) = 1)
  ∧ saveCanvasState (run tr' init) = run tr' init.
Proof.
  intros Hcase. pose proof (wf_reachable tr) as (_ & _ & _ & W5 & _).
  split; [|split].
  - rewrite W5. destruct (isSavingRef _); lia.
  - rewrite W5. destruct (isSavingRef _); split; (done || lia).
  - apply saveCanvasState_skips; [done|apply wf_reachable].
Qed.

(** *** Local changes *)

Lemma hasChanges_false c :
  hasChanges c = false ↔ added c = [] ∧ updated c = [] ∧ removed c = [].
Proof.
  unfold hasChanges.
  destruct (added c), (updated c), (removed c); simpl; naive_solver.
Qed.

Lemma hasChanges_true c :
  hasChanges c = true ↔ added c ≠ [] ∨ updated c ≠ [] ∨ removed c ≠ [].
Proof.
  unfold hasChanges.
  destruct (added c), (updated c), (removed c); simpl; naive_solver.
Qed.

(** C9. A change entry whose change set is empty (nothing added, updated or
    removed) leaves the component as it was: nothing is sent and the save
    timer is neither started nor reset.  A change entry with a non-empty
    change set, outside an echo window, sends one [canvas:update] carrying
    it and starts the 3 second save timer anew. *)
Theorem empty_changes_ignored (c0 c : Changes) (s : State) :
  added c0 = [] → updated c0 = [] → removed c0 = [] →
  added c ≠ [] ∨ updated c ≠ [] ∨ removed c ≠ [] →
  isRemoteUpdateRef s = false →
  handleChange c0 s = s
  ∧ emitted (handleChange c s) = emitted s ++ [CanvasUpdate projectId c]
  ∧ saveTimeoutRef (handleChange c s) = Some (nextTimer s)
  ∧ mkTimer (nextTimer s) saveDelayMs RunSave ∈ timers (handleChange c s).
Proof.
  intros Ha Hu Hr Hc Hf. split.
  - apply handleChange_empty, hasChanges_false. done.
  - apply hasChanges_true in Hc. rewrite handleChange_fresh by done.
    destruct (broadcastAndArm_fields c s) as (-> & -> & _).
    split; [done|]. split; [done|].
    rewrite broadcastAndArm_timers. apply elem_of_app. right. by left.
Qed.

(** *** Remote changes *)

Lemma flag_cleared_when_due r : ∀ s id,
  mkTimer id r ClearRemoteFlag ∈ timers s → 1 ≤ r →
  isRemoteUpdateRef (advance r s) = false.
Proof.
  induction r as [|r IH]; intros s id Hin Hr; [lia|].
  rewrite advance_succ.
  assert (Hel : mkTimer id r ClearRemoteFlag ∈ elapse <$> timers s).
  { apply list_elem_of_fmap. exists (mkTimer id (S r) ClearRemoteFlag).
    split; [|done]. unfold elapse. simpl. by rewrite Nat.sub_0_r. }
  destruct r as [|r].
  - change (advance 0 (tick s)) with (tick s). rewrite tick_flag.
    rewrite decide_False; [done|]. intros Hnil.
    assert (Hin' : mkTimer id 0 ClearRemoteFlag
              ∈ filter (λ t, remaining t = 0)
                  (elapse <$> ofKind ClearRemoteFlag (timers s))).
    { apply list_elem_of_filter. split; [done|].
      apply list_elem_of_fmap. exists (mkTimer id 1 ClearRemoteFlag).
      split; [done|]. apply list_elem_of_filter. done. }
    rewrite Hnil in Hin'. by apply elem_of_nil in Hin'.
  - apply (IH (tick s) id); [|lia]. rewrite tick_timers.
    unfold stillLive. apply list_elem_of_filter. done.
Qed.

(** One application of an incoming [canvas:update] sends nothing: the flag
    is raised before the remote changes are applied, every change
    notification the store hands to the listener during the application is
    dropped, and no save is scheduled for them.  The listener drops whatever
    it is handed while the flag is raised.  The one timer set by the
    application clears the flag, and 100 ms after the application the flag
    is down. *)
Theorem remote_update_not_echoed (data : UpdateData) (notified : list Changes)
    (c : Changes) (s s' : State) :
  emitted (handleCanvasUpdate data notified s) = emitted s
  ∧ requests (handleCanvasUpdate data notified s) = requests s
  ∧ isRemoteUpdateRef (handleCanvasUpdate data notified s) = true
  ∧ timers (handleCanvasUpdate data notified s)
    = timers s ++ [mkTimer (nextTimer s) remoteFlagDelayMs ClearRemoteFlag]
  ∧ editor (handleCanvasUpdate data notified s) = applyRemote data <$> editor s
  ∧ handleChange c (set_isRemoteUpdateRef true s') = set_isRemoteUpdateRef true s'
  ∧ isRemoteUpdateRef
      (advance remoteFlagDelayMs (handleCanvasUpdate data notified s)) = false.
Proof.
  assert (Hu : handleCanvasUpdate data notified s
               = (setTimeout ClearRemoteFlag remoteFlagDelayMs
                   (set_editor (applyRemote data <$> editor s)
                      (set_isRemoteUpdateRef true s))).2).
  { unfold Canvas.handleCanvasUpdate.
    by rewrite handleChange_all_suppressed. }
  rewrite Hu.
  split; [done|]. split; [done|]. split; [done|]. split; [done|].
  split; [done|]. split.
  - by apply handleChange_suppressed.
  - apply (flag_cleared_when_due remoteFlagDelayMs _ (nextTimer s)).
    + cbn [setTimeout snd timers set_nextTimer set_timers set_editor
           set_isRemoteUpdateRef].
      apply elem_of_app. right. by left.
    + unfold remoteFlagDelayMs. lia.
Qed.

(** *** A pending timer of one kind, as time passes *)

Lemma tick_pending_later k s id r :
  ofKind k (timers s) = [mkTimer id r k] → 2 ≤ r →
  ofKind k (timers (tick s)) = [mkTimer id (r - 1) k]
  ∧ filter (λ t, remaining t = 0) (elapse <$> ofKind k (timers s)) = [].
Proof.
  intros Hk Hr. rewrite tick_ofKind, Hk. unfold elapse.
  cbn [fmap list_fmap tid remaining action].
  rewrite !filter_cons, !filter_nil. cbn [remaining].
  rewrite decide_True by lia. by rewrite decide_False by lia.
Qed.

Lemma tick_pending_now k s id :
  ofKind k (timers s) = [mkTimer id 1 k] →
  ofKind k (timers (tick s)) = []
  ∧ filter (λ t, remaining t = 0) (elapse <$> ofKind k (timers s))
    = [mkTimer id 0 k].
Proof.
  intros Hk. rewrite tick_ofKind, Hk. unfold elapse.
  cbn [fmap list_fmap tid remaining action].
  rewrite !filter_cons, !filter_nil. cbn [remaining].
  rewrite decide_False by lia. by rewrite decide_True by lia.
Qed.

Lemma tick_pending_none k s :
  ofKind k (timers s) = [] →
  ofKind k (timers (tick s)) = []
  ∧ filter (λ t, remaining t = 0) (elapse <$> ofKind k (timers s)) = [].
Proof. intros Hk. by rewrite tick_ofKind, Hk. Qed.

Section Quiet.

(** A kind of timer and a part of the state that changes, as time passes,
    only when a timer of that kind becomes due. *)
Variable k : TimerAction.
Context {V : Type}.
Variable view : State → V.
Hypothesis view_quiet : ∀ s,
  filter (λ t, remaining t = 0) (elapse <$> ofKind k (timers s)) = [] →
  view (tick s) = view s.

Lemma advance_none n : ∀ s,
  ofKind k (timers s) = [] →
  ofKind k (timers (advance n s)) = [] ∧ view (advance n s) = view s.
Proof.
  induction n as [|n IH]; intros s Hk; [done|].
  rewrite advance_succ. destruct (tick_pending_none k s Hk) as [Hk' Hq].
  destruct (IH (tick s) Hk') as [-> ->]. split; [done|]. by apply view_quiet.
Qed.

Lemma advance_wait n : ∀ s id r,
  ofKind k (timers s) = [mkTimer id r k] → n < r →
  ofKind k (timers (advance n s)) = [mkTimer id (r - n) k]
  ∧ view (advance n s) = view s.
Proof.
  induction n as [|n IH]; intros s id r Hk Hr.
  - by rewrite Nat.sub_0_r.
  - rewrite advance_succ.
    destruct (tick_pending_later k s id r Hk) as [Hk' Hq]; [lia|].
    destruct (IH (tick s) id (r - 1) Hk') as [-> ->]; [lia|].
    split; [f_equal; f_equal; lia|]. by apply view_quiet.
Qed.

(** From a pending timer with [r] ms left, [n >= r] ms are [r - 1] quiet
    ms, the ms in which the callback runs, and [n - r] ms with no timer of
    the kind. *)
Lemma advance_through n s id r :
  ofKind k (timers s) = [mkTimer id r k] → 1 ≤ r → r ≤ n →
  ofKind k (timers (advance (r - 1) s)) = [mkTimer id 1 k]
  ∧ view (advance (r - 1) s) = view s
  ∧ ofKind k (timers (advance n s)) = []
  ∧ view (advance n s) = view (tick (advance (r - 1) s)).
Proof.
  intros Hk Hr Hn.
  destruct (advance_wait (r - 1) s id r Hk) as [Hk1 Hv1]; [lia|].
  replace (r - (r - 1)) with 1 in Hk1 by lia.
  split; [done|]. split; [done|].
  replace n with ((r - 1) + S (n - r)) by lia.
  rewrite advance_add, advance_succ.
  destruct (tick_pending_now k _ id Hk1) as [Hk2 _].
  apply (advance_none (n - r) _ Hk2).
Qed.

End Quiet.

(** **** What passes unchanged through any millisecond *)

Definition isUpdate (e : Emit) : bool :=
  match e with CanvasUpdate _ _ => true | _ => false end.

(** The [canvas:update] broadcasts sent so far, oldest first. *)
Definition updates (s : State) : list Emit :=
  filter (λ e, isUpdate e = true) (emitted s).

Lemma updates_tick s : updates (tick s) = updates s.
Proof.
  unfold updates. rewrite tick_emitted, filter_app.
  generalize (length (filter (λ t, remaining t = 0)
                (elapse <$> ofKind BroadcastCursor (timers s)))).
  intros n. assert (filter (λ e, isUpdate e = true)
              (concat (replicate n (cursorEmit s))) = []) as ->.
  { induction n as [|n IH]; [done|]. simpl. rewrite filter_app, IH.
    unfold cursorEmit. by destruct (currentPagePoint s). }
  by rewrite app_nil_r.
Qed.

Lemma flag_down_tick s :
  isRemoteUpdateRef s = false → isRemoteUpdateRef (tick s) = false.
Proof. intros Hf. rewrite tick_flag, Hf. by destruct (decide _). Qed.

(** The parts of the state that no timer callback changes once the flag is
    down. *)
Definition steady (s s' : State) : Prop :=
  active s' = active s
  ∧ editor s' = editor s
  ∧ currentPagePoint s' = currentPagePoint s
  ∧ saveTimeoutRef s' = saveTimeoutRef s
  ∧ cursorTimeout s' = cursorTimeout s
  ∧ updates s' = updates s
  ∧ (isRemoteUpdateRef s = false → isRemoteUpdateRef s' = false).

Lemma steady_advance n s : steady s (advance n s).
Proof.
  revert s. induction n as [|n IH]; intros s; [by repeat split|].
  rewrite advance_succ. unfold steady.
  destruct (IH (tick s)) as (-> & -> & -> & -> & -> & -> & Hf).
  destruct (tick_frame s) as (_ & -> & -> & -> & -> & ->).
  rewrite updates_tick. repeat split. intros Hd. by apply Hf, flag_down_tick.
Qed.

Lemma wf_advance n s : wf s → wf (advance n s).
Proof.
  revert s. induction n as [|n IH]; intros s Hwf; [done|].
  rewrite advance_succ. by apply IH, wf_tick.
Qed.

(** *** The debounced save *)

Lemma saveView_quiet s :
  filter (λ t, remaining t = 0) (elapse <$> ofKind RunSave (timers s)) = [] →
  saveView (tick s) = saveView s.
Proof. intros Hq. by rewrite tick_saveView, Hq. Qed.

Lemma saveView_due s id :
  ofKind RunSave (timers s) = [mkTimer id 1 RunSave] →
  saveView (tick s) = saveStep (saveView s).
Proof.
  intros Hk. rewrite tick_saveView.
  destruct (tick_pending_now RunSave s id Hk) as [_ ->]. done.
Qed.

(** The save attempt made when the armed timer runs: one request carrying
    the records of the store, unless a request is still in flight. *)
Definition saveAttempt (s : State) : list (gmap string TLRecord) :=
  match editor s with
  | Some st => if isSavingRef s then [] else [snapshot st]
  | None => []
  end.

Lemma requests_saveStep s s' :
  saveView s' = saveStep (saveView s) →
  requests s' = requests s ++ saveAttempt s.
Proof.
  unfold saveView, saveStep, saveAttempt.
  destruct (editor s) as [st|]; [destruct (isSavingRef s)|];
    intros [= _ _ -> _]; by rewrite ?app_nil_r.
Qed.

Lemma armed_requests n s id r :
  ofKind RunSave (timers s) = [mkTimer id r RunSave] → 1 ≤ r →
  requests (advance n s)
  = requests s ++ (if r <=? n then saveAttempt s else []).
Proof.
  intros Hk Hr. destruct (r <=? n) eqn:Hle.
  - apply Nat.leb_le in Hle.
    destruct (advance_through RunSave saveView saveView_quiet n s id r Hk Hr Hle)
      as (Hk1 & Hv1 & _ & Hv2).
    rewrite (saveView_due _ id Hk1), Hv1 in Hv2.
    by apply requests_saveStep.
  - apply Nat.leb_gt in Hle.
    destruct (advance_wait RunSave saveView saveView_quiet n s id r Hk Hle)
      as [_ Hv].
    unfold saveView in Hv. injection Hv as _ _ -> _. by rewrite app_nil_r.
Qed.

(** What happens between and after the changes of a burst: a millisecond
    passes, or the request of an earlier save settles. *)
Definition isIdle (e : Event) : bool :=
  match e with EvTick | EvSaveSettled => true | _ => false end.

Definition isTick (e : Event) : bool :=
  match e with EvTick => true | _ => false end.

(** The milliseconds that pass in a sequence of events. *)
Definition ticks (w : list Event) : nat :=
  length (filter (λ e, isTick e = true) w).

(** A burst of local changes after a first one: each is preceded by what
    happened since the change before it. *)
Definition burstTrace (rest : list (list Event * Changes)) : list Event :=
  flat_map (λ gc, gc.1 ++ [EvLocalChange gc.2]) rest.

(** A gap of a burst: idle, and shorter than the save delay. *)
Definition shortGap (w : list Event) : Prop :=
  Forall (λ e, isIdle e = true) w ∧ ticks w < saveDelayMs.

Lemma ticks_cons e w : ticks (e :: w) = (if isTick e then 1 else 0) + ticks w.
Proof.
  unfold ticks. rewrite filter_cons.
  destruct (isTick e); [by rewrite decide_True|by rewrite decide_False].
Qed.

Lemma ticks_app w1 w2 : ticks (w1 ++ w2) = ticks w1 + ticks w2.
Proof. unfold ticks. by rewrite filter_app, length_app. Qed.

Lemma saveSettled_frame s :
  sameFrame s (saveSettled s)
  ∧ emitted (saveSettled s) = emitted s
  ∧ requests (saveSettled s) = requests s
  ∧ isRemoteUpdateRef (saveSettled s) = isRemoteUpdateRef s.
Proof. unfold saveSettled. destruct (inFlight s); by repeat split. Qed.

Lemma steady_trans s1 s2 s3 : steady s1 s2 → steady s2 s3 → steady s1 s3.
Proof.
  intros (A1 & B1 & C1 & D1 & E1 & F1 & G1) (A2 & B2 & C2 & D2 & E2 & F2 & G2).
  repeat split; try congruence. intros Hf. by apply G2, G1.
Qed.

Lemma steady_idle_step e s : isIdle e = true → steady s (step e s).
Proof.
  destruct e; try discriminate; intros _; cbn [Canvas.step].
  - destruct (saveSettled_frame s)
      as ((_ & _ & Hs & Hc & Ha & He & Hp) & Hm & _ & Hf).
    repeat split; try done.
    + unfold updates. by rewrite Hm.
    + by rewrite Hf.
  - exact (steady_advance 1 s).
Qed.

Lemma steady_idle w : ∀ s,
  Forall (λ e, isIdle e = true) w → steady s (run w s).
Proof.
  induction w as [|e w IH]; intros s Hall; [by repeat split|].
  apply Forall_cons in Hall as [He Hall].
  change (run (e :: w) s) with (run w (step e s)).
  eapply steady_trans; [by apply steady_idle_step|by apply IH].
Qed.

(** While the save timer is pending, idle events only run it down. *)
Lemma idle_wait w : ∀ s id r,
  Forall (λ e, isIdle e = true) w →
  ofKind RunSave (timers s) = [mkTimer id r RunSave] → ticks w < r →
  ofKind RunSave (timers (run w s)) = [mkTimer id (r - ticks w) RunSave]
  ∧ requests (run w s) = requests s.
Proof.
  induction w as [|e w IH]; intros s id r Hall Hk Hr.
  - change (run [] s) with s. change (ticks []) with 0.
    by rewrite Nat.sub_0_r.
  - apply Forall_cons in Hall as [He Hall].
    change (run (e :: w) s) with (run w (step e s)).
    rewrite ticks_cons in Hr |- *.
    destruct e; try discriminate He; cbn [isTick] in Hr |- *;
      cbn [Canvas.step].
    + destruct (saveSettled_frame s) as ((Ht & _) & _ & Hq & _).
      destruct (IH (saveSettled s) id r Hall) as [-> ->];
        [by rewrite Ht|lia|]. done.
    + destruct (tick_pending_later RunSave s id r Hk) as [Hk' Hq]; [lia|].
      pose proof (saveView_quiet s Hq) as Hv.
      unfold saveView in Hv. injection Hv as _ _ Hrq _.
      destruct (IH (tick s) id (r - 1) Hall Hk') as [-> ->]; [lia|].
      split; [|done]. f_equal. f_equal. lia.
Qed.

(** With no save timer pending, idle events issue no save. *)
Lemma idle_none w : ∀ s,
  Forall (λ e, isIdle e = true) w →
  ofKind RunSave (timers s) = [] →
  requests (run w s) = requests s.
Proof.
  induction w as [|e w IH]; intros s Hall Hk; [done|].
  apply Forall_cons in Hall as [He Hall].
  change (run (e :: w) s) with (run w (step e s)).
  destruct e; try discriminate He; cbn [Canvas.step].
  - destruct (saveSettled_frame s) as ((Ht & _) & _ & Hq & _).
    rewrite IH; [done|done|by rewrite Ht].
  - destruct (tick_pending_none RunSave s Hk) as [Hk' Hq].
    pose proof (saveView_quiet s Hq) as Hv.
    unfold saveView in Hv. injection Hv as _ _ Hrq _.
    rewrite IH; done.
Qed.

(** The store after a sequence of user edits. *)
Definition applyAll (cs : list Changes) (st : gmap string TLRecord)
  : gmap string TLRecord :=
  fold_left (λ st c, applyLocal c st) cs st.

(** The save timer has just been started, outside an echo window. *)
Definition armed (s : State) : Prop :=
  wf s ∧ active s = true ∧ isRemoteUpdateRef s = false
  ∧ ∃ id, ofKind RunSave (timers s) = [mkTimer id saveDelayMs RunSave].

Lemma ofKind_clearRef_save s :
  wf s → ofKind RunSave (timers (clearRef (saveTimeoutRef s) s)) = [].
Proof.
  intros (W3 & _).
  destruct (ofKind RunSave (timers (clearRef (saveTimeoutRef s) s)))
    as [|t l] eqn:Hl; [done|].
  assert (Hin : t ∈ ofKind RunSave (timers (clearRef (saveTimeoutRef s) s)))
    by (rewrite Hl; by left).
  apply list_elem_of_filter in Hin as [Hact Hin].
  exfalso. apply (clearRef_gone _ _ _ Hin). apply W3; [|done].
  by apply clearRef_timers in Hin.
Qed.

Lemma localChange_arms c s :
  wf s → active s = true → isRemoteUpdateRef s = false →
  hasChanges c = true →
  armed (step (EvLocalChange c) s)
  ∧ editor (step (EvLocalChange c) s) = applyLocal c <$> editor s
  ∧ updates (step (EvLocalChange c) s)
    = updates s ++ [CanvasUpdate projectId c]
  ∧ requests (step (EvLocalChange c) s) = requests s
  ∧ isSavingRef (step (EvLocalChange c) s) = isSavingRef s.
Proof.
  intros Hwf Ha Hf Hc.
  assert (Hwf' : wf (step (EvLocalChange c) s)) by by apply wf_step.
  revert Hwf'. cbn [Canvas.step]. rewrite Ha.
  set (s1 := set_editor (applyLocal c <$> editor s) s).
  assert (Hwf1 : wf s1) by by apply wf_set_editor.
  rewrite handleChange_fresh by done. intros Hwf'.
  destruct (broadcastAndArm_fields c s1) as (_ & He & _ & _ & Ha' & Hf' & _).
  destruct (broadcastAndArm_save c s1) as (Hed & Hsv & Hrq & _).
  split; [|split; [|split; [|split]]]; try done.
  - split; [done|]. split; [by rewrite Ha'|]. split; [by rewrite Hf'|].
    exists (nextTimer s1). rewrite broadcastAndArm_timers.
    unfold ofKind. rewrite filter_app.
    fold (ofKind RunSave (timers (clearRef (saveTimeoutRef s1) s1))).
    by rewrite ofKind_clearRef_save.
  - unfold updates. rewrite He, filter_app. done.
Qed.

Lemma burst_run rest : ∀ s,
  armed s →
  Forall (λ gc, shortGap gc.1 ∧ hasChanges gc.2 = true) rest →
  armed (run (burstTrace rest) s)
  ∧ editor (run (burstTrace rest) s) = applyAll rest.*2 <$> editor s
  ∧ updates (run (burstTrace rest) s)
    = updates s ++ (CanvasUpdate projectId <$> rest.*2)
  ∧ requests (run (burstTrace rest) s) = requests s.
Proof.
  induction rest as [|[w c] rest IH]; intros s Harmed Hall.
  - change (run (burstTrace []) s) with s.
    change ([].*2) with (@nil Changes). rewrite fmap_nil, app_nil_r.
    split; [done|]. split; [by destruct (editor s)|]. done.
  - apply Forall_cons in Hall as [[[Hidle Hg] Hc] Hall]. cbn [fst snd] in *.
    destruct Harmed as (Hwf & Ha & Hf & id & Hk).
    change (burstTrace ((w, c) :: rest))
      with ((w ++ [EvLocalChange c]) ++ burstTrace rest).
    rewrite !run_concat.
    change (run [EvLocalChange c] (run w s))
      with (step (EvLocalChange c) (run w s)).
    destruct (steady_idle w s Hidle) as (Ha1 & He1 & _ & _ & _ & Hu1 & Hf1).
    destruct (idle_wait w s id _ Hidle Hk Hg) as [_ Hr1].
    destruct (localChange_arms c (run w s)) as (Harm2 & He2 & Hu2 & Hr2 & _);
      [by apply wf_run|congruence|by apply Hf1|done|].
    destruct (IH _ Harm2 Hall) as (Harm3 & He3 & Hu3 & Hr3).
    split; [done|]. split; [|split].
    + rewrite He3, He2, He1. by destruct (editor s).
    + rewrite Hu3, Hu2, Hu1. by rewrite <- app_assoc.
    + congruence.
Qed.

(** C5, as amended.  In any state the component can reach with its effects
    set up and outside an echo window, take a burst of N >= 1 local
    mutations with non-empty change sets whose consecutive gaps are all
    shorter than 3 seconds, with nothing happening in the gaps and after the
    burst but the passing of time and the settling of an earlier save.  One
    [canvas:update] is sent per mutation, in order.  No save is issued
    during the burst nor in the 2999 ms after the last mutation ([w1] and
    each of its beginnings).  In the next millisecond exactly one save
    attempt is made: it posts the records of the store as the last mutation
    left it, unless an earlier save is still in flight at that moment, in
    which case nothing is posted; and nothing more is posted afterwards
    ([w2]). *)
Theorem save_debounced (tr : list Event) (c1 : Changes)
    (rest : list (list Event * Changes)) (w1 w2 : list Event) :
  active (run tr init) = true →
  isRemoteUpdateRef (run tr init) = false →
  hasChanges c1 = true →
  Forall (λ gc, shortGap gc.1 ∧ hasChanges gc.2 = true) rest →
  Forall (λ e, isIdle e = true) w1 → ticks w1 = saveDelayMs - 1 →
  Forall (λ e, isIdle e = true) w2 →
  ∃ st, editor (run tr init) = Some st
  ∧ editor (run (EvLocalChange c1 :: burstTrace rest) (run tr init))
    = Some (applyAll (c1 :: rest.*2) st)
  ∧ updates (run (EvLocalChange c1 :: burstTrace rest) (run tr init))
    = updates (run tr init) ++ (CanvasUpdate projectId <$> c1 :: rest.*2)
  ∧ (∀ w, w `prefix_of` w1 →
       requests (run w (run (EvLocalChange c1 :: burstTrace rest) (run tr init)))
       = requests (run tr init))
  ∧ requests (run (w1 ++ EvTick :: w2)
                (run (EvLocalChange c1 :: burstTrace rest) (run tr init)))
    = requests (run tr init)
      ++ (if isSavingRef
               (run w1 (run (EvLocalChange c1 :: burstTrace rest) (run tr init)))
          then [] else [snapshot (applyAll (c1 :: rest.*2) st)]).
Proof.
  intros Ha Hf Hc1 Hall Hw1 Ht1 Hw2.
  pose proof (wf_reachable tr) as Hwf.
  set (s := run tr init) in *. clearbody s.
  destruct Hwf as (W3 & W4 & W4' & W5 & W6).
  destruct (W6 Ha) as [st Hst]. exists st. split; [done|].
  assert (Hwf : wf s) by done.
  change (run (EvLocalChange c1 :: burstTrace rest) s)
    with (run (burstTrace rest) (step (EvLocalChange c1) s)).
  destruct (localChange_arms c1 s Hwf Ha Hf Hc1) as (Harm1 & He1 & Hu1 & Hr1 & _).
  destruct (burst_run rest _ Harm1 Hall) as (Harm2 & He2 & Hu2 & Hr2).
  set (sB := run (burstTrace rest) (step (EvLocalChange c1) s)) in *.
  assert (Hed : editor sB = Some (applyAll (c1 :: rest.*2) st)).
  { rewrite He2, He1, Hst. done. }
  assert (Hrq : requests sB = requests s) by congruence.
  clearbody sB.
  destruct Harm2 as (_ & _ & _ & id & Hk).
  split; [done|]. split; [|split].
  - rewrite Hu2, Hu1. by rewrite <- app_assoc.
  - intros w [k ->]. apply Forall_app in Hw1 as [Hw _].
    rewrite ticks_app in Ht1.
    destruct (idle_wait w sB id _ Hw Hk) as [_ ->]; [|done].
    unfold saveDelayMs in *. lia.
  - rewrite run_concat.
    change (run (EvTick :: w2) (run w1 sB)) with (run w2 (tick (run w1 sB))).
    destruct (idle_wait w1 sB id _ Hw1 Hk) as [Hk1 Hr1'];
      [unfold saveDelayMs in *; lia|].
    replace (saveDelayMs - ticks w1) with 1 in Hk1
      by (unfold saveDelayMs in *; lia).
    destruct (tick_pending_now RunSave _ id Hk1) as [Hk2 _].
    rewrite (idle_none w2 _ Hw2 Hk2).
    rewrite (requests_saveStep (run w1 sB) (tick (run w1 sB)))
      by (by apply (saveView_due _ id)).
    rewrite Hr1', Hrq. f_equal. unfold saveAttempt.
    destruct (steady_idle w1 sB Hw1) as (_ & -> & _). by rewrite Hed.
Qed.

(** *** The debounced cursor broadcast *)

Lemma emitted_quiet s :
  filter (λ t, remaining t = 0)
    (elapse <$> ofKind BroadcastCursor (timers s)) = [] →
  emitted (tick s) = emitted s.
Proof. intros Hq. rewrite tick_emitted, Hq. simpl. by rewrite app_nil_r. Qed.

Lemma emitted_due s id :
  ofKind BroadcastCursor (timers s) = [mkTimer id 1 BroadcastCursor] →
  emitted (tick s) = emitted s ++ cursorEmit s.
Proof.
  intros Hk. rewrite tick_emitted.
  destruct (tick_pending_now BroadcastCursor s id Hk) as [_ ->].
  simpl. by rewrite app_nil_r.
Qed.

Lemma cursor_armed_emitted n s id r :
  ofKind BroadcastCursor (timers s) = [mkTimer id r BroadcastCursor] → 1 ≤ r →
  emitted (advance n s)
  = emitted s ++ (if r <=? n then cursorEmit s else []).
Proof.
  intros Hk Hr. destruct (r <=? n) eqn:Hle.
  - apply Nat.leb_le in Hle.
    destruct (advance_through BroadcastCursor emitted emitted_quiet n s id r
                Hk Hr Hle) as (Hk1 & Hv1 & _ & Hv2).
    rewrite Hv2, (emitted_due _ id Hk1), Hv1. f_equal. unfold cursorEmit.
    by destruct (steady_advance (r - 1) s) as (_ & _ & -> & _).
  - apply Nat.leb_gt in Hle.
    destruct (advance_wait BroadcastCursor emitted emitted_quiet n s id r
                Hk Hle) as [_ ->].
    by rewrite app_nil_r.
Qed.

(** A burst of pointer moves after a first one: each is preceded by the
    time, in ms, since the move before it. *)
Definition moveTrace (rest : list (nat * Point)) : list Event :=
  flat_map (λ gp, replicate gp.1 EvTick ++ [EvPointerMove gp.2]) rest.

(** The cursor timer has just been started. *)
Definition cursorArmed (s : State) : Prop :=
  wf s ∧ active s = true
  ∧ ∃ id, ofKind BroadcastCursor (timers s)
          = [mkTimer id cursorDelayMs BroadcastCursor].

Lemma ofKind_clearRef_cursor s :
  wf s → ofKind BroadcastCursor (timers (clearRef (cursorTimeout s) s)) = [].
Proof.
  intros (_ & W4 & _).
  destruct (ofKind BroadcastCursor (timers (clearRef (cursorTimeout s) s)))
    as [|t l] eqn:Hl; [done|].
  assert (Hin : t ∈ ofKind BroadcastCursor
                      (timers (clearRef (cursorTimeout s) s)))
    by (rewrite Hl; by left).
  apply list_elem_of_filter in Hin as [Hact Hin].
  exfalso. apply (clearRef_gone _ _ _ Hin). apply W4; [|done].
  by apply clearRef_timers in Hin.
Qed.

Lemma handlePointerMove_unfold s :
  handlePointerMove s
  = set_cursorTimeout (Some (nextTimer (clearRef (cursorTimeout s) s)))
      (set_nextTimer (S (nextTimer (clearRef (cursorTimeout s) s)))
         (set_timers
            (timers (clearRef (cursorTimeout s) s)
             ++ [mkTimer (nextTimer (clearRef (cursorTimeout s) s))
                   cursorDelayMs BroadcastCursor])
            (clearRef (cursorTimeout s) s))).
Proof. reflexivity. Qed.

Lemma pointerMove_arms pt s :
  wf s → active s = true →
  cursorArmed (step (EvPointerMove pt) s)
  ∧ currentPagePoint (step (EvPointerMove pt) s) = Some pt
  ∧ emitted (step (EvPointerMove pt) s) = emitted s.
Proof.
  intros Hwf Ha.
  assert (Hwf' : wf (step (EvPointerMove pt) s)) by by apply wf_step.
  revert Hwf'. cbn [Canvas.step]. rewrite Ha.
  set (s0 := set_currentPagePoint (Some pt) s).
  assert (Hwf0 : wf s0) by by apply (wf_shrink s).
  rewrite handlePointerMove_unfold.
  destruct (clearRef_fields (cursorTimeout s0) s0)
    as (_ & _ & _ & _ & Ha1 & _ & He1 & _ & _ & Hp1 & _).
  intros Hwf'. split; [|split].
  - split; [done|]. split; [by etrans; [exact Ha1|]|].
    exists (nextTimer (clearRef (cursorTimeout s0) s0)).
    cbn [timers set_cursorTimeout set_nextTimer set_timers].
    unfold ofKind. rewrite filter_app.
    fold (ofKind BroadcastCursor (timers (clearRef (cursorTimeout s0) s0))).
    by rewrite ofKind_clearRef_cursor.
  - by etrans; [exact Hp1|].
  - by etrans; [exact He1|].
Qed.

Lemma last_cons_default {A} (a d : A) (l : list A) :
  List.last (a :: l) d = List.last l a.
Proof.
  revert a d. induction l as [|b l IH]; intros a d; [done|].
  change (List.last (a :: b :: l) d) with (List.last (b :: l) d).
  by rewrite !IH.
Qed.

Lemma moves_run rest : ∀ s p,
  cursorArmed s → currentPagePoint s = Some p →
  Forall (λ gp, gp.1 < cursorDelayMs) rest →
  cursorArmed (run (moveTrace rest) s)
  ∧ currentPagePoint (run (moveTrace rest) s) = Some (List.last rest.*2 p)
  ∧ emitted (run (moveTrace rest) s) = emitted s.
Proof.
  induction rest as [|[g pt] rest IH]; intros s p Harmed Hp Hall.
  - by change (run (moveTrace []) s) with s.
  - apply Forall_cons in Hall as [Hg Hall]. simpl in Hg.
    destruct Harmed as (Hwf & Ha & id & Hk).
    change (moveTrace ((g, pt) :: rest))
      with ((replicate g EvTick ++ [EvPointerMove pt]) ++ moveTrace rest).
    rewrite !run_concat, run_ticks.
    change (run [EvPointerMove pt] (advance g s))
      with (step (EvPointerMove pt) (advance g s)).
    destruct (steady_advance g s) as (Ha1 & _).
    destruct (advance_wait BroadcastCursor emitted emitted_quiet g s id _ Hk Hg)
      as [_ He1].
    destruct (pointerMove_arms pt (advance g s)) as (Harm2 & Hp2 & He2);
      [by apply wf_advance|congruence|].
    destruct (IH _ pt Harm2 Hp2 Hall) as (Harm3 & Hp3 & He3).
    split; [done|]. split.
    + rewrite Hp3. f_equal. change (((g, pt) :: rest).*2) with (pt :: rest.*2).
      by rewrite last_cons_default.
    + congruence.
Qed.

(** Local changes of the canvas document, each preceded by the time, in ms,
    since the event before it. *)
Definition changeTrace (cs : list (nat * Changes)) : list Event :=
  flat_map (λ gc, replicate gc.1 EvTick ++ [EvLocalChange gc.2]) cs.

Lemma changes_run cs : ∀ s,
  wf s → active s = true → isRemoteUpdateRef s = false →
  Forall (λ gc, hasChanges gc.2 = true) cs →
  updates (run (changeTrace cs) s)
  = updates s ++ (CanvasUpdate projectId <$> cs.*2).
Proof.
  induction cs as [|[g c] cs IH]; intros s Hwf Ha Hf Hall.
  - change (run (changeTrace []) s) with s.
    change ([].*2) with (@nil Changes). by rewrite fmap_nil, app_nil_r.
  - apply Forall_cons in Hall as [Hc Hall]. cbn [snd] in Hc.
    change (changeTrace ((g, c) :: cs))
      with ((replicate g EvTick ++ [EvLocalChange c]) ++ changeTrace cs).
    rewrite !run_concat, run_ticks.
    change (run [EvLocalChange c] (advance g s))
      with (step (EvLocalChange c) (advance g s)).
    destruct (steady_advance g s) as (Ha1 & _ & _ & _ & _ & Hu1 & Hf1).
    destruct (localChange_arms c (advance g s))
      as ((Hwf2 & Ha2 & Hf2 & _) & _ & Hu2 & _);
      [by apply wf_advance|congruence|by apply Hf1|done|].
    rewrite (IH _ Hwf2 Ha2 Hf2 Hall), Hu2, Hu1.
    change (((g, c) :: cs).*2) with (c :: cs.*2).
    by rewrite fmap_cons, <- app_assoc.
Qed.

(** C6, as amended.  In any state the component can reach with its effects
    set up: a burst of N >= 1 pointer moves whose consecutive gaps are all
    shorter than 100 ms, with nothing else happening, makes the component
    send nothing until 100 ms have passed since the last move, and exactly
    one [canvas:cursor] then, which carries the pointer position of the last
    move.  Changes of the canvas document are not coalesced: outside an echo
    window, each change with a non-empty change set is broadcast in a
    [canvas:update] of its own, in order, however short the gaps. *)
Theorem cursor_debounced (tr : list Event) (p1 : Point)
    (rest : list (nat * Point)) (n : nat) (cs : list (nat * Changes)) :
  active (run tr init) = true →
  Forall (λ gp, gp.1 < cursorDelayMs) rest →
  emitted (advance n (run (EvPointerMove p1 :: moveTrace rest) (run tr init)))
  = emitted (run tr init)
    ++ (if cursorDelayMs <=? n
        then [CanvasCursor projectId (List.last rest.*2 p1)] else [])
  ∧ (isRemoteUpdateRef (run tr init) = false →
     Forall (λ gc, hasChanges gc.2 = true) cs →
     updates (run (changeTrace cs) (run tr init))
     = updates (run tr init) ++ (CanvasUpdate projectId <$> cs.*2)).
Proof.
  intros Ha Hall.
  pose proof (wf_reachable tr) as Hwf.
  set (s := run tr init) in *. clearbody s. split.
  - change (run (EvPointerMove p1 :: moveTrace rest) s)
      with (run (moveTrace rest) (step (EvPointerMove p1) s)).
    destruct (pointerMove_arms p1 s Hwf Ha) as (Harm1 & Hp1 & He1).
    destruct (moves_run rest _ p1 Harm1 Hp1 Hall) as (Harm2 & Hp2 & He2).
    destruct Harm2 as (_ & _ & id & Hk).
    rewrite (cursor_armed_emitted n _ id cursorDelayMs Hk)
      by (unfold cursorDelayMs; lia).
    rewrite He2, He1. f_equal. unfold cursorEmit. by rewrite Hp2.
  - intros Hf Hcs. by apply changes_run.
Qed.

(** *** The echo window *)

Lemma flag_quiet s :
  filter (λ t, remaining t = 0)
    (elapse <$> ofKind ClearRemoteFlag (timers s)) = [] →
  isRemoteUpdateRef (tick s) = isRemoteUpdateRef s.
Proof. intros Hq. rewrite tick_flag, Hq. done. Qed.

(** When no earlier echo window is still open, the flag raised by an incoming
    [canvas:update] stays up for the whole 100 ms that follow, so every change
    notification in that time is dropped. *)
Lemma flag_held_for_window data notified s n c :
  ofKind ClearRemoteFlag (timers s) = [] → n < remoteFlagDelayMs →
  isRemoteUpdateRef (advance n (handleCanvasUpdate data notified s)) = true
  ∧ handleChange c (advance n (handleCanvasUpdate data notified s))
    = advance n (handleCanvasUpdate data notified s).
Proof.
  intros Hk Hn.
  assert (Hu : handleCanvasUpdate data notified s
               = (setTimeout ClearRemoteFlag remoteFlagDelayMs
                   (set_editor (applyRemote data <$> editor s)
                      (set_isRemoteUpdateRef true s))).2).
  { unfold Canvas.handleCanvasUpdate.
    by rewrite handleChange_all_suppressed. }
  assert (Hk' : ofKind ClearRemoteFlag (timers (handleCanvasUpdate data notified s))
                = [mkTimer (nextTimer s) remoteFlagDelayMs ClearRemoteFlag]).
  { rewrite Hu. cbn [setTimeout snd timers set_nextTimer set_timers set_editor
                     set_isRemoteUpdateRef].
    unfold ofKind. rewrite filter_app. fold (ofKind ClearRemoteFlag (timers s)).
    by rewrite Hk. }
  destruct (advance_wait ClearRemoteFlag isRemoteUpdateRef flag_quiet n _ _ _
              Hk' Hn) as [_ Hflag].
  assert (Hup : isRemoteUpdateRef (advance n (handleCanvasUpdate data notified s))
                = true).
  { rewrite Hflag, Hu. done. }
  split; [done|]. by apply handleChange_suppressed.
Qed.

End Properties.

(** *** Concrete runs *)

Definition shape1 : TLRecord := mkRecord "shape:1" "rectangle".
Definition shape2 : TLRecord := mkRecord "shape:2" "ellipse".
Definition shape9 : TLRecord := mkRecord "shape:9" "arrow".

Definition draw1 : Changes := mkChanges [("shape:1", shape1)] [] [].
Definition draw2 : Changes := mkChanges [("shape:2", shape2)] [] [].
Definition noChange : Changes := mkChanges [] [] [].
Definition remote9 : UpdateData := mkData (Some [("shape:9", shape9)]) None None.

(** The component of project "proj-1" with an empty canvas. *)
Definition mounted : list Event := [EvEditorMount ∅].

(** A local change, then 3 seconds: the save request is in flight. *)
Definition saving : list Event :=
  [EvEditorMount ∅; EvLocalChange draw1] ++ replicate 3000 EvTick.

Lemma one_save_in_flight_witness :
  inFlight (run "proj-1" saving init) = 1
  ∧ inFlight (run "proj-1" mounted init) ≤ 1
  ∧ saveCanvasState (run "proj-1" saving init) = run "proj-1" saving init.
Proof.
  assert (H : inFlight (run "proj-1" saving init) = 1)
    by (vm_compute; reflexivity).
  split; [exact H|].
  destruct (one_save_in_flight "proj-1" mounted saving (or_introl H))
    as (H1 & _ & H3).
  split; [exact H1|exact H3].
Defined.

Lemma empty_changes_ignored_witness :
  handleChange "proj-1" noChange (run "proj-1" mounted init)
    = run "proj-1" mounted init
  ∧ emitted (handleChange "proj-1" draw1 (run "proj-1" mounted init))
    = emitted (run "proj-1" mounted init) ++ [CanvasUpdate "proj-1" draw1]
  ∧ saveTimeoutRef (handleChange "proj-1" draw1 (run "proj-1" mounted init))
    = Some (nextTimer (run "proj-1" mounted init))
  ∧ mkTimer (nextTimer (run "proj-1" mounted init)) saveDelayMs RunSave
    ∈ timers (handleChange "proj-1" draw1 (run "proj-1" mounted init)).
Proof.
  apply (empty_changes_ignored "proj-1" noChange draw1).
  - reflexivity.
  - reflexivity.
  - reflexivity.
  - left. discriminate.
  - reflexivity.
Defined.

(** The save of a first change is in flight when a burst of two changes,
    1200 ms apart, begins; it settles 2 s after the burst. *)
Definition afterSecond : list Event :=
  replicate 2000 EvTick ++ [EvSaveSettled] ++ replicate 999 EvTick.

Lemma save_debounced_witness :
  active (run "proj-1" saving init) = true
  ∧ isRemoteUpdateRef (run "proj-1" saving init) = false
  ∧ Forall (λ gc, shortGap gc.1 ∧ hasChanges gc.2 = true)
      [(replicate 1200 EvTick, draw2)]
  ∧ Forall (λ e, isIdle e = true) afterSecond
  ∧ ticks afterSecond = saveDelayMs - 1
  ∧ ∃ st, editor (run "proj-1" saving init) = Some st
    ∧ editor (run "proj-1"
                (EvLocalChange draw1
                 :: burstTrace [(replicate 1200 EvTick, draw2)])
                (run "proj-1" saving init))
      = Some (applyAll (draw1 :: [(replicate 1200 EvTick, draw2)].*2) st)
    ∧ updates (run "proj-1"
                 (EvLocalChange draw1
                  :: burstTrace [(replicate 1200 EvTick, draw2)])
                 (run "proj-1" saving init))
      = updates (run "proj-1" saving init)
        ++ (CanvasUpdate "proj-1"
              <$> draw1 :: [(replicate 1200 EvTick, draw2)].*2)
    ∧ (∀ w, w `prefix_of` afterSecond →
         requests (run "proj-1" w
                     (run "proj-1"
                        (EvLocalChange draw1
                         :: burstTrace [(replicate 1200 EvTick, draw2)])
                        (run "proj-1" saving init)))
         = requests (run "proj-1" saving init))
    ∧ requests (run "proj-1" (afterSecond ++ EvTick :: replicate 5000 EvTick)
                  (run "proj-1"
                     (EvLocalChange draw1
                      :: burstTrace [(replicate 1200 EvTick, draw2)])
                     (run "proj-1" saving init)))
      = requests (run "proj-1" saving init)
        ++ (if isSavingRef
                 (run "proj-1" afterSecond
                    (run "proj-1"
                       (EvLocalChange draw1
                        :: burstTrace [(replicate 1200 EvTick, draw2)])
                       (run "proj-1" saving init)))
            then []
            else [snapshot
                    (applyAll (draw1 :: [(replicate 1200 EvTick, draw2)].*2)
                       st)]).
Proof.
  assert (Hidle : ∀ k, Forall (λ e, isIdle e = true) (replicate k EvTick)).
  { intros k. apply Forall_forall. by intros e [-> _]%elem_of_replicate. }
  assert (Hticks : ∀ k, ticks (replicate k EvTick) = k).
  { induction k as [|k IH]; [done|].
    change (replicate (S k) EvTick) with (EvTick :: replicate k EvTick).
    by rewrite ticks_cons, IH. }
  assert (H1 : active (run "proj-1" saving init) = true)
    by (vm_compute; reflexivity).
  assert (H2 : isRemoteUpdateRef (run "proj-1" saving init) = false)
    by (vm_compute; reflexivity).
  assert (H3 : Forall (λ gc : list Event * Changes,
                  shortGap gc.1 ∧ hasChanges gc.2 = true)
                 [(replicate 1200 EvTick, draw2)]).
  { constructor; [|constructor]. split; [|reflexivity]. split; [apply Hidle|].
    cbn [fst]. rewrite Hticks. unfold saveDelayMs. lia. }
  assert (H4 : Forall (λ e, isIdle e = true) afterSecond).
  { unfold afterSecond. apply Forall_app. split; [apply Hidle|].
    apply Forall_app. split; [by repeat constructor|apply Hidle]. }
  assert (H5 : ticks afterSecond = saveDelayMs - 1).
  { unfold afterSecond. rewrite !ticks_app, !Hticks. reflexivity. }
  split; [exact H1|]. split; [exact H2|]. split; [exact H3|].
  split; [exact H4|]. split; [exact H5|].
  exact (save_debounced "proj-1" saving draw1
           [(replicate 1200 EvTick, draw2)] afterSecond
           (replicate 5000 EvTick) H1 H2 eq_refl H3 H4 H5 (Hidle 5000)).
Defined.

(** A burst begun while an earlier save is in flight: when that save has
    settled before the 3 seconds are over, the burst is saved; when it has
    not, the burst is not saved, not even later. *)
Example save_debounced_settled :
  requests (run "proj-1"
    (saving ++ EvLocalChange draw2 :: afterSecond ++ [EvTick]) init)
  = [snapshot (applyLocal draw1 ∅);
     snapshot (applyAll [draw1; draw2] ∅)]
  ∧ requests (run "proj-1"
      (saving ++ EvLocalChange draw2 :: replicate 3000 EvTick
       ++ [EvSaveSettled] ++ replicate 3000 EvTick) init)
    = [snapshot (applyLocal draw1 ∅)].
Proof. split; vm_compute; reflexivity. Qed.

Example save_debounced_run :
  requests (run "proj-1"
    (mounted ++ EvLocalChange draw1
     :: burstTrace [(replicate 1200 EvTick, draw2)]
     ++ replicate 2999 EvTick) init) = []
  ∧ requests (run "proj-1"
    (mounted ++ EvLocalChange draw1
     :: burstTrace [(replicate 1200 EvTick, draw2)]
     ++ replicate 3000 EvTick) init)
    = [snapshot (applyAll [draw1; draw2] ∅)].
Proof. split; vm_compute; reflexivity. Qed.

(** C5, as stated, fails on the component.  A local mutation 50 ms after an
    incoming [canvas:update] is neither broadcast nor saved, since
    [handleChange] returns while the echo flag is up.  And a mutation made
    while the save of an earlier burst is still in flight has its save
    attempt dropped by [saveCanvasState]: 3 seconds after it, and later, the
    only request made is the one of the earlier burst. *)
Lemma save_debounce_fails :
  hasChanges draw1 = true
  ∧ updates (run "proj-1"
      ([EvEditorMount ∅; EvCanvasUpdate remote9 []] ++ replicate 50 EvTick
       ++ [EvLocalChange draw1] ++ replicate 3000 EvTick) init) = []
  ∧ requests (run "proj-1"
      ([EvEditorMount ∅; EvCanvasUpdate remote9 []] ++ replicate 50 EvTick
       ++ [EvLocalChange draw1] ++ replicate 3000 EvTick) init) = []
  ∧ hasChanges draw2 = true
  ∧ requests (run "proj-1"
      (saving ++ [EvLocalChange draw2] ++ replicate 3000 EvTick) init)
    = [snapshot (applyLocal draw1 ∅)]
  ∧ requests (run "proj-1"
      (saving ++ [EvLocalChange draw2] ++ replicate 3000 EvTick
       ++ [EvSaveSettled] ++ replicate 3000 EvTick) init)
    = [snapshot (applyLocal draw1 ∅)].
Proof. repeat split; vm_compute; reflexivity. Qed.

Lemma cursor_debounced_witness :
  active (run "proj-1" mounted init) = true
  ∧ Forall (λ gp : nat * Point, gp.1 < cursorDelayMs)
      [(40, mkPoint 2 2); (40, mkPoint 3 5)]
  ∧ emitted (advance "proj-1" 100
      (run "proj-1"
         (EvPointerMove (mkPoint 1 1)
          :: moveTrace [(40, mkPoint 2 2); (40, mkPoint 3 5)])
         (run "proj-1" mounted init)))
    = emitted (run "proj-1" mounted init)
      ++ [CanvasCursor "proj-1" (mkPoint 3 5)]
  ∧ updates
      (run "proj-1" (changeTrace [(0, draw1); (10, draw2)])
         (run "proj-1" mounted init))
    = updates (run "proj-1" mounted init)
      ++ [CanvasUpdate "proj-1" draw1; CanvasUpdate "proj-1" draw2].
Proof.
  assert (H1 : active (run "proj-1" mounted init) = true) by reflexivity.
  assert (Hgaps : Forall (λ gp : nat * Point, gp.1 < cursorDelayMs)
                    [(40, mkPoint 2 2); (40, mkPoint 3 5)]).
  { constructor; [simpl; unfold cursorDelayMs; lia|].
    constructor; [simpl; unfold cursorDelayMs; lia|]. constructor. }
  split; [exact H1|]. split; [exact Hgaps|].
  destruct (cursor_debounced "proj-1" mounted (mkPoint 1 1)
              [(40, mkPoint 2 2); (40, mkPoint 3 5)] 100
              [(0, draw1); (10, draw2)] H1 Hgaps) as [Hc Hu].
  split; [exact Hc|]. apply Hu; [reflexivity|by repeat constructor].
Defined.

Example cursor_debounced_run :
  emitted (run "proj-1"
    (mounted ++ EvPointerMove (mkPoint 1 1)
     :: moveTrace [(40, mkPoint 2 2); (40, mkPoint 3 5)]
     ++ replicate 99 EvTick) init) = [JoinProject "proj-1"]
  ∧ emitted (run "proj-1"
    (mounted ++ EvPointerMove (mkPoint 1 1)
     :: moveTrace [(40, mkPoint 2 2); (40, mkPoint 3 5)]
     ++ replicate 100 EvTick) init)
    = [JoinProject "proj-1"; CanvasCursor "proj-1" (mkPoint 3 5)].
Proof. split; vm_compute; reflexivity. Qed.

(** C6, as stated, fails on the component for changes of the canvas document:
    two local changes 10 ms apart are broadcast as two [canvas:update]
    events, the first carrying the intermediate state. *)
Lemma canvas_changes_not_coalesced :
  emitted (run "proj-1"
    ([EvEditorMount ∅; EvLocalChange draw1] ++ replicate 10 EvTick
     ++ [EvLocalChange draw2]) init)
  = [JoinProject "proj-1"; CanvasUpdate "proj-1" draw1;
     CanvasUpdate "proj-1" draw2].
Proof. vm_compute. reflexivity. Qed.





(** *** Further properties of the component *)

Section Bookkeeping.

Variable projectId : string.

Local Abbreviation fire := (Canvas.fire projectId).
Local Abbreviation tick := (Canvas.tick projectId).
Local Abbreviation advance := (Canvas.advance projectId).
Local Abbreviation step := (Canvas.step projectId).
Local Abbreviation run := (Canvas.run projectId).
Local Abbreviation handleChange := (Canvas.handleChange projectId).
Local Abbreviation handleCanvasUpdate := (Canvas.handleCanvasUpdate projectId).
Local Abbreviation cleanup := (Canvas.cleanup projectId).

(** **** No timer of the component is ever doubled *)

Lemma ofKind_clearRef_le k ref s :
  length (ofKind k (timers (clearRef ref s))) ≤ length (ofKind k (timers s)).
Proof.
  destruct ref as [id|]; simpl; [|done]. unfold ofKind.
  induction (timers s) as [|t l IH]; [done|].
  rewrite (filter_cons (λ t, tid t ≠ id)).
  destruct (decide (tid t ≠ id)); rewrite !filter_cons;
    destruct (decide (action t = k)); simpl; lia.
Qed.

Lemma ofKind_tick_le k s :
  length (ofKind k (timers (tick s))) ≤ length (ofKind k (timers s)).
Proof.
  rewrite tick_ofKind. etrans; [apply length_filter|]. by rewrite length_fmap.
Qed.

Lemma ofKind_snoc k l t :
  ofKind k (l ++ [t]) = ofKind k l ++ (if decide (action t = k) then [t] else []).
Proof.
  unfold ofKind. rewrite filter_app, filter_cons, filter_nil.
  by destruct (decide (action t = k)).
Qed.

(** At most one save timer and at most one cursor timer are pending. *)
Definition single (s : State) : Prop :=
  length (ofKind RunSave (timers s)) ≤ 1
  ∧ length (ofKind BroadcastCursor (timers s)) ≤ 1.

Lemma single_handleChange c s :
  wf s → single s → single (handleChange c s).
Proof.
  intros Hwf [Hs Hc]. destruct (isRemoteUpdateRef s) eqn:Hf.
  { by rewrite handleChange_suppressed. }
  destruct (hasChanges c) eqn:Hh; [|by rewrite handleChange_empty].
  rewrite handleChange_fresh by done. unfold single.
  rewrite broadcastAndArm_timers, !ofKind_snoc.
  rewrite ofKind_clearRef_save by done.
  rewrite decide_True by done. rewrite decide_False by done.
  rewrite app_nil_r. split; [done|].
  etrans; [apply ofKind_clearRef_le|done].
Qed.

Lemma single_handlePointerMove s :
  wf s → single s → single (handlePointerMove s).
Proof.
  intros Hwf [Hs Hc]. rewrite handlePointerMove_unfold. unfold single.
  cbn [timers set_cursorTimeout set_nextTimer set_timers].
  rewrite !ofKind_snoc. rewrite ofKind_clearRef_cursor by done.
  rewrite decide_False by done. rewrite decide_True by done.
  rewrite app_nil_r. split; [|done].
  etrans; [apply ofKind_clearRef_le|done].
Qed.

Lemma single_frame s s' : timers s' = timers s → single s → single s'.
Proof. unfold single. by intros ->. Qed.

Lemma single_step e s : wf s → single s → single (step e s).
Proof.
  intros Hwf Hone. pose proof Hone as [Hs Hc]. destruct e; cbn [Canvas.step].
  - destruct (active s); [done|]. by apply (single_frame s).
  - destruct (active s); [|done]. unfold Canvas.cleanup.
    fold (clearRef (saveTimeoutRef s) s).
    set (s1 := clearRef (saveTimeoutRef s) s).
    fold (clearRef (cursorTimeout s1) s1).
    set (s2 := clearRef (cursorTimeout s1) s1).
    apply (single_frame s2).
    { by destruct (saveCanvasState_frame
        (emit (LeaveProject projectId) (set_active false s2))) as (-> & _). }
    split.
    + etrans; [apply ofKind_clearRef_le|]. etrans; [apply ofKind_clearRef_le|done].
    + etrans; [apply ofKind_clearRef_le|]. etrans; [apply ofKind_clearRef_le|done].
  - destruct (active s); [|done].
    apply single_handleChange; [by apply wf_set_editor|by apply (single_frame s)].
  - destruct (active s); [|done]. by apply single_handleChange.
  - destruct (active s); [|done]. unfold Canvas.handleCanvasUpdate.
    rewrite handleChange_all_suppressed by done. unfold single.
    cbn [setTimeout snd timers set_nextTimer set_timers set_editor
         set_isRemoteUpdateRef].
    rewrite !ofKind_snoc, !decide_False by done. by rewrite !app_nil_r.
  - destruct (active s); [|done]. apply single_handlePointerMove.
    + by apply (wf_shrink s).
    + by apply (single_frame s).
  - unfold saveSettled. destruct (inFlight s); [done|]. by apply (single_frame s).
  - split; (etrans; [apply ofKind_tick_le|done]).
Qed.

(** X1. In every state the component can reach, at most one debounced save
    and at most one debounced cursor broadcast are pending, however many
    changes and pointer moves came before. *)
Theorem timers_never_doubled (tr : list Event) :
  length (ofKind RunSave (timers (run tr init))) ≤ 1
  ∧ length (ofKind BroadcastCursor (timers (run tr init))) ≤ 1.
Proof.
  assert (H : wf (run tr init) ∧ single (run tr init)); [|by destruct H].
  induction tr as [|e tr IH] using rev_ind.
  - split; [apply wf_init|]. split; simpl; lia.
  - rewrite run_concat. destruct IH as [Hwf Hone].
    split; [by apply wf_step|by apply single_step].
Qed.

(** **** The echo flag cannot stay raised *)

(** Timer ids are handed out once: every live timer and every id held in a
    ref is older than the next id; no echo timer has the id a ref holds;
    every echo timer runs within 100 ms; and a raised flag has an echo timer
    pending. *)
Definition flagTimed (s : State) : Prop :=
  (∀ t, t ∈ timers s → tid t < nextTimer s)
  ∧ (∀ i, saveTimeoutRef s = Some i → i < nextTimer s)
  ∧ (∀ i, cursorTimeout s = Some i → i < nextTimer s)
  ∧ (∀ t, t ∈ timers s → action t = ClearRemoteFlag →
          saveTimeoutRef s ≠ Some (tid t))
  ∧ (∀ t, t ∈ timers s → action t = ClearRemoteFlag →
          cursorTimeout s ≠ Some (tid t))
  ∧ (∀ t, t ∈ timers s → action t = ClearRemoteFlag →
          1 ≤ remaining t ≤ remoteFlagDelayMs)
  ∧ (isRemoteUpdateRef s = true →
     ∃ t, t ∈ timers s ∧ action t = ClearRemoteFlag).

Lemma flagTimed_init : flagTimed init.
Proof.
  split; [|split; [|split; [|split; [|split; [|split]]]]]; simpl; try done;
    intros t Ht; by apply elem_of_nil in Ht.
Qed.

Lemma clearRef_keeps ref s t :
  t ∈ timers s → ref ≠ Some (tid t) → t ∈ timers (clearRef ref s).
Proof.
  intros Ht Hne. destruct ref as [id|]; simpl; [|done].
  apply list_elem_of_filter. split; [congruence|done].
Qed.

(** Clearing the timer a ref holds keeps the discipline. *)
Lemma flagTimed_clearSave s :
  flagTimed s → flagTimed (clearRef (saveTimeoutRef s) s).
Proof.
  intros (I1 & I2 & I3 & I4 & I5 & I6 & I7).
  destruct (clearRef_fields (saveTimeoutRef s) s)
    as (Es & Ec & _ & _ & _ & _ & _ & _ & Ef & _ & En).
  split; [|split; [|split; [|split; [|split; [|split]]]]].
  - intros t Ht%clearRef_timers. rewrite En. by apply I1.
  - intros i. rewrite Es, En. apply I2.
  - intros i. rewrite Ec, En. apply I3.
  - intros t Ht%clearRef_timers Ha. rewrite Es. by apply I4.
  - intros t Ht%clearRef_timers Ha. rewrite Ec. by apply I5.
  - intros t Ht%clearRef_timers Ha. by apply I6.
  - rewrite Ef. intros Hf. destruct (I7 Hf) as (t & Ht & Ha).
    exists t. split; [|done]. apply clearRef_keeps; [done|]. by apply I4.
Qed.

Lemma flagTimed_clearCursor s :
  flagTimed s → flagTimed (clearRef (cursorTimeout s) s).
Proof.
  intros (I1 & I2 & I3 & I4 & I5 & I6 & I7).
  destruct (clearRef_fields (cursorTimeout s) s)
    as (Es & Ec & _ & _ & _ & _ & _ & _ & Ef & _ & En).
  split; [|split; [|split; [|split; [|split; [|split]]]]].
  - intros t Ht%clearRef_timers. rewrite En. by apply I1.
  - intros i. rewrite Es, En. apply I2.
  - intros i. rewrite Ec, En. apply I3.
  - intros t Ht%clearRef_timers Ha. rewrite Es. by apply I4.
  - intros t Ht%clearRef_timers Ha. rewrite Ec. by apply I5.
  - intros t Ht%clearRef_timers Ha. by apply I6.
  - rewrite Ef. intros Hf. destruct (I7 Hf) as (t & Ht & Ha).
    exists t. split; [|done]. apply clearRef_keeps; [done|]. by apply I5.
Qed.

(** A state that differs from a disciplined one only in fields the
    discipline does not mention, the flag being no higher. *)
Lemma flagTimed_frame s s' :
  flagTimed s →
  timers s' = timers s → nextTimer s' = nextTimer s →
  saveTimeoutRef s' = saveTimeoutRef s → cursorTimeout s' = cursorTimeout s →
  (isRemoteUpdateRef s' = true → isRemoteUpdateRef s = true) →
  flagTimed s'.
Proof.
  intros (I1 & I2 & I3 & I4 & I5 & I6 & I7) Et En Es Ec Ef.
  unfold flagTimed. rewrite Et, En, Es, Ec.
  split; [done|]. split; [done|]. split; [done|]. split; [done|].
  split; [done|]. split; [done|]. intros Hf. by apply I7, Ef.
Qed.

(** A save or cursor timer is started and its id stored in the ref. *)
Lemma flagTimed_arm_save s :
  flagTimed s →
  flagTimed (set_saveTimeoutRef (Some (nextTimer s))
               (setTimeout RunSave saveDelayMs s).2).
Proof.
  intros (I1 & I2 & I3 & I4 & I5 & I6 & I7).
  split; [|split; [|split; [|split; [|split; [|split]]]]]; simpl.
  - intros t [Ht| ->%list_elem_of_singleton]%elem_of_app; simpl; [|lia].
    specialize (I1 t Ht). lia.
  - intros i [= <-]. lia.
  - intros i Hi. specialize (I3 i Hi). lia.
  - intros t [Ht| ->%list_elem_of_singleton]%elem_of_app Ha; [|done].
    specialize (I1 t Ht). intros [= Heq]. lia.
  - intros t [Ht| ->%list_elem_of_singleton]%elem_of_app Ha; [|done].
    by apply I5.
  - intros t [Ht| ->%list_elem_of_singleton]%elem_of_app Ha; [|done].
    by apply I6.
  - intros Hf. destruct (I7 Hf) as (t & Ht & Ha). exists t.
    split; [|done]. apply elem_of_app. by left.
Qed.

Lemma flagTimed_arm_cursor s :
  flagTimed s →
  flagTimed (set_cursorTimeout (Some (nextTimer s))
               (setTimeout BroadcastCursor cursorDelayMs s).2).
Proof.
  intros (I1 & I2 & I3 & I4 & I5 & I6 & I7).
  split; [|split; [|split; [|split; [|split; [|split]]]]]; simpl.
  - intros t [Ht| ->%list_elem_of_singleton]%elem_of_app; simpl; [|lia].
    specialize (I1 t Ht). lia.
  - intros i Hi. specialize (I2 i Hi). lia.
  - intros i [= <-]. lia.
  - intros t [Ht| ->%list_elem_of_singleton]%elem_of_app Ha; [|done].
    by apply I4.
  - intros t [Ht| ->%list_elem_of_singleton]%elem_of_app Ha; [|done].
    specialize (I1 t Ht). intros [= Heq]. lia.
  - intros t [Ht| ->%list_elem_of_singleton]%elem_of_app Ha; [|done].
    by apply I6.
  - intros Hf. destruct (I7 Hf) as (t & Ht & Ha). exists t.
    split; [|done]. apply elem_of_app. by left.
Qed.

Lemma flagTimed_handleChange c s : flagTimed s → flagTimed (handleChange c s).
Proof.
  intros Hinv. destruct (isRemoteUpdateRef s) eqn:Hf.
  { by rewrite handleChange_suppressed. }
  destruct (hasChanges c) eqn:Hh; [|by rewrite handleChange_empty].
  rewrite handleChange_fresh by done. unfold broadcastAndArm.
  cbn [saveTimeoutRef emit].
  assert (H0 : flagTimed (emit (CanvasUpdate projectId c) s))
    by by apply (flagTimed_frame s).
  apply flagTimed_clearSave in H0. cbn [saveTimeoutRef emit] in H0.
  by apply flagTimed_arm_save in H0.
Qed.

Lemma saveCanvasState_flag s :
  isRemoteUpdateRef (saveCanvasState s) = isRemoteUpdateRef s.
Proof.
  unfold Canvas.saveCanvasState. destruct (editor s); [|done].
  by destruct (isSavingRef s).
Qed.

Lemma flagTimed_saveCanvasState s : flagTimed s → flagTimed (saveCanvasState s).
Proof.
  intros Hinv.
  destruct (saveCanvasState_frame s) as (Et & En & Es & Ec & _).
  apply (flagTimed_frame s); try done. by rewrite saveCanvasState_flag.
Qed.

Lemma stillLive_elem s t' :
  t' ∈ stillLive s →
  ∃ t, t ∈ timers s ∧ t' = elapse t ∧ remaining t - 1 ≠ 0.
Proof.
  unfold stillLive. intros [Hlive Hin]%list_elem_of_filter.
  apply list_elem_of_fmap in Hin as (t & -> & Hin). eauto.
Qed.

Lemma flagTimed_tick s : flagTimed s → flagTimed (tick s).
Proof.
  intros (I1 & I2 & I3 & I4 & I5 & I6 & I7).
  destruct (tick_frame projectId s) as (En & Es & Ec & _).
  unfold flagTimed. rewrite tick_timers, En, Es, Ec.
  split; [|split; [|split; [|split; [|split; [|split]]]]]; try done.
  - intros t' (t & Ht & -> & _)%stillLive_elem. exact (I1 t Ht).
  - intros t' (t & Ht & -> & _)%stillLive_elem Ha. exact (I4 t Ht Ha).
  - intros t' (t & Ht & -> & _)%stillLive_elem Ha. exact (I5 t Ht Ha).
  - intros t' (t & Ht & -> & Hlive)%stillLive_elem Ha.
    specialize (I6 t Ht Ha). simpl. lia.
  - rewrite tick_flag.
    destruct (decide (filter (λ t, remaining t = 0)
                (elapse <$> ofKind ClearRemoteFlag (timers s)) = []))
      as [Hnone|]; [|done].
    intros Hf. destruct (I7 Hf) as (t & Ht & Ha).
    exists (elapse t). split; [|done].
    unfold stillLive. apply list_elem_of_filter. split.
    + intros Hdue.
      assert (Hin : elapse t ∈ filter (λ t, remaining t = 0)
                      (elapse <$> ofKind ClearRemoteFlag (timers s))).
      { apply list_elem_of_filter. split; [done|].
        apply list_elem_of_fmap. exists t. split; [done|].
        by apply list_elem_of_filter. }
      rewrite Hnone in Hin. by apply elem_of_nil in Hin.
    + apply list_elem_of_fmap. eauto.
Qed.

Lemma flagTimed_step e s : flagTimed s → flagTimed (step e s).
Proof.
  intros Hinv. destruct e; cbn [Canvas.step].
  - destruct (active s); [done|].
    destruct Hinv as (I1 & I2 & I3 & I4 & I5 & I6 & I7).
    split; [|split; [|split; [|split; [|split; [|split]]]]]; simpl; try done.
  - destruct (active s); [|done]. unfold Canvas.cleanup.
    fold (clearRef (saveTimeoutRef s) s).
    set (s1 := clearRef (saveTimeoutRef s) s).
    fold (clearRef (cursorTimeout s1) s1).
    apply flagTimed_saveCanvasState.
    apply (flagTimed_frame (clearRef (cursorTimeout s1) s1)); try done.
    by apply flagTimed_clearCursor, flagTimed_clearSave.
  - destruct (active s); [|done]. apply flagTimed_handleChange.
    by apply (flagTimed_frame s).
  - destruct (active s); [|done]. by apply flagTimed_handleChange.
  - destruct (active s); [|done]. unfold Canvas.handleCanvasUpdate.
    rewrite handleChange_all_suppressed by done.
    destruct Hinv as (I1 & I2 & I3 & I4 & I5 & I6 & I7).
    split; [|split; [|split; [|split; [|split; [|split]]]]]; simpl.
    + intros t [Ht| ->%list_elem_of_singleton]%elem_of_app; simpl; [|lia].
      specialize (I1 t Ht). lia.
    + intros i Hi. specialize (I2 i Hi). lia.
    + intros i Hi. specialize (I3 i Hi). lia.
    + intros t [Ht| ->%list_elem_of_singleton]%elem_of_app Ha; [by apply I4|].
      simpl. intros Hi. specialize (I2 _ Hi). lia.
    + intros t [Ht| ->%list_elem_of_singleton]%elem_of_app Ha; [by apply I5|].
      simpl. intros Hi. specialize (I3 _ Hi). lia.
    + intros t [Ht| ->%list_elem_of_singleton]%elem_of_app Ha; [by apply I6|].
      simpl. unfold remoteFlagDelayMs. lia.
    + intros _. eexists. split; [apply elem_of_app; right; by left|done].
  - destruct (active s); [|done]. rewrite handlePointerMove_unfold.
    set (s0 := set_currentPagePoint (Some pt) s).
    assert (H0 : flagTimed s0) by by apply (flagTimed_frame s).
    apply flagTimed_clearCursor in H0.
    by apply flagTimed_arm_cursor in H0.
  - unfold saveSettled. destruct (inFlight s); [done|].
    by apply (flagTimed_frame s).
  - by apply flagTimed_tick.
Qed.

Lemma flagTimed_reachable tr : flagTimed (run tr init).
Proof.
  induction tr as [|e tr IH] using rev_ind; [apply flagTimed_init|].
  rewrite run_concat. by apply flagTimed_step.
Qed.

(** X2. In every state the component can reach, 100 ms without any event
    bring the echo flag down: local changes are held back for at most 100 ms
    after the last incoming [canvas:update]. *)
Theorem echo_flag_never_stuck (tr : list Event) :
  isRemoteUpdateRef (advance remoteFlagDelayMs (run tr init)) = false.
Proof.
  pose proof (flagTimed_reachable tr) as (_ & _ & _ & _ & _ & I6 & I7).
  set (s := run tr init) in *. clearbody s.
  destruct (isRemoteUpdateRef s) eqn:Hf.
  - destruct (I7 eq_refl) as ([id r a] & Ht & Ha). simpl in Ha. subst a.
    specialize (I6 _ Ht eq_refl). simpl in I6.
    replace remoteFlagDelayMs with (r + (remoteFlagDelayMs - r)) by lia.
    rewrite advance_add.
    destruct (steady_advance projectId (remoteFlagDelayMs - r) (advance r s))
      as (_ & _ & _ & _ & _ & _ & Hdown).
    apply Hdown. apply (flag_cleared_when_due projectId r s id); [done|lia].
  - by destruct (steady_advance projectId remoteFlagDelayMs s)
      as (_ & _ & _ & _ & _ & _ & ->).
Qed.

(** **** Unmount *)

Lemma ofKind_clearRef_nil k ref s :
  ofKind k (timers s) = [] → ofKind k (timers (clearRef ref s)) = [].
Proof.
  intros Hk. pose proof (ofKind_clearRef_le k ref s) as Hle.
  rewrite Hk in Hle. simpl in Hle.
  destruct (ofKind k (timers (clearRef ref s))); [done|]. simpl in Hle. lia.
Qed.

Lemma wf_clearRef ref s : wf s → wf (clearRef ref s).
Proof.
  intros Hwf.
  destruct (clearRef_fields ref s) as (Es & Ec & En & Eb & Ea & Ee & _).
  apply (wf_shrink s); try done.
  - intros t. apply clearRef_timers.
  - by rewrite Ee.
Qed.

Lemma requests_saveCanvasState s :
  requests (saveCanvasState s) = requests s ++ saveAttempt s.
Proof. apply requests_saveStep, saveView_saveCanvasState. Qed.

Lemma cleanup_timers s :
  timers (cleanup s)
  = timers (clearRef (cursorTimeout (clearRef (saveTimeoutRef s) s))
              (clearRef (saveTimeoutRef s) s)).
Proof.
  set (s2 := clearRef (cursorTimeout (clearRef (saveTimeoutRef s) s))
               (clearRef (saveTimeoutRef s) s)).
  change (cleanup s)
    with (saveCanvasState (emit (LeaveProject projectId) (set_active false s2))).
  by destruct (saveCanvasState_frame
       (emit (LeaveProject projectId) (set_active false s2))) as (-> & _).
Qed.

(** X3. When the component is unmounted in a state it can reach, it sends
    [leave-project] and makes one last save attempt at once, which posts the
    store unless a save is still in flight; the pending save and cursor
    timers are cancelled, so however much time passes afterwards, nothing
    more is sent and no further save is issued. *)
Theorem unmount_is_final (tr : list Event) (n : nat) :
  active (run tr init) = true →
  emitted (step EvUnmount (run tr init))
    = emitted (run tr init) ++ [LeaveProject projectId]
  ∧ requests (step EvUnmount (run tr init))
    = requests (run tr init) ++ saveAttempt (run tr init)
  ∧ emitted (advance n (step EvUnmount (run tr init)))
    = emitted (step EvUnmount (run tr init))
  ∧ requests (advance n (step EvUnmount (run tr init)))
    = requests (step EvUnmount (run tr init)).
Proof.
  intros Ha. pose proof (wf_reachable projectId tr) as Hwf.
  set (s := run tr init) in *. clearbody s.
  cbn [Canvas.step]. rewrite Ha.
  set (s1 := clearRef (saveTimeoutRef s) s).
  set (s2 := clearRef (cursorTimeout s1) s1).
  assert (Hwf1 : wf s1) by by apply wf_clearRef.
  destruct (clearRef_fields (saveTimeoutRef s) s)
    as (_ & _ & _ & Eb1 & _ & Ee1 & Em1 & Er1 & _).
  destruct (clearRef_fields (cursorTimeout s1) s1)
    as (_ & _ & _ & Eb2 & _ & Ee2 & Em2 & Er2 & _).
  fold s1 in Eb1, Ee1, Em1, Er1. fold s2 in Eb2, Ee2, Em2, Er2.
  assert (Hsave : ofKind RunSave (timers (cleanup s)) = []).
  { rewrite cleanup_timers. apply ofKind_clearRef_nil.
    by apply ofKind_clearRef_save. }
  assert (Hcur : ofKind BroadcastCursor (timers (cleanup s)) = []).
  { rewrite cleanup_timers. by apply ofKind_clearRef_cursor. }
  assert (Hunf : cleanup s
    = saveCanvasState (emit (LeaveProject projectId) (set_active false s2)))
    by reflexivity.
  split; [|split; [|split]].
  - rewrite Hunf.
    pose proof (emitted_fire projectId RunSave
                  (emit (LeaveProject projectId) (set_active false s2))) as He.
    rewrite decide_False in He by done. rewrite app_nil_r in He.
    cbn [Canvas.fire] in He. rewrite He. cbn [emitted emit set_active].
    by rewrite Em2, Em1.
  - rewrite Hunf, requests_saveCanvasState.
    cbn [requests emit set_active]. rewrite Er2, Er1. f_equal.
    unfold saveAttempt. cbn [editor isSavingRef emit set_active].
    by rewrite Ee2, Ee1, Eb2, Eb1.
  - by destruct (advance_none projectId BroadcastCursor emitted
                   (emitted_quiet projectId) n _ Hcur) as [_ ->].
  - destruct (advance_none projectId RunSave saveView
                (saveView_quiet projectId) n _ Hsave) as [_ Hv].
    unfold saveView in Hv. by injection Hv as _ _ -> _.
Qed.

End Bookkeeping.

Lemma unmount_is_final_witness :
  active (run "proj-1" saving init) = true
  ∧ emitted (step "proj-1" EvUnmount (run "proj-1" saving init))
    = emitted (run "proj-1" saving init) ++ [LeaveProject "proj-1"]
  ∧ requests (step "proj-1" EvUnmount (run "proj-1" saving init))
    = requests (run "proj-1" saving init)
      ++ saveAttempt (run "proj-1" saving init)
  ∧ emitted (advance "proj-1" 5000
               (step "proj-1" EvUnmount (run "proj-1" saving init)))
    = emitted (step "proj-1" EvUnmount (run "proj-1" saving init))
  ∧ requests (advance "proj-1" 5000
                (step "proj-1" EvUnmount (run "proj-1" saving init)))
    = requests (step "proj-1" EvUnmount (run "proj-1" saving init)).
Proof.
  assert (H : active (run "proj-1" saving init) = true)
    by (vm_compute; reflexivity).
  split; [exact H|].
  exact (unmount_is_final "proj-1" saving 5000 H).
Defined.

(** *** What the component sends *)

(** The project an emitted event names. *)
Definition addressee (e : Emit) : string :=
  match e with
  | CanvasUpdate p _ | CanvasCursor p _ | JoinProject p | LeaveProject p => p
  end.

Section Traffic.

Variable projectId : string.

Local Abbreviation tick := (Canvas.tick projectId).
Local Abbreviation step := (Canvas.step projectId).
Local Abbreviation run := (Canvas.run projectId).
Local Abbreviation handleChange := (Canvas.handleChange projectId).
Local Abbreviation handleCanvasUpdate := (Canvas.handleCanvasUpdate projectId).
Local Abbreviation cleanup := (Canvas.cleanup projectId).

(** A [canvas:update] or [canvas:cursor] of this project. *)
Definition broadcast (e : Emit) : Prop :=
  (∃ c, e = CanvasUpdate projectId c) ∨ (∃ pt, e = CanvasCursor projectId pt).

Definition joinCount (s : State) : nat :=
  occurrences (JoinProject projectId) (emitted s).

Definition leaveCount (s : State) : nat :=
  occurrences (LeaveProject projectId) (emitted s).

(** All that has been sent names this project, and the component has joined
    the room once more than it has left it exactly while its effects are
    set up. *)
Definition inRoom (s : State) : Prop :=
  Forall (λ e, addressee e = projectId) (emitted s)
  ∧ joinCount s = leaveCount s + (if active s then 1 else 0).

(** [s'] differs from [s], as far as the socket is concerned, by broadcasts
    of this project. *)
Definition onlyBroadcasts (s s' : State) : Prop :=
  ∃ l, emitted s' = emitted s ++ l ∧ Forall broadcast l ∧ active s' = active s.

Lemma onlyBroadcasts_refl s : onlyBroadcasts s s.
Proof. exists []. by rewrite app_nil_r. Qed.

Lemma onlyBroadcasts_trans s1 s2 s3 :
  onlyBroadcasts s1 s2 → onlyBroadcasts s2 s3 → onlyBroadcasts s1 s3.
Proof.
  intros (l1 & E1 & F1 & A1) (l2 & E2 & F2 & A2). exists (l1 ++ l2).
  rewrite E2, E1, <- app_assoc. split; [done|]. split; [|congruence].
  by apply Forall_app.
Qed.

Lemma onlyBroadcasts_same s s' :
  emitted s' = emitted s → active s' = active s → onlyBroadcasts s s'.
Proof. intros E A. exists []. by rewrite app_nil_r. Qed.

Lemma occurrences_broadcast e l :
  Forall broadcast l → ¬ broadcast e → occurrences e l = 0.
Proof.
  intros Hall Hne. apply occurrences_not_in. intros Hin.
  rewrite Forall_forall in Hall. by apply Hne, Hall.
Qed.

Lemma inRoom_onlyBroadcasts s s' : onlyBroadcasts s s' → inRoom s → inRoom s'.
Proof.
  intros (l & E & F & A) [Hall Hbal]. unfold inRoom, joinCount, leaveCount in *.
  rewrite E, A, !occurrences_app. split.
  - apply Forall_app. split; [done|]. eapply Forall_impl; [exact F|].
    by intros e [[c ->]|[pt ->]].
  - rewrite !(occurrences_broadcast _ l F); [lia| |];
      by intros [[c Hc]|[pt Hpt]].
Qed.

Lemma onlyBroadcasts_handleChange c s : onlyBroadcasts s (handleChange c s).
Proof.
  destruct (isRemoteUpdateRef s) eqn:Hf.
  { rewrite handleChange_suppressed by done. apply onlyBroadcasts_refl. }
  destruct (hasChanges c) eqn:Hc.
  - rewrite (handleChange_fresh projectId) by done.
    destruct (broadcastAndArm_fields projectId c s) as (_ & E & _ & _ & A & _).
    exists [CanvasUpdate projectId c]. split; [done|]. split; [|done].
    constructor; [|constructor]. left. by exists c.
  - rewrite handleChange_empty by done. apply onlyBroadcasts_refl.
Qed.

Lemma onlyBroadcasts_notified cs : ∀ s,
  onlyBroadcasts s (fold_left (λ s c, handleChange c s) cs s).
Proof.
  induction cs as [|c cs IH]; intros s; [apply onlyBroadcasts_refl|].
  eapply onlyBroadcasts_trans; [apply (onlyBroadcasts_handleChange c)|apply IH].
Qed.

Lemma onlyBroadcasts_tick s : onlyBroadcasts s (tick s).
Proof.
  eexists. split; [apply tick_emitted|]. split.
  - generalize (length (filter (λ t, remaining t = 0)
                  (elapse <$> ofKind BroadcastCursor (timers s)))).
    intros n. induction n as [|n IH]; [constructor|].
    cbn [replicate concat]. apply Forall_app. split; [|exact IH].
    unfold cursorEmit. destruct (currentPagePoint s) as [pt|]; [|constructor].
    constructor; [|constructor]. right. by exists pt.
  - by destruct (tick_frame projectId s) as (_ & _ & _ & -> & _).
Qed.

Lemma cleanup_emitted s :
  emitted (cleanup s) = emitted s ++ [LeaveProject projectId]
  ∧ active (cleanup s) = false.
Proof.
  set (s1 := clearRef (saveTimeoutRef s) s).
  set (s2 := clearRef (cursorTimeout s1) s1).
  change (cleanup s)
    with (saveCanvasState (emit (LeaveProject projectId) (set_active false s2))).
  destruct (saveCanvasState_frame
              (emit (LeaveProject projectId) (set_active false s2)))
    as (_ & _ & _ & _ & -> & _).
  split; [|done].
  pose proof (emitted_fire projectId RunSave
                (emit (LeaveProject projectId) (set_active false s2))) as He.
  rewrite decide_False in He by done. rewrite app_nil_r in He.
  cbn [Canvas.fire] in He. rewrite He. cbn [emitted emit set_active].
  destruct (clearRef_fields (saveTimeoutRef s) s)
    as (_ & _ & _ & _ & _ & _ & Em1 & _).
  destruct (clearRef_fields (cursorTimeout s1) s1)
    as (_ & _ & _ & _ & _ & _ & Em2 & _).
  fold s1 in Em1. fold s2 in Em2. by rewrite Em2, Em1.
Qed.

Lemma inRoom_step e s : inRoom s → inRoom (step e s).
Proof.
  intros Hin. destruct e; cbn [Canvas.step];
    try (destruct (active s) eqn:Ha; [|exact Hin]).
  - (* the editor mounts *)
    destruct (active s) eqn:Ha; [exact Hin|].
    destruct Hin as [Hall Hbal]. unfold inRoom, joinCount, leaveCount in *.
    cbn [emitted active editorMounted emit set_active set_cursorTimeout
         set_editor]. rewrite Ha in Hbal.
    rewrite !occurrences_app, !occurrences_cons, !occurrences_nil. split.
    + apply Forall_app. split; [done|]. by repeat constructor.
    + rewrite decide_True by done. rewrite decide_False by done. lia.
  - (* unmount *)
    destruct Hin as [Hall Hbal]. unfold inRoom, joinCount, leaveCount in *.
    destruct (cleanup_emitted s) as [-> ->]. rewrite Ha in Hbal.
    rewrite !occurrences_app, !occurrences_cons, !occurrences_nil. split.
    + apply Forall_app. split; [done|]. by repeat constructor.
    + rewrite decide_False by done. rewrite decide_True by done. lia.
  - (* a local change *)
    eapply inRoom_onlyBroadcasts; [|exact Hin].
    eapply onlyBroadcasts_trans; [|apply onlyBroadcasts_handleChange].
    by apply onlyBroadcasts_same.
  - eapply inRoom_onlyBroadcasts; [|exact Hin].
    apply onlyBroadcasts_handleChange.
  - (* a remote update *)
    eapply inRoom_onlyBroadcasts; [|exact Hin].
    unfold Canvas.handleCanvasUpdate.
    set (s1 := set_editor _ (set_isRemoteUpdateRef true s)).
    eapply (onlyBroadcasts_trans _ s1); [by apply onlyBroadcasts_same|].
    eapply onlyBroadcasts_trans; [apply (onlyBroadcasts_notified notified)|].
    by apply onlyBroadcasts_same.
  - (* a pointer move *)
    eapply inRoom_onlyBroadcasts; [|exact Hin].
    rewrite handlePointerMove_unfold.
    set (s1 := set_currentPagePoint (Some pt) s).
    destruct (clearRef_fields (cursorTimeout s1) s1)
      as (_ & _ & _ & _ & A & _ & E & _).
    apply onlyBroadcasts_same;
      cbn [emitted active set_cursorTimeout set_nextTimer set_timers];
      by rewrite ?E, ?A.
  - (* a save settles *)
    eapply inRoom_onlyBroadcasts; [|exact Hin].
    unfold saveSettled. destruct (inFlight s); [apply onlyBroadcasts_refl|].
    by apply onlyBroadcasts_same.
  - eapply inRoom_onlyBroadcasts; [|exact Hin]. apply onlyBroadcasts_tick.
Qed.

(** X25. Whatever happens, everything the component sends names its own
    project, and it joins and leaves the project's room in turn: it has
    sent [join-project] exactly once more than [leave-project] while its
    effects are set up, and equally often otherwise. *)
Theorem joins_and_leaves_alternate (tr : list Event) :
  Forall (λ e, addressee e = projectId) (emitted (run tr init))
  ∧ joinCount (run tr init)
    = leaveCount (run tr init) + (if active (run tr init) then 1 else 0).
Proof.
  change (inRoom (run tr init)).
  induction tr as [|e tr IH] using rev_ind.
  - split; [constructor|reflexivity].
  - rewrite run_concat. by apply inRoom_step.
Qed.

End Traffic.

(** *** The store under remote changes *)

(** The records a payload puts, in the order the callback puts them, and the
    ids it removes. *)
Definition putRecords (data : UpdateData) : list TLRecord :=
  default [] ((λ a : RecordMap, a.*2) <$> dAdded data)
  ++ default [] ((λ u : UpdateMap, (λ kv, kv.2.2) <$> u) <$> dUpdated data).

Definition removedIds (data : UpdateData) : list string :=
  default [] ((λ r : RecordMap, r.*1) <$> dRemoved data).

Definition putAll (l : list TLRecord) (st : gmap string TLRecord)
  : gmap string TLRecord :=
  fold_left (λ st r, put r st) l st.

Definition removeAll (l : list string) (st : gmap string TLRecord)
  : gmap string TLRecord :=
  fold_left (λ st id, remove id st) l st.

Lemma fold_left_fmap {A B C} (f : C → B → C) (g : A → B) (l : list A) (c : C) :
  fold_left (λ c a, f c (g a)) l c = fold_left f (g <$> l) c.
Proof. revert c. induction l as [|a l IH]; intros c; [done|]. simpl. apply IH. Qed.

Lemma applyRemote_split data st :
  applyRemote data st = removeAll (removedIds data) (putAll (putRecords data) st).
Proof.
  unfold applyRemote, removeAll, putAll, putRecords, removedIds.
  rewrite fold_left_app.
  destruct (dAdded data) as [a|], (dUpdated data) as [u|],
    (dRemoved data) as [r|]; simpl;
    rewrite <- ?(fold_left_fmap (λ st id, remove id st) fst),
            <- ?(fold_left_fmap (λ st r, put r st) snd),
            <- ?(fold_left_fmap (λ st r, put r st) (λ kv, kv.2.2)); done.
Qed.

Lemma lookup_removeAll l : ∀ st k,
  removeAll l st !! k = if decide (k ∈ l) then None else st !! k.
Proof.
  induction l as [|i l IH]; intros st k.
  - rewrite decide_False; [done|]. apply not_elem_of_nil.
  - change (removeAll (i :: l) st) with (removeAll l (remove i st)).
    rewrite IH. unfold remove.
    destruct (decide (k ∈ l)) as [Hin|Hout].
    + rewrite decide_True; [done|]. by right.
    + destruct (decide (k = i)) as [->|Hne].
      * rewrite lookup_delete_eq. rewrite decide_True; [done|]. by left.
      * rewrite lookup_delete_ne by done.
        rewrite decide_False; [done|]. intros [?|?]%elem_of_cons; done.
Qed.

Lemma lookup_putAll_other l : ∀ st k,
  k ∉ rid <$> l → putAll l st !! k = st !! k.
Proof.
  induction l as [|r l IH]; intros st k Hk; [done|].
  change (putAll (r :: l) st) with (putAll l (put r st)).
  rewrite fmap_cons in Hk. apply not_elem_of_cons in Hk as [Hne Hk].
  rewrite IH by done. unfold put. by rewrite lookup_insert_ne.
Qed.

Lemma lookup_putAll_stored l : ∀ st r,
  NoDup (rid <$> l) → r ∈ l → putAll l st !! rid r = Some r.
Proof.
  induction l as [|r0 l IH]; intros st r Hnd Hin; [by apply elem_of_nil in Hin|].
  change (putAll (r0 :: l) st) with (putAll l (put r0 st)).
  rewrite fmap_cons in Hnd. apply NoDup_cons in Hnd as [Hnot Hnd].
  apply elem_of_cons in Hin as [->|Hin].
  - rewrite lookup_putAll_other by done. unfold put. by rewrite lookup_insert_eq.
  - by apply IH.
Qed.

(** X4. After a remote update has been applied, no record whose id the
    payload lists as removed is left in the store, also when the same
    payload adds or updates it; and a record whose id the payload neither
    puts nor removes is as it was. *)
Theorem remote_removal_wins (data : UpdateData) (st : gmap string TLRecord)
    (gone other : string) :
  gone ∈ removedIds data →
  other ∉ rid <$> putRecords data → other ∉ removedIds data →
  applyRemote data st !! gone = None
  ∧ applyRemote data st !! other = st !! other.
Proof.
  intros Hgone Hput Hrem. rewrite applyRemote_split, !lookup_removeAll.
  rewrite decide_True by done. rewrite decide_False by done.
  split; [done|]. by apply lookup_putAll_other.
Qed.

(** X5. When the records a remote payload adds or updates have pairwise
    different ids, each of them that the payload does not also remove is
    found in the store under its own id afterwards, whatever key it was sent
    under and whatever the store held before. *)
Theorem remote_records_stored (data : UpdateData) (st : gmap string TLRecord)
    (r : TLRecord) :
  NoDup (rid <$> putRecords data) →
  r ∈ putRecords data → rid r ∉ removedIds data →
  applyRemote data st !! rid r = Some r.
Proof.
  intros Hnd Hin Hrem. rewrite applyRemote_split, lookup_removeAll.
  rewrite decide_False by done. by apply lookup_putAll_stored.
Qed.

(** *** Stores keyed by record id *)

(** Every record is filed under its own id. *)
Definition keyed (st : gmap string TLRecord) : Prop :=
  map_Forall (λ k r, rid r = k) st.

Lemma keyed_put r st : keyed st → keyed (put r st).
Proof.
  intros Hk k r'. unfold put. destruct (decide (rid r = k)) as [<-|Hne].
  - rewrite lookup_insert_eq. by intros [= <-].
  - rewrite lookup_insert_ne by done. apply Hk.
Qed.

Lemma keyed_remove id st : keyed st → keyed (remove id st).
Proof.
  intros Hk k r. unfold remove. destruct (decide (id = k)) as [<-|Hne].
  - by rewrite lookup_delete_eq.
  - rewrite lookup_delete_ne by done. apply Hk.
Qed.

Lemma keyed_putAll l : ∀ st, keyed st → keyed (putAll l st).
Proof.
  induction l as [|r l IH]; intros st Hk; [done|]. by apply IH, keyed_put.
Qed.

Lemma keyed_removeAll l : ∀ st, keyed st → keyed (removeAll l st).
Proof.
  induction l as [|i l IH]; intros st Hk; [done|]. by apply IH, keyed_remove.
Qed.

Lemma lookup_fold_insert (l : list (string * TLRecord)) :
  ∀ m : gmap string TLRecord, ∀ j,
  NoDup l.*1 →
  fold_left (λ o kv, <[kv.1 := kv.2]> o) l m !! j
  = match (list_to_map l : gmap string TLRecord) !! j with
    | Some v => Some v
    | None => m !! j
    end.
Proof.
  induction l as [|[k v] l IH]; intros m j Hnd; [done|].
  rewrite fmap_cons in Hnd. apply NoDup_cons in Hnd as [Hnot Hnd].
  cbn [fold_left fst snd]. rewrite IH by done.
  cbn [list_to_map foldr]. change (foldr _ ∅ l) with (list_to_map l : gmap _ _).
  destruct (decide (k = j)) as [<-|Hne].
  - rewrite (not_elem_of_list_to_map_1 l k) by done.
    by rewrite !lookup_insert_eq.
  - rewrite !lookup_insert_ne by done. done.
Qed.

Lemma snapshot_keyed st : keyed st → snapshot st = st.
Proof.
  intros Hk. unfold snapshot, allRecords.
  rewrite <- (fold_left_fmap (λ o r, <[rid r := r]> o) snd).
  assert (Hfold : ∀ (l : list (string * TLRecord)) (m : gmap string TLRecord),
            (∀ kv, kv ∈ l → rid kv.2 = kv.1) →
            fold_left (λ o kv, <[rid kv.2 := kv.2]> o) l m
            = fold_left (λ o kv, <[kv.1 := kv.2]> o) l m).
  { induction l as [|kv l IH]; intros m Hall; [done|].
    cbn [fold_left]. rewrite (Hall kv) by by left.
    apply IH. intros kv' Hin. apply Hall. by right. }
  rewrite Hfold.
  - apply map_eq. intros j.
    rewrite lookup_fold_insert by apply NoDup_fst_map_to_list.
    rewrite list_to_map_to_list, lookup_empty. by destruct (st !! j).
  - intros [k r] Hin. apply elem_of_map_to_list in Hin. by apply Hk.
Qed.

(** X6. A store in which every record is filed under its own id stays so
    under remote updates and under local edits, and the snapshot that
    [saveCanvasState] posts of such a store is the store itself: no record
    is lost, duplicated or filed under another id. *)
Theorem snapshot_is_lossless (data : UpdateData) (c : Changes)
    (st : gmap string TLRecord) :
  keyed st →
  keyed (applyRemote data st)
  ∧ keyed (applyLocal c st)
  ∧ snapshot st = st
  ∧ snapshot (applyRemote data st) = applyRemote data st
  ∧ snapshot (applyLocal c st) = applyLocal c st.
Proof.
  intros Hk.
  assert (Hr : ∀ d, keyed (applyRemote d st)).
  { intros d. rewrite applyRemote_split. by apply keyed_removeAll, keyed_putAll. }
  split; [apply Hr|]. split; [apply Hr|]. split; [by apply snapshot_keyed|].
  split; apply snapshot_keyed, Hr.
Qed.

(** A payload that adds two shapes, updates the first and removes the
    second. *)
Definition shape1moved : TLRecord := mkRecord "shape:1" "rectangle, moved".

Definition remoteMixed : UpdateData :=
  mkData (Some [("shape:2", shape2)])
         (Some [("shape:1", (shape1, shape1moved))])
         (Some [("shape:2", shape2)]).

Lemma remote_removal_wins_witness :
  "shape:2" ∈ removedIds remoteMixed
  ∧ applyRemote remoteMixed {[ "shape:2" := shape2; "shape:9" := shape9 ]}
      !! "shape:2" = None
  ∧ applyRemote remoteMixed {[ "shape:2" := shape2; "shape:9" := shape9 ]}
      !! "shape:9" = Some shape9.
Proof.
  assert (H : "shape:2" ∈ removedIds remoteMixed) by (vm_compute; set_solver).
  split; [exact H|].
  destruct (remote_removal_wins remoteMixed
              {[ "shape:2" := shape2; "shape:9" := shape9 ]}
              "shape:2" "shape:9") as [H1 H2].
  - exact H.
  - vm_compute. set_solver.
  - vm_compute. set_solver.
  - split; [exact H1|]. rewrite H2. vm_compute. reflexivity.
Defined.

Lemma remote_records_stored_witness :
  shape1moved ∈ putRecords remoteMixed
  ∧ applyRemote remoteMixed {[ "shape:1" := shape1 ]} !! "shape:1"
    = Some shape1moved.
Proof.
  assert (H : shape1moved ∈ putRecords remoteMixed) by (vm_compute; set_solver).
  split; [exact H|].
  apply (remote_records_stored remoteMixed {[ "shape:1" := shape1 ]} shape1moved).
  - vm_compute. repeat (constructor; [set_solver|]). constructor.
  - exact H.
  - vm_compute. set_solver.
Defined.

Lemma snapshot_is_lossless_witness :
  keyed ({[ "shape:1" := shape1 ]} : gmap string TLRecord)
  ∧ snapshot (applyRemote remote9 {[ "shape:1" := shape1 ]})
    = applyRemote remote9 {[ "shape:1" := shape1 ]}.
Proof.
  assert (H : keyed ({[ "shape:1" := shape1 ]} : gmap string TLRecord)).
  { apply map_Forall_singleton. reflexivity. }
  split; [exact H|].
  by destruct (snapshot_is_lossless remote9 draw2 {[ "shape:1" := shape1 ]} H)
    as (_ & _ & _ & -> & _).
Defined.

End Canvas.

(** ** Rows of the database as the Prisma client returns them *)

Module Prisma.

(** The [Role] enum of [@prisma/client]: the three values the helpers of
    [auth-utils] and the canvas route compare with. *)
Inductive Role := OWNER | EDITOR | VIEWER.

#[global] Instance Role_eq_dec : EqDecision Role.
Proof. solve_decision. Defined.

(** A row of [TeamMember], unique for its team and user. *)
Record TeamMember := mkTeamMember {
  memberTeamId : string;
  memberUserId : string;
  role : Role
}.

(** A team with its [members] relation. *)
Record Team := mkTeam { members : list TeamMember }.

(** A project with its [team] relation; a personal project has no team. *)
Record Project := mkProject {
  teamId : option string;
  createdById : string;
  team : option Team
}.

(** A string in a condition: [null], [undefined] and the empty string are
    falsy. *)
Definition truthy (x : option string) : option string :=
  match x with
  | Some s => if decide (s = "") then None else Some s
  | None => None
  end.

(** [include: { members: { where: { userId } } }]: the members of the team
    that are rows of this user. *)
Definition membersOf (userId : string) (t : Team) : list TeamMember :=
  filter (λ m, memberUserId m = userId) (members t).

End Prisma.

(** ** Server-side authorisation helpers ([auth-utils]) *)

Module AuthUtils.
Import Prisma.

(** What an [async] helper does: it returns a value, throws an [Error] with
    a message, or fails with the [TypeError] of a property read on [null]. *)
Inductive Outcome (A : Type) :=
| Return (a : A)
| Throw (message : string)
| TypeError.
Arguments Return {A} a.
Arguments Throw {A} message.
Arguments TypeError {A}.

(** The two tables the helpers query. *)
Record Db := mkDb {
  teamMember : gmap (string * string) TeamMember; (* by (teamId, userId) *)
  project : gmap string Project                   (* by id *)
}.

(** [getCurrentUser], lines 205-208: [session?.user]. *)
Definition getCurrentUser {U : Type} (session : option (option U)) : option U :=
  session ≫= id.

(** [requireAuth], lines 213-219. *)
Definition requireAuth {U : Type} (session : option (option U)) : Outcome U :=
  match getCurrentUser session with
  | Some user => Return user
  | None => Throw "Unauthorized"
  end.

(** [checkTeamAccess], lines 224-235. *)
Definition checkTeamAccess (db : Db) (userId teamId : string)
  : option TeamMember :=
  teamMember db !! (teamId, userId).

(** [checkProjectAccess], lines 240-260; [project.team.members[0]] reads
    [members] of [project.team] without a null check. *)
Definition checkProjectAccess (db : Db) (userId projectId : string)
  : Outcome (option (Project * Role)) :=
  match project db !! projectId with
  | None => Return None
  | Some p =>
      match team p with
      | None => TypeError
      | Some t =>
          match membersOf userId t with
          | teamMember :: _ => Return (Some (p, role teamMember))
          | [] => Return None
          end
      end
  end.

(** [requiredRoles.includes(role)]. *)
Definition includes (requiredRoles : list Role) (r : Role) : bool :=
  bool_decide (r ∈ requiredRoles).

(** [requireTeamRole], lines 265-281. *)
Definition requireTeamRole (db : Db) (userId teamId : string)
    (requiredRoles : list Role) : Outcome TeamMember :=
  match checkTeamAccess db userId teamId with
  | None => Throw "Access denied: Not a team member"
  | Some teamMember =>
      if includes requiredRoles (role teamMember)
      then Return teamMember
      else Throw "Access denied: Insufficient permissions"
  end.

(** [requireProjectRole], lines 286-302. *)
Definition requireProjectRole (db : Db) (userId projectId : string)
    (requiredRoles : list Role) : Outcome (Project * Role) :=
  match checkProjectAccess db userId projectId with
  | TypeError => TypeError
  | Throw message => Throw message
  | Return None => Throw "Access denied: Not a project member"
  | Return (Some access) =>
      if includes requiredRoles access.2
      then Return access
      else Throw "Access denied: Insufficient permissions"
  end.

(** [canEdit], lines 307-309. *)
Definition canEdit (r : Role) : bool :=
  bool_decide (r = OWNER) || bool_decide (r = EDITOR).

(** [isOwner], lines 314-316. *)
Definition isOwner (r : Role) : bool := bool_decide (r = OWNER).

(** [canView], lines 321-323. *)
Definition canView (r : Role) : bool :=
  bool_decide (r = OWNER) || bool_decide (r = EDITOR)
  || bool_decide (r = VIEWER).

(** X15. The three role predicates are nested: an owner can edit, whoever
    can edit can view, and every role can view; the viewer is the one role
    that cannot edit. *)
Theorem roles_nested (r : Role) :
  (isOwner r = true → canEdit r = true)
  ∧ (canEdit r = true → canView r = true)
  ∧ canView r = true
  ∧ (canEdit r = false ↔ r = VIEWER).
Proof. destruct r; cbv; intuition congruence. Qed.

(** X16. [requireTeamRole] lets a user through only with the stored
    membership row of that team and user, whose role is among the required
    ones; widening the list of required roles never turns a success into a
    refusal; and a user who is not a member is told so whatever roles are
    required. *)
Theorem requireTeamRole_monotone (db : Db) (userId teamId : string)
    (requiredRoles wider : list Role) (m : TeamMember) :
  requiredRoles ⊆ wider →
  requireTeamRole db userId teamId requiredRoles = Return m →
  checkTeamAccess db userId teamId = Some m
  ∧ role m ∈ requiredRoles
  ∧ requireTeamRole db userId teamId wider = Return m.
Proof.
  intros Hsub. unfold requireTeamRole, includes.
  destruct (checkTeamAccess db userId teamId) as [m'|]; [|done].
  destruct (bool_decide (role m' ∈ requiredRoles)) eqn:E; [|done].
  intros [= ->]. apply bool_decide_eq_true in E.
  split; [done|]. split; [done|].
  by rewrite bool_decide_eq_true_2 by by apply Hsub.
Qed.

(** X17. With the roles that [canEdit] accepts as the required ones,
    [requireTeamRole] lets through exactly the members that can edit, and
    with an empty list of required roles nobody: a member is refused for
    insufficient permissions, anybody else for not being a member. *)
Theorem requireTeamRole_editors (db : Db) (userId teamId : string) :
  (∀ m, requireTeamRole db userId teamId [OWNER; EDITOR] = Return m
        ↔ checkTeamAccess db userId teamId = Some m ∧ canEdit (role m) = true)
  ∧ (∀ m, requireTeamRole db userId teamId [] ≠ Return m)
  ∧ (checkTeamAccess db userId teamId = None →
     ∀ roles, requireTeamRole db userId teamId roles
              = Throw "Access denied: Not a team member").
Proof.
  unfold requireTeamRole, includes.
  destruct (checkTeamAccess db userId teamId) as [m'|].
  - split; [|split; [|done]].
    + intros m. destruct (role m') eqn:Er; cbv [canEdit]; split.
      all: try (rewrite bool_decide_eq_true_2 by set_solver).
      all: try (rewrite bool_decide_eq_false_2 by set_solver).
      all: try (intros [= <-]; by rewrite Er).
      all: try (intros [[= <-] _]; done).
      all: try done.
      intros [[= <-] H]. rewrite Er in H. done.
    + intros m. rewrite bool_decide_eq_false_2; [done|]. apply not_elem_of_nil.
  - split; [|split; [done|done]]. intros m. split; [done|]. by intros [? _].
Qed.

(** X18. For a project without a team, [checkProjectAccess] and
    [requireProjectRole] neither grant nor refuse: reading the members of
    the missing team fails with a [TypeError], for every user, the creator
    of the project included, and whatever roles are required. *)
Theorem project_access_needs_team (db : Db) (userId projectId : string)
    (requiredRoles : list Role) (p : Project) :
  project db !! projectId = Some p → team p = None →
  checkProjectAccess db userId projectId = TypeError
  ∧ requireProjectRole db userId projectId requiredRoles = TypeError.
Proof.
  intros Hp Ht. unfold requireProjectRole, checkProjectAccess.
  by rewrite Hp, Ht.
Qed.

(** X19. For a project with a team, [requireProjectRole] returns exactly
    when the user has a membership row in that team whose role is among the
    required ones, and then it returns the project with that role; a user
    with no row is refused as not a project member whatever roles are
    required. *)
Theorem requireProjectRole_member (db : Db) (userId projectId : string)
    (requiredRoles : list Role) (p : Project) (t : Team) :
  project db !! projectId = Some p → team p = Some t →
  (∀ access, requireProjectRole db userId projectId requiredRoles = Return access
     ↔ ∃ m rest, membersOf userId t = m :: rest
                 ∧ access = (p, role m) ∧ role m ∈ requiredRoles)
  ∧ (membersOf userId t = [] →
     requireProjectRole db userId projectId requiredRoles
     = Throw "Access denied: Not a project member").
Proof.
  intros Hp Ht. unfold requireProjectRole, checkProjectAccess, includes.
  rewrite Hp, Ht. destruct (membersOf userId t) as [|m rest]; cbn [snd].
  - split; [|done]. intros access. split; [done|]. by intros (? & ? & ? & _).
  - split; [|done]. intros access.
    destruct (bool_decide (role m ∈ requiredRoles)) eqn:E.
    + apply bool_decide_eq_true in E. split.
      * intros [= <-]. eauto.
      * intros (m' & rest' & [= <- <-] & -> & _). done.
    + apply bool_decide_eq_false in E. split; [done|].
      intros (m' & rest' & [= <- <-] & _ & Hin). done.
Qed.

(** Concrete tables. *)

Definition annOwner : TeamMember := mkTeamMember "team-1" "ann" OWNER.
Definition vicViewer : TeamMember := mkTeamMember "team-1" "vic" VIEWER.

Definition teamProject : Project :=
  mkProject (Some "team-1") "ann" (Some (mkTeam [annOwner; vicViewer])).

Definition personalProject : Project := mkProject None "ann" None.

Definition sampleDb : Db :=
  mkDb {[ ("team-1", "ann") := annOwner; ("team-1", "vic") := vicViewer ]}
       {[ "proj-1" := teamProject; "proj-2" := personalProject ]}.

Lemma requireTeamRole_monotone_witness :
  [OWNER] ⊆ [OWNER; EDITOR]
  ∧ requireTeamRole sampleDb "ann" "team-1" [OWNER] = Return annOwner
  ∧ requireTeamRole sampleDb "ann" "team-1" [OWNER; EDITOR] = Return annOwner.
Proof.
  assert (H1 : [OWNER] ⊆ [OWNER; EDITOR]) by set_solver.
  assert (H2 : requireTeamRole sampleDb "ann" "team-1" [OWNER] = Return annOwner)
    by (vm_compute; reflexivity).
  split; [exact H1|]. split; [exact H2|].
  exact (proj2 (proj2 (requireTeamRole_monotone sampleDb "ann" "team-1"
                         [OWNER] [OWNER; EDITOR] annOwner H1 H2))).
Defined.

Lemma requireTeamRole_editors_witness :
  checkTeamAccess sampleDb "zoe" "team-1" = None
  ∧ requireTeamRole sampleDb "zoe" "team-1" [VIEWER]
    = Throw "Access denied: Not a team member".
Proof.
  assert (H : checkTeamAccess sampleDb "zoe" "team-1" = None)
    by (vm_compute; reflexivity).
  split; [exact H|].
  exact (proj2 (proj2 (requireTeamRole_editors sampleDb "zoe" "team-1"))
           H [VIEWER]).
Defined.

Lemma project_access_needs_team_witness :
  project sampleDb !! "proj-2" = Some personalProject
  ∧ team personalProject = None
  ∧ requireProjectRole sampleDb "ann" "proj-2" [OWNER; EDITOR; VIEWER]
    = TypeError.
Proof.
  assert (H : project sampleDb !! "proj-2" = Some personalProject)
    by (vm_compute; reflexivity).
  split; [exact H|]. split; [reflexivity|].
  exact (proj2 (project_access_needs_team sampleDb "ann" "proj-2"
                  [OWNER; EDITOR; VIEWER] personalProject H eq_refl)).
Defined.

Lemma requireProjectRole_member_witness :
  project sampleDb !! "proj-1" = Some teamProject
  ∧ team teamProject = Some (mkTeam [annOwner; vicViewer])
  ∧ membersOf "zoe" (mkTeam [annOwner; vicViewer]) = []
  ∧ requireProjectRole sampleDb "zoe" "proj-1" [VIEWER]
    = Throw "Access denied: Not a project member".
Proof.
  assert (H : project sampleDb !! "proj-1" = Some teamProject)
    by (vm_compute; reflexivity).
  assert (H' : membersOf "zoe" (mkTeam [annOwner; vicViewer]) = [])
    by (vm_compute; reflexivity).
  split; [exact H|]. split; [reflexivity|]. split; [exact H'|].
  exact (proj2 (requireProjectRole_member sampleDb "zoe" "proj-1" [VIEWER]
                  teamProject (mkTeam [annOwner; vicViewer]) H eq_refl) H').
Defined.

End AuthUtils.

(** ** The canvas route ([app/api/projects/[id]/canvas/route.ts]) *)

Module CanvasRoute.
Import Prisma.

Section Route.

(** The JSON values a canvas state can be; the schema takes any
    ([z.any()]). *)
Context {J : Type}.

(** A row of [Canvas]; there is at most one for a project. *)
Record CanvasRow := mkCanvas {
  canvasId : string;
  state : J;
  version : Z
}.

(** The two tables the route reads and writes.  The database calls
    themselves are taken to succeed. *)
Record Db := mkDb {
  project : gmap string Project;   (* by id *)
  canvas : gmap string CanvasRow   (* by projectId *)
}.

(** A request body: [request.json()] fails on it, or the schema rejects
    what it yields, or the schema accepts it with this [state]. *)
Inductive Body :=
| Unparsable
| Rejected
| Accepted (st : J).

(** The responses of the two handlers. *)
Inductive Response :=
| Loaded (id : option string) (st : option J) (v : Z)  (* 200, GET *)
| Saved (id : string) (v : Z)                          (* 200, POST *)
| Failure (status : nat) (error : string).

(** [hasAccess], lines 47-49. *)
Definition hasAccess (userId : string) (p : Project) : bool :=
  match truthy (teamId p) with
  | None => bool_decide (createdById p = userId)
  | Some _ =>
      match team p with
      | Some t => bool_decide (0 < length (membersOf userId t))
      | None => false
      end
  end.

(** [hasWriteAccess], lines 113-121. *)
Definition hasWriteAccess (userId : string) (p : Project) : bool :=
  match truthy (teamId p) with
  | None => bool_decide (createdById p = userId)
  | Some _ =>
      match team p with
      | Some t =>
          match membersOf userId t with
          | member :: _ =>
              bool_decide (role member = OWNER)
              || bool_decide (role member = EDITOR)
          | [] => false
          end
      | None => false
      end
  end.

(** [GET], lines 12-75; [session] is [session?.user?.id]. *)
Definition GET (db : Db) (session : option string) (id : string) : Response :=
  match truthy session with
  | None => Failure 401 "Unauthorized"
  | Some userId =>
      match project db !! id with
      | None => Failure 404 "Project not found"
      | Some p =>
          if hasAccess userId p
          then match canvas db !! id with
               | Some c => Loaded (Some (canvasId c)) (Some (state c)) (version c)
               | None => Loaded None None 0
               end
          else Failure 403 "Access denied"
      end
  end.

(** [prisma.canvas.upsert], lines 134-149; [fresh] is the id the database
    gives a row it creates. *)
Definition upsert (id : string) (st : J) (fresh : string) (db : Db)
  : CanvasRow * Db :=
  let row := match canvas db !! id with
             | Some c => mkCanvas (canvasId c) st (version c + 1)
             | None => mkCanvas fresh st 1
             end in
  (row, mkDb (project db) (<[id := row]> (canvas db))).

(** [POST], lines 78-170. *)
Definition POST (db : Db) (session : option string) (id : string)
    (body : Body) (fresh : string) : Db * Response :=
  match truthy session with
  | None => (db, Failure 401 "Unauthorized")
  | Some userId =>
      match project db !! id with
      | None => (db, Failure 404 "Project not found")
      | Some p =>
          if hasWriteAccess userId p
          then match body with
               | Unparsable => (db, Failure 500 "Failed to save canvas state")
               | Rejected => (db, Failure 400 "Invalid request data")
               | Accepted st =>
                   let '(c, db') := upsert id st fresh db in
                   (db', Saved (canvasId c) (version c))
               end
          else (db, Failure 403 "Insufficient permissions")
      end
  end.

(** A sequence of accepted saves of one user to one project, each with the
    id the database would give a new row. *)
Definition postAll (session : option string) (id : string)
    (reqs : list (J * string)) (db : Db) : Db :=
  fold_left (λ db r, (POST db session id (Accepted r.1) r.2).1) reqs db.

(** The version of a project's canvas, [0] when it has none, as [GET]
    reports it. *)
Definition versionOf (db : Db) (id : string) : Z :=
  match canvas db !! id with Some c => version c | None => 0 end.

Lemma hasWriteAccess_hasAccess userId p :
  hasWriteAccess userId p = true → hasAccess userId p = true.
Proof.
  unfold hasWriteAccess, hasAccess.
  destruct (truthy (teamId p)); [|done].
  destruct (team p) as [t|]; [|done].
  destruct (membersOf userId t); [done|]. intros _.
  apply bool_decide_eq_true. simpl. lia.
Qed.

Lemma POST_saved db session id body fresh db' cid v :
  POST db session id body fresh = (db', Saved cid v) →
  ∃ userId p st,
    truthy session = Some userId ∧ project db !! id = Some p
    ∧ hasWriteAccess userId p = true ∧ body = Accepted st
    ∧ db' = (upsert id st fresh db).2
    ∧ cid = canvasId (upsert id st fresh db).1
    ∧ v = version (upsert id st fresh db).1.
Proof.
  unfold POST. destruct (truthy session) as [u|]; [|done].
  destruct (project db !! id) as [p|]; [|done].
  destruct (hasWriteAccess u p) eqn:E; [|done].
  destruct body as [| |st]; try done.
  intros [= <- <- <-]. by exists u, p, st.
Qed.

(** X20. Whoever may save a project's canvas may load it: when [POST]
    answers with a saved version, [GET] for the same session and project
    answers with the canvas, on the database before the save and on the one
    after it. *)
Theorem write_access_implies_read (db db' : Db) (session : option string)
    (id : string) (body : Body) (fresh cid : string) (v : Z) :
  POST db session id body fresh = (db', Saved cid v) →
  (∃ i st w, GET db session id = Loaded i st w)
  ∧ (∃ i st w, GET db' session id = Loaded i st w).
Proof.
  intros (u & p & st & Hs & Hp & Hw & -> & -> & _ & _)%POST_saved.
  apply hasWriteAccess_hasAccess in Hw.
  unfold GET, upsert. cbn [snd project canvas]. rewrite Hs, Hp, Hw.
  split.
  - destruct (canvas db !! id); eauto.
  - rewrite lookup_insert_eq. eauto.
Qed.

(** X21. A save can be read back: after [POST] has saved a state, [GET] for
    the same session and project returns that very state with the id and
    the version that [POST] reported; the version is one more than before
    (1 for the first save), and the id of an existing canvas is kept. *)
Theorem save_then_load (db db' : Db) (session : option string)
    (id : string) (st : J) (fresh cid : string) (v : Z) :
  POST db session id (Accepted st) fresh = (db', Saved cid v) →
  GET db' session id = Loaded (Some cid) (Some st) v
  ∧ v = (versionOf db id + 1)%Z
  ∧ cid = match canvas db !! id with Some c => canvasId c | None => fresh end.
Proof.
  intros (u & p & st' & Hs & Hp & Hw & [= <-] & -> & -> & ->)%POST_saved.
  apply hasWriteAccess_hasAccess in Hw.
  unfold GET, upsert, versionOf. cbn [fst snd project canvas].
  rewrite Hs, Hp, Hw, lookup_insert_eq.
  by destruct (canvas db !! id).
Qed.

(** X22. [POST] writes nothing but the canvas of the project it names: the
    projects and every other project's canvas are as before, and when it
    answers with anything but a saved version (401, 403, 404, 400 or 500)
    the database is untouched. *)
Theorem save_touches_one_canvas (db db' : Db) (session : option string)
    (id : string) (body : Body) (fresh : string) (r : Response) :
  POST db session id body fresh = (db', r) →
  project db' = project db
  ∧ (∀ other, other ≠ id → canvas db' !! other = canvas db !! other)
  ∧ ((∀ cid v, r ≠ Saved cid v) → db' = db).
Proof.
  unfold POST. destruct (truthy session) as [u|]; [|by intros [= <- <-]].
  destruct (project db !! id) as [p|]; [|by intros [= <- <-]].
  destruct (hasWriteAccess u p); [|by intros [= <- <-]].
  destruct body as [| |st]; try by intros [= <- <-].
  unfold upsert. intros [= <- <-]. cbn [project canvas].
  split; [done|]. split.
  - intros other Hne. by rewrite lookup_insert_ne.
  - intros Hno. by destruct (Hno _ _ eq_refl).
Qed.

(** X23. The permission check comes before the body is read and follows
    the role of the user's membership row in a team project: a member
    whose role cannot edit can load the canvas but gets 403 from [POST]
    whatever the body, with the database untouched, and a member whose role
    can edit has every accepted body saved. *)
Theorem team_role_decides_save (db : Db) (session : option string)
    (id userId tid : string) (p : Project) (t : Team)
    (m : TeamMember) (rest : list TeamMember) :
  truthy session = Some userId → project db !! id = Some p →
  truthy (teamId p) = Some tid → team p = Some t →
  membersOf userId t = m :: rest →
  (∃ i st w, GET db session id = Loaded i st w)
  ∧ (AuthUtils.canEdit (role m) = false →
     ∀ body fresh,
       POST db session id body fresh
       = (db, Failure 403 "Insufficient permissions"))
  ∧ (AuthUtils.canEdit (role m) = true →
     ∀ st fresh, ∃ db' cid v,
       POST db session id (Accepted st) fresh = (db', Saved cid v)).
Proof.
  intros Hs Hp Htid Ht Hm.
  assert (Hw : hasWriteAccess userId p = AuthUtils.canEdit (role m)).
  { unfold hasWriteAccess. by rewrite Htid, Ht, Hm. }
  assert (Ha : hasAccess userId p = true).
  { unfold hasAccess. rewrite Htid, Ht, Hm. apply bool_decide_eq_true.
    simpl. lia. }
  split; [|split].
  - unfold GET. rewrite Hs, Hp, Ha. destruct (canvas db !! id); eauto.
  - intros Hno body fresh. unfold POST. by rewrite Hs, Hp, Hw, Hno.
  - intros Hyes st fresh. unfold POST. rewrite Hs, Hp, Hw, Hyes.
    destruct (upsert id st fresh db) as [c db']. eauto.
Qed.

Lemma POST_project db session id body fresh :
  project (POST db session id body fresh).1 = project db.
Proof.
  unfold POST. destruct (truthy session) as [u|]; [|done].
  destruct (project db !! id) as [p|]; [|done].
  destruct (hasWriteAccess u p); [|done]. by destruct body.
Qed.

Lemma postAll_snoc session id reqs r db :
  postAll session id (reqs ++ [r]) db
  = (POST (postAll session id reqs db) session id (Accepted r.1) r.2).1.
Proof. unfold postAll. by rewrite fold_left_app. Qed.

Lemma postAll_project session id reqs db :
  project (postAll session id reqs db) = project db.
Proof.
  induction reqs as [|r reqs IH] using rev_ind; [done|].
  rewrite postAll_snoc, POST_project. exact IH.
Qed.

(** X24. The version of a canvas counts its saves: after [n] accepted
    saves by a user with write access the version has grown by [n], the
    stored state is the one saved last, and the canvas keeps one id
    throughout: the one it had, or the one the first save created. *)
Theorem version_counts_saves (db : Db) (session : option string)
    (id userId : string) (p : Project) (reqs : list (J * string))
    (r : J * string) :
  truthy session = Some userId → project db !! id = Some p →
  hasWriteAccess userId p = true →
  ∃ c, canvas (postAll session id (reqs ++ [r]) db) !! id = Some c
       ∧ version c = (versionOf db id + Z.of_nat (length (reqs ++ [r])))%Z
       ∧ state c = r.1
       ∧ canvasId c = match canvas db !! id with
                      | Some c0 => canvasId c0
                      | None => (hd r reqs).2
                      end.
Proof.
  intros Hs Hp Hw. revert r.
  induction reqs as [|r0 reqs IH] using rev_ind; intros r.
  - cbn [app postAll fold_left fst snd length hd]. unfold POST.
    rewrite Hs, Hp, Hw. unfold upsert, versionOf. cbn [fst snd canvas].
    rewrite lookup_insert_eq. eexists. split; [done|].
    destruct (canvas db !! id); cbn; repeat split; lia.
  - destruct (IH r0) as (c & Hc & Hv & _ & Hid).
    rewrite postAll_snoc. unfold POST.
    rewrite Hs, postAll_project, Hp, Hw. unfold upsert.
    cbn [fst snd canvas]. rewrite Hc, lookup_insert_eq.
    eexists. split; [done|]. cbn [version state canvasId].
    split; [|split; [done|]].
    + rewrite Hv, !length_app. cbn [length]. lia.
    + rewrite Hid. destruct (canvas db !! id); [done|].
      by destruct reqs.
Qed.

End Route.

Arguments Unparsable {J}.
Arguments Rejected {J}.
Arguments Failure {J} status error.
Arguments Saved {J} id v.

(** Concrete tables: the states are the stores that the canvas component
    posts. *)

Definition benEditor : TeamMember := mkTeamMember "team-1" "ben" EDITOR.

Definition drawing : Project :=
  mkProject (Some "team-1") "ann"
    (Some (mkTeam [AuthUtils.annOwner; benEditor; AuthUtils.vicViewer])).

Definition board1 : gmap string Canvas.TLRecord :=
  {[ "shape:1" := Canvas.shape1 ]}.

Definition board2 : gmap string Canvas.TLRecord :=
  {[ "shape:1" := Canvas.shape1; "shape:2" := Canvas.shape2 ]}.

Definition emptyDb : Db (J := gmap string Canvas.TLRecord) :=
  mkDb {[ "proj-1" := drawing ]} ∅.

Lemma write_access_implies_read_witness :
  POST emptyDb (Some "ben") "proj-1" (Accepted board1) "canvas-1"
    = ((upsert "proj-1" board1 "canvas-1" emptyDb).2, Saved "canvas-1" 1)
  ∧ ∃ i st w, GET emptyDb (Some "ben") "proj-1" = Loaded i st w.
Proof.
  assert (H : POST emptyDb (Some "ben") "proj-1" (Accepted board1) "canvas-1"
    = ((upsert "proj-1" board1 "canvas-1" emptyDb).2, Saved "canvas-1" 1))
    by reflexivity.
  split; [exact H|].
  exact (proj1 (write_access_implies_read _ _ _ _ _ _ _ _ H)).
Defined.

Lemma save_then_load_witness :
  POST emptyDb (Some "ben") "proj-1" (Accepted board1) "canvas-1"
    = ((upsert "proj-1" board1 "canvas-1" emptyDb).2, Saved "canvas-1" 1)
  ∧ GET (upsert "proj-1" board1 "canvas-1" emptyDb).2 (Some "ben") "proj-1"
    = Loaded (Some "canvas-1") (Some board1) 1.
Proof.
  assert (H : POST emptyDb (Some "ben") "proj-1" (Accepted board1) "canvas-1"
    = ((upsert "proj-1" board1 "canvas-1" emptyDb).2, Saved "canvas-1" 1))
    by reflexivity.
  split; [exact H|].
  exact (proj1 (save_then_load _ _ _ _ _ _ _ _ H)).
Defined.

Lemma save_touches_one_canvas_witness :
  POST emptyDb (Some "vic") "proj-1" (Accepted board1) "canvas-1"
    = (emptyDb, Failure 403 "Insufficient permissions")
  ∧ project emptyDb = project emptyDb.
Proof.
  assert (H : POST emptyDb (Some "vic") "proj-1" (Accepted board1) "canvas-1"
    = (emptyDb, Failure 403 "Insufficient permissions")) by reflexivity.
  split; [exact H|].
  exact (proj1 (save_touches_one_canvas _ _ _ _ _ _ _ H)).
Defined.

Lemma team_role_decides_save_witness :
  truthy (Some "vic") = Some "vic"
  ∧ project emptyDb !! "proj-1" = Some drawing
  ∧ membersOf "vic" (mkTeam [AuthUtils.annOwner; benEditor; AuthUtils.vicViewer])
    = [AuthUtils.vicViewer]
  ∧ (∃ i st w, GET emptyDb (Some "vic") "proj-1" = Loaded i st w)
  ∧ POST emptyDb (Some "vic") "proj-1" Unparsable "canvas-1"
    = (emptyDb, Failure 403 "Insufficient permissions").
Proof.
  assert (H1 : truthy (Some "vic") = Some "vic") by reflexivity.
  assert (H2 : project emptyDb !! "proj-1" = Some drawing)
    by (vm_compute; reflexivity).
  assert (H3 : membersOf "vic"
                 (mkTeam [AuthUtils.annOwner; benEditor; AuthUtils.vicViewer])
               = [AuthUtils.vicViewer]) by (vm_compute; reflexivity).
  split; [exact H1|]. split; [exact H2|]. split; [exact H3|].
  destruct (team_role_decides_save emptyDb (Some "vic") "proj-1" "vic" "team-1"
              drawing _ _ _ H1 H2 eq_refl eq_refl H3) as (Hg & Hno & _).
  split; [exact Hg|]. apply Hno. reflexivity.
Defined.

Lemma version_counts_saves_witness :
  truthy (Some "ben") = Some "ben"
  ∧ project emptyDb !! "proj-1" = Some drawing
  ∧ hasWriteAccess "ben" drawing = true
  ∧ ∃ c, canvas (postAll (Some "ben") "proj-1"
                   ([(board1, "canvas-1")] ++ [(board2, "canvas-2")]) emptyDb)
           !! "proj-1" = Some c
         ∧ version c = 2%Z ∧ state c = board2 ∧ canvasId c = "canvas-1".
Proof.
  assert (H1 : truthy (Some "ben") = Some "ben") by reflexivity.
  assert (H2 : project emptyDb !! "proj-1" = Some drawing)
    by (vm_compute; reflexivity).
  assert (H3 : hasWriteAccess "ben" drawing = true) by (vm_compute; reflexivity).
  split; [exact H1|]. split; [exact H2|]. split; [exact H3|].
  destruct (version_counts_saves emptyDb (Some "ben") "proj-1" "ben" drawing
              [(board1, "canvas-1")] (board2, "canvas-2") H1 H2 H3)
    as (c & Hc & Hv & Hst & Hid).
  exists c. split; [exact Hc|]. split; [|split; [exact Hst|exact Hid]].
  rewrite Hv. reflexivity.
Defined.

End CanvasRoute.
